(** * Viewer3d: meshes, lines and the bookkeeping between them

    A shallow embedding of [src/viewer3d/index.ts] (class [Viewer3d]).

    The JavaScript heap is written out: every mesh and every line is an
    object reached through its [name] (the string [Tools.RandomId()] hands
    out, unique per call, modelled by a counter), and every [Vector3] is a
    cell of a separate store, because the source shares them: after
    [option.points[0] = mesh.position] the line and the mesh hold the
    same vector, and [addInPlace] on it is seen through both.

    A method is a computation in a state-and-exception monad.  An exception
    keeps the state reached so far, as in JavaScript: nothing is rolled
    back.

    The render engine (Babylon.js) is the collaborator.  Of it only this
    is kept: [MeshBuilder.CreateBox]/[CreateSphere]/[CreateLines] allocate
    an object and put it into [scene.meshes]; a new mesh stands at
    [Vector3.Zero()] with no parent and no metadata; [dispose] and
    [scene.removeMesh] take the object out of [scene.meshes];
    [CreateLines] on an existing instance recommits the drawable and
    changes nothing of what is modelled here, and raises a [TypeError]
    when the instance was disposed.  The source calls [dispose] and
    [scene.removeMesh] together, so a line is disposed exactly when it is
    out of the scene. *)

From Stdlib Require Import PrimFloat.
From stdpp Require Import gmap strings list.

Abbreviation Name := nat (only parsing).
Abbreviation Addr := nat (only parsing).

(** ** Data *)

Module Vector3.

Record t := mk { x : float; y : float; z : float }.

Definition Zero : t := mk 0 0 0.

(** The arithmetic of [addInPlace]: component-wise IEEE addition. *)
Definition add (a b : t) : t :=
  mk (x a + x b)%float (y a + y b)%float (z a + z b)%float.

End Vector3.

(** [interface Point { x?: number; y?: number; z?: number }] *)
Module Point.

Record t := mk { x : option float; y : option float; z : option float }.

End Point.

(** [mesh.metadata = { type, lines }] *)
Record Metadata := mkMetadata {
  type : string;
  lines : list Name
}.

(** A [Mesh] (or any node of the scene graph): [position] is the address
    of its vector, [parent] the name of its parent node, [metadata] what
    the viewer reads of its metadata, [None] where [metadata.lines] cannot
    be read. *)
Record Mesh := mkMesh {
  position : Addr;
  parent : option Name;
  metadata : option Metadata
}.

(** A [LinesMesh] with its [metadata = { option, from, to }]; of [option]
    the array [points] is kept ([updatable] is constantly [true] and
    [instance] is the line itself). *)
Record LinesMesh := mkLinesMesh {
  points : list Addr;
  from : option Name;
  to : option Name
}.

(** [type: 'from' | 'to'] of [connectLine]. *)
Inductive EndType := TFrom | TTo.

Record State := mkState {
  meshes : gmap nat Mesh;
  lineMeshes : gmap nat LinesMesh;
  vectors : gmap nat Vector3.t;
  scene : gset nat;
  nextId : nat;
  nextVec : nat
}.

Definition init : State := mkState ∅ ∅ ∅ ∅ 0 0.

(** ** The monad *)

(** [TypeError]: a property read on [null] or [undefined].
    [LoadError]: the rejection of [SceneLoader.ImportMeshAsync].
    [Dangling]: a name that denotes no object; a JavaScript reference
    always denotes one, so this outcome only keeps the embedding total
    (no call of a reachable state on objects of the heap ends in it, see
    [reach_call]). *)
Inductive exn := TypeError | LoadError | Dangling.

Inductive res (A : Type) :=
| Ok (a : A)
| Throw (e : exn).
Arguments Ok {A} a.
Arguments Throw {A} e.

Definition M (A : Type) : Type := State → State * res A.

Definition ret {A} (a : A) : M A := λ s, (s, Ok a).

Definition throw {A} (e : exn) : M A := λ s, (s, Throw e).

Definition bind {A B} (k : A → M B) (c : M A) : M B :=
  λ s, match c s with
       | (s', Ok a) => k a s'
       | (s', Throw e) => (s', Throw e)
       end.

(** stdpp's notations: [x ← c; k] and [c;; k]. *)
#[global] Instance M_ret : MRet M := @ret.
#[global] Instance M_bind : MBind M := @bind.

Definition gets {A} (f : State → A) : M A := λ s, (s, Ok (f s)).

Definition modify (f : State → State) : M unit := λ s, (f s, Ok tt).

(** [array.forEach(f)] over a snapshot of the array. *)
Fixpoint forEach {A} (f : A → M unit) (l : list A) : M unit :=
  match l with
  | [] => ret tt
  | a :: l' => f a ;; forEach f l'
  end.

(** The state a call ends in, whether it returns or throws. *)
Definition exec {A} (c : M A) (s : State) : State := (c s).1.

(** ** Heap access *)

Definition getMesh (mesh : Name) : M Mesh :=
  λ s, match meshes s !! mesh with
       | Some m => (s, Ok m)
       | None => (s, Throw Dangling)
       end.

Definition getLine (line : Name) : M LinesMesh :=
  λ s, match lineMeshes s !! line with
       | Some l => (s, Ok l)
       | None => (s, Throw Dangling)
       end.

Definition getVector (a : Addr) : M Vector3.t :=
  λ s, match vectors s !! a with
       | Some v => (s, Ok v)
       | None => (s, Throw Dangling)
       end.

(** The heap after one write. *)
Definition putMesh (mesh : Name) (m : Mesh) (s : State) : State :=
  mkState (<[mesh := m]> (meshes s)) (lineMeshes s) (vectors s)
          (scene s) (nextId s) (nextVec s).

Definition putLine (line : Name) (l : LinesMesh) (s : State) : State :=
  mkState (meshes s) (<[line := l]> (lineMeshes s)) (vectors s)
          (scene s) (nextId s) (nextVec s).

Definition putVector (a : Addr) (v : Vector3.t) (s : State) : State :=
  mkState (meshes s) (lineMeshes s) (<[a := v]> (vectors s))
          (scene s) (nextId s) (nextVec s).

Definition allocVector (v : Vector3.t) (s : State) : State :=
  mkState (meshes s) (lineMeshes s) (<[nextVec s := v]> (vectors s))
          (scene s) (nextId s) (S (nextVec s)).

Definition allocId (s : State) : State :=
  mkState (meshes s) (lineMeshes s) (vectors s) (scene s)
          (S (nextId s)) (nextVec s).

Definition putScene (sc : gset nat) (s : State) : State :=
  mkState (meshes s) (lineMeshes s) (vectors s) sc (nextId s) (nextVec s).

Definition setMesh (mesh : Name) (m : Mesh) : M unit := modify (putMesh mesh m).

Definition setLine (line : Name) (l : LinesMesh) : M unit :=
  modify (putLine line l).

Definition setVector (a : Addr) (v : Vector3.t) : M unit :=
  modify (putVector a v).

(** [new Vector3(...)] and [v.clone()]: a fresh cell. *)
Definition newVector (v : Vector3.t) : M Addr :=
  λ s, (allocVector v s, Ok (nextVec s)).

(** [Tools.RandomId()] *)
Definition RandomId : M Name := λ s, (allocId s, Ok (nextId s)).

Definition sceneAdd (n : Name) : M unit :=
  modify (λ s, putScene ({[n]} ∪ scene s) s).

(** [obj.dispose()] and [this.scene.removeMesh(obj)]. *)
Definition dispose (n : Name) : M unit :=
  modify (λ s, putScene (scene s ∖ {[n]}) s).

Definition sceneRemoveMesh (n : Name) : M unit := dispose n.

(** Reading a property of a reference that may be [null]. *)
Definition deref {A} (r : option A) : M A :=
  match r with
  | Some a => ret a
  | None => throw TypeError
  end.

(** [mesh.metadata.lines]: a [TypeError] when [metadata] is not set. *)
Definition getLines (mesh : Name) : M (list Name) :=
  m ← getMesh mesh;
  md ← deref (metadata m);
  ret (lines md).

(** [mesh.metadata = { type, lines: ls }] with the other fields kept. *)
Definition withLines (m : Mesh) (type : string) (ls : list Name) : Mesh :=
  mkMesh (position m) (parent m) (Some (mkMetadata type ls)).

(** A write to the shared array [mesh.metadata.lines] (push, splice). *)
Definition setLines (mesh : Name) (ls : list Name) : M unit :=
  m ← getMesh mesh;
  md ← deref (metadata m);
  setMesh mesh (withLines m (type md) ls).

(** ** The collaborator: [MeshBuilder] *)

(** The shape options handed to the builder ([Tools.DeepCopy(opt, option)]);
    they shape the drawable only. *)
Definition Options := list (string * float).

(** [MeshBuilder.CreateBox(name, opt, scene)] and [CreateSphere]: a mesh at
    the origin, in the scene, without parent or metadata. *)
Definition CreateMesh (name : Name) (opt : Options) : M Name :=
  p ← newVector Vector3.Zero;
  setMesh name (mkMesh p None None);;
  sceneAdd name;;
  ret name.

Definition CreateBox := CreateMesh.
Definition CreateSphere := CreateMesh.

(** [MeshBuilder.CreateLines(name, { points, updatable: true }, scene)]
    followed by [line.metadata = { option, from, to }]. *)
Definition CreateLines (name : Name) (pts : list Addr)
    (f t : option Name) : M Name :=
  setLine name (mkLinesMesh pts f t);;
  sceneAdd name;;
  ret name.

(** [MeshBuilder.CreateLines(name, option, scene)] with [option.instance]
    set, as [updateLine] calls it: the drawable of the instance is
    recommitted from [option.points], which changes nothing of the heap.
    On an instance that was disposed the builder reads vertex data that
    are gone and raises a [TypeError]; a disposed line is one that is out
    of the scene. *)
Definition UpdateLines (name : Name) : M unit :=
  λ s, if bool_decide (name ∈ scene s) then (s, Ok tt)
       else (s, Throw TypeError).

(** ** Arrays *)

(** [lines.find(l => l.name === line.name)], as a truth value. *)
Definition find (line : Name) (ls : list Name) : bool :=
  existsb (Nat.eqb line) ls.

(** [index = lines.findIndex(...); if (index > -1) lines.splice(index, 1)]:
    the first occurrence goes, later ones stay. *)
Fixpoint splice1 (line : Name) (ls : list Name) : list Name :=
  match ls with
  | [] => []
  | l :: ls' => if Nat.eqb l line then ls' else l :: splice1 line ls'
  end.

(** [points[0] = a]: an empty array grows by one. *)
Definition assignFirst (a : Addr) (pts : list Addr) : list Addr :=
  match pts with
  | [] => [a]
  | _ :: tl => a :: tl
  end.

(** [points[points.length - 1] = a]: on an empty array this writes the
    property [-1] and no element. *)
Definition assignLast (a : Addr) (pts : list Addr) : list Addr :=
  match pts with
  | [] => []
  | _ :: _ => <[length pts - 1 := a]> pts
  end.

(** ** Methods of [Viewer3d] *)

(** [updateLine(line)]: reads [line.name] and [line.metadata.option] and
    hands them to [MeshBuilder.CreateLines]. *)
Definition updateLine (line : Name) : M unit :=
  _ ← getLine line;
  UpdateLines line.

Definition updateLinesOnMesh (mesh : Name) : M unit :=
  ls ← getLines mesh;
  forEach updateLine ls.

Definition move (mesh : Name) (diff : Point.t) : M unit :=
  let x := default 0%float (Point.x diff) in
  let y := default 0%float (Point.y diff) in
  let z := default 0%float (Point.z diff) in
  let point := Vector3.mk x y z in
  m ← getMesh mesh;
  v ← getVector (position m);
  setVector (position m) (Vector3.add v point);;
  ls ← getLines mesh;
  if 0 <? length ls then updateLinesOnMesh mesh else ret tt.

Definition moveTo (mesh : Name) (point : Point.t) : M unit :=
  m ← getMesh mesh;
  v ← getVector (position m);
  let x := default (Vector3.x v) (Point.x point) in
  let y := default (Vector3.y v) (Point.y point) in
  let z := default (Vector3.z v) (Point.z point) in
  let diff := Point.mk (Some (x - Vector3.x v)%float)
                       (Some (y - Vector3.y v)%float)
                       (Some (z - Vector3.z v)%float) in
  move mesh diff.

(** [addMesh(type, option)]: [None] is the [null] the source returns for a
    type that matches no [case]. *)
Definition addMesh (type : string) (opt : Options) : M (option Name) :=
  mesh ← (if String.eqb type "box" then
            name ← RandomId;
            n ← CreateBox name opt;
            ret (Some n)
          else if String.eqb type "sphere" then
            name ← RandomId;
            n ← CreateSphere name opt;
            ret (Some n)
          else ret None);
  match mesh with
  | Some n =>
      m ← getMesh n;
      setMesh n (withLines m type []);;
      ret (Some n)
  | None => ret None
  end.

(** [mesh.metadata.lines.push(line)] *)
Definition push (mesh line : Name) : M unit :=
  ls ← getLines mesh;
  setLines mesh (ls ++ [line]).

Definition addLine (mesh1 mesh2 : Name) : M Name :=
  m1 ← getMesh mesh1;
  m2 ← getMesh mesh2;
  let points := [position m1; position m2] in
  name ← RandomId;
  line ← CreateLines name points (Some mesh1) (Some mesh2);
  push mesh1 line;;
  push mesh2 line;;
  ret line.

Definition connectLine (mesh line : Name) (type : EndType) : M unit :=
  _ ← getLines mesh;
  m ← getMesh mesh;
  l ← getLine line;
  match type with
  | TFrom =>
      setLine line (mkLinesMesh (assignFirst (position m) (points l))
                                (Some mesh) (to l))
  | TTo =>
      setLine line (mkLinesMesh (assignLast (position m) (points l))
                                (from l) (Some mesh))
  end;;
  ls ← getLines mesh;
  (if find line ls then ret tt else push mesh line);;
  updateLine line.

(** [option.points[0] = option.points[0].clone()] together with
    [line.metadata.from = null]. *)
Definition freeFrom (line : Name) : M unit :=
  l ← getLine line;
  a ← deref (points l !! 0);
  v ← getVector a;
  a' ← newVector v;
  setLine line (mkLinesMesh (assignFirst a' (points l)) None (to l)).

(** The same for [to] and [option.points[option.points.length - 1]]. *)
Definition freeTo (line : Name) : M unit :=
  l ← getLine line;
  a ← deref (last (points l));
  v ← getVector a;
  a' ← newVector v;
  setLine line (mkLinesMesh (assignLast a' (points l)) (from l) None).

(** [disconnectLine(mesh, line)]; [mesh] is the value handed in, which
    [removeLine] lets be [null]. *)
Definition disconnectLine (mesh : option Name) (line : Name) : M unit :=
  mesh ← deref mesh;
  _ ← getLines mesh;
  l ← getLine line;
  (if bool_decide (from l = Some mesh) then freeFrom line else ret tt);;
  (if bool_decide (to l = Some mesh) then freeTo line else ret tt);;
  ls ← getLines mesh;
  (if find line ls then setLines mesh (splice1 line ls) else ret tt);;
  updateLine line.

Definition disconnectLinesOnMesh (mesh : Name) : M unit :=
  ls ← getLines mesh;
  forEach (disconnectLine (Some mesh)) ls.

Definition removeMesh (mesh : Name) : M unit :=
  disconnectLinesOnMesh mesh;;
  dispose mesh;;
  sceneRemoveMesh mesh.

Definition removeLine (line : Name) : M unit :=
  l ← getLine line;
  (if from l is Some _ then disconnectLine (from l) line else ret tt);;
  (if to l is Some _ then disconnectLine (from l) line else ret tt);;
  dispose line;;
  sceneRemoveMesh line.

Definition removeLinesOnMesh (mesh : Name) : M unit :=
  ls ← getLines mesh;
  forEach removeLine ls.

(** [root(mesh)]: the recursion of the source, with [fuel] bounding its
    depth; [None] when the fuel runs out before a parentless node. *)
Definition parentOf (s : State) (mesh : Name) : option Name :=
  m ← meshes s !! mesh; parent m.

Fixpoint root (fuel : nat) (s : State) (mesh : Name) : option Name :=
  match fuel with
  | 0 => None
  | S fuel' =>
      match parentOf s mesh with
      | Some p => root fuel' s p
      | None => Some mesh
      end
  end.

(** ** The earlier [removeMesh] *)

(** The [removeMesh] of the earlier version of the class
    ([unnamed/part_001]), which takes a name or a mesh; the methods it
    calls are the same in both versions. *)
Module Part001.

(** [mesh: string | Mesh]: a name to look up in the scene, or the object
    itself, which may be [null]. *)
Inductive MeshArg := ByName (name : Name) | ByRef (mesh : option Name).

(** [this.scene.getMeshByName(name)]: the object of the scene with that
    name, [null] when the scene has none. *)
Definition getMeshByName (name : Name) : M (option Name) :=
  gets (λ s, if bool_decide (name ∈ scene s) then Some name else None).

Definition removeMesh (mesh : MeshArg) : M unit :=
  mesh ← match mesh with
         | ByName name => getMeshByName name
         | ByRef mesh => ret mesh
         end;
  if mesh is Some mesh then
    disconnectLinesOnMesh mesh;;
    dispose mesh;;
    sceneRemoveMesh mesh
  else ret tt.

End Part001.

(** ** Import *)

(** What [SceneLoader.ImportMeshAsync] resolves to: [result.meshes] and
    [result.transformNodes] in load order, each node with its parent (a
    member of either array), its position and the metadata the asset
    leaves on it, and the number of [result.geometries].  The metadata is
    kept as the viewer reads it, by its [type] and its [lines]; it is
    [None] where [metadata.lines] cannot be read: no metadata, or an
    object without [lines]. *)
Inductive NodeRef := InMeshes (i : nat) | InTransformNodes (j : nat).

Record ImportedNode := mkImportedNode {
  node_parent : option NodeRef;
  node_position : Vector3.t;
  node_metadata : option Metadata
}.

Record ImportResult := mkImportResult {
  r_meshes : list ImportedNode;
  r_transformNodes : list ImportedNode;
  r_geometries : nat
}.

(** The names the three renaming loops give: the [i]-th mesh takes the
    [i]-th fresh id, the transform nodes the ids after the meshes, the
    geometries the ids after those. *)
Definition renamed (base nm : nat) (r : NodeRef) : Name :=
  match r with
  | InMeshes i => base + i
  | InTransformNodes j => base + nm + j
  end.

Fixpoint loadNodes (rn : NodeRef → Name) (name : Name) (p : Addr)
    (nodes : list ImportedNode) (ms : gmap nat Mesh) : gmap nat Mesh :=
  match nodes with
  | [] => ms
  | n :: rest =>
      <[name := mkMesh p (rn <$> node_parent n) (node_metadata n)]>
        (loadNodes rn (S name) (S p) rest ms)
  end.

Fixpoint loadVectors (p : Addr) (nodes : list ImportedNode)
    (vs : gmap nat Vector3.t) : gmap nat Vector3.t :=
  match nodes with
  | [] => vs
  | n :: rest => <[p := node_position n]> (loadVectors (S p) rest vs)
  end.

(** The load together with
    [meshes.forEach(mesh => mesh.name = Tools.RandomId())] and the two
    loops after it: the objects enter the heap under their new names, and
    the meshes enter the scene.  The result is [result.meshes]. *)
Definition ImportMeshAsync (loaded : option ImportResult) : M (list Name) :=
  match loaded with
  | None => throw LoadError
  | Some r =>
      λ s,
        let nm := length (r_meshes r) in
        let nt := length (r_transformNodes r) in
        let rn := renamed (nextId s) nm in
        (mkState
           (loadNodes rn (nextId s + nm) (nextVec s + nm) (r_transformNodes r)
              (loadNodes rn (nextId s) (nextVec s) (r_meshes r) (meshes s)))
           (lineMeshes s)
           (loadVectors (nextVec s + nm) (r_transformNodes r)
              (loadVectors (nextVec s) (r_meshes r) (vectors s)))
           (list_to_set (seq (nextId s) nm) ∪ scene s)
           (nextId s + nm + nt + r_geometries r)
           (nextVec s + nm + nt),
         Ok (seq (nextId s) nm))
  end.

(** [meshes.find(mesh => !mesh.parent)] *)
Definition findParentless (names : list Name) : M (option Name) :=
  gets (λ s, List.find (λ n, if parentOf s n is Some _ then false else true)
                       names).

(** [importMesh(rootPath, name)]; [loaded] is what the loader answers for
    that file. *)
Definition importMesh (rootPath name : string)
    (loaded : option ImportResult) : M Name :=
  result ← ImportMeshAsync loaded;
  found ← findParentless result;
  rootMesh ← deref found;
  m ← getMesh rootMesh;
  setMesh rootMesh (withLines m "import" []);;
  ret rootMesh.

(** ** Sequences of calls *)

Inductive Op :=
| OpAddMesh (type : string) (opt : Options)
| OpAddLine (mesh1 mesh2 : Name)
| OpConnectLine (mesh line : Name) (type : EndType)
| OpDisconnectLine (mesh line : Name)
| OpDisconnectLinesOnMesh (mesh : Name)
| OpRemoveLine (line : Name)
| OpRemoveLinesOnMesh (mesh : Name)
| OpRemoveMesh (mesh : Name)
| OpMove (mesh : Name) (diff : Point.t)
| OpMoveTo (mesh : Name) (point : Point.t).

Definition run (op : Op) : State → State :=
  match op with
  | OpAddMesh type opt => exec (addMesh type opt)
  | OpAddLine mesh1 mesh2 => exec (addLine mesh1 mesh2)
  | OpConnectLine mesh line type => exec (connectLine mesh line type)
  | OpDisconnectLine mesh line => exec (disconnectLine (Some mesh) line)
  | OpDisconnectLinesOnMesh mesh => exec (disconnectLinesOnMesh mesh)
  | OpRemoveLine line => exec (removeLine line)
  | OpRemoveLinesOnMesh mesh => exec (removeLinesOnMesh mesh)
  | OpRemoveMesh mesh => exec (removeMesh mesh)
  | OpMove mesh diff => exec (move mesh diff)
  | OpMoveTo mesh point => exec (moveTo mesh point)
  end.

Definition isMesh (s : State) (mesh : Name) : Prop :=
  is_Some (meshes s !! mesh).

Definition isLine (s : State) (line : Name) : Prop :=
  is_Some (lineMeshes s !! line).

(** A caller can only hand in objects it got from an earlier call. *)
Definition callable (s : State) (op : Op) : Prop :=
  match op with
  | OpAddMesh _ _ => True
  | OpAddLine mesh1 mesh2 => isMesh s mesh1 ∧ isMesh s mesh2
  | OpConnectLine mesh line _ | OpDisconnectLine mesh line =>
      isMesh s mesh ∧ isLine s line
  | OpRemoveLine line => isLine s line
  | OpDisconnectLinesOnMesh mesh | OpRemoveLinesOnMesh mesh
  | OpRemoveMesh mesh | OpMove mesh _ | OpMoveTo mesh _ => isMesh s mesh
  end.

Definition runAll (ops : list Op) (s : State) : State :=
  foldl (λ s op, run op s) s ops.

Inductive reach : State → Prop :=
| reach_init : reach init
| reach_step s op : reach s → callable s op → reach (run op s).

(** * Predicates, results and states of the statements *)

(** ** Weakest preconditions *)

(** [wp c Q E s]: run from [s], the call [c] either returns [a] in a state
    with [Q a], or throws [e] in a state with [E e]. *)
Definition wp {A} (c : M A) (Q : A → State → Prop) (E : exn → State → Prop)
    (s : State) : Prop :=
  match c s with
  | (s', Ok a) => Q a s'
  | (s', Throw e) => E e s'
  end.

(** ** Well-formed states *)

Definition attachedTo (s : State) (mesh line : Name) : Prop :=
  ∃ m md, meshes s !! mesh = Some m ∧ metadata m = Some md ∧ line ∈ lines md.

Definition boundTo (l : LinesMesh) (mesh : Name) : Prop :=
  from l = Some mesh ∨ to l = Some mesh.

(** An end of a line and its point: a bound end shares the vector of its
    mesh, a free end has a vector no mesh stands on. *)
Definition endpoint (s : State) (e : option Name) (a : Addr) : Prop :=
  match e with
  | Some mesh => ∃ m, meshes s !! mesh = Some m ∧ position m = a
  | None => ∀ mesh m, meshes s !! mesh = Some m → position m ≠ a
  end.

Record wf_core (s : State) : Prop := {
  core_mesh : ∀ mesh m, meshes s !! mesh = Some m →
    mesh < nextId s ∧ is_Some (vectors s !! position m) ∧
    is_Some (metadata m);
  core_vec : ∀ a v, vectors s !! a = Some v → a < nextVec s;
  core_pos : ∀ mesh1 mesh2 m1 m2,
    meshes s !! mesh1 = Some m1 → meshes s !! mesh2 = Some m2 →
    position m1 = position m2 → mesh1 = mesh2;
  core_lines : ∀ mesh m md line,
    meshes s !! mesh = Some m → metadata m = Some md → line ∈ lines md →
    isLine s line;
  core_line : ∀ line l, lineMeshes s !! line = Some l →
    line < nextId s ∧
    ∃ a b, points l = [a; b] ∧
           is_Some (vectors s !! a) ∧ is_Some (vectors s !! b) ∧
           endpoint s (from l) a ∧ endpoint s (to l) b
}.

(** Whatever a line is bound to lists the line. *)
Definition attached (s : State) : Prop :=
  ∀ line l mesh, lineMeshes s !! line = Some l → boundTo l mesh →
                 attachedTo s mesh line.

Definition wf (s : State) : Prop := wf_core s ∧ attached s.

Definition keeps {A} (c : M A) : Prop :=
  ∀ s, wf s → wp c (λ _, wf) (λ _, wf) s.

(** What a call on [line] leaves alone: the meshes, the scene and the
    other lines. *)
Definition lineFrame (line : Name) (s s' : State) : Prop :=
  meshes s' = meshes s ∧ scene s' = scene s ∧
  ∀ k, k ≠ line → lineMeshes s' !! k = lineMeshes s !! k.

(** ** Calls that never meet a name without object *)

(** Objects stay: every mesh and every line of [s] is one of [s']. *)
Definition grows (s s' : State) : Prop :=
  (∀ k, isMesh s k → isMesh s' k) ∧ (∀ k, isLine s k → isLine s' k).

(** From [s] the call [c] returns or raises a [TypeError], never
    [Dangling]; the heap stays well-formed and keeps its objects. *)
Definition sound {A} (c : M A) (s : State) : Prop :=
  wp c (λ _ s', wf s' ∧ grows s s')
       (λ e s', e = TypeError ∧ wf s' ∧ grows s s') s.

(** A public call as a computation, its result dropped. *)
Definition call (op : Op) : M unit :=
  match op with
  | OpAddMesh type opt => _ ← addMesh type opt; mret tt
  | OpAddLine mesh1 mesh2 => _ ← addLine mesh1 mesh2; mret tt
  | OpConnectLine mesh line type => connectLine mesh line type
  | OpDisconnectLine mesh line => disconnectLine (Some mesh) line
  | OpDisconnectLinesOnMesh mesh => disconnectLinesOnMesh mesh
  | OpRemoveLine line => removeLine line
  | OpRemoveLinesOnMesh mesh => removeLinesOnMesh mesh
  | OpRemoveMesh mesh => removeMesh mesh
  | OpMove mesh diff => move mesh diff
  | OpMoveTo mesh point => moveTo mesh point
  end.

(** ** Heaps and lines after a call *)

(** The heap after [addMesh] has built a box or a sphere. *)
Definition added (type : string) (s : State) : State :=
  let name := nextId s in
  let p := nextVec s in
  putMesh name (withLines (mkMesh p None None) type [])
    (putScene ({[name]} ∪ scene s)
       (putMesh name (mkMesh p None None)
          (allocVector Vector3.Zero (allocId s)))).

Definition supported (type : string) : bool :=
  String.eqb type "box" || String.eqb type "sphere".

(** The line after [connectLine(mesh, line, type)], [p] being
    [mesh.position]. *)
Definition connected (mesh : Name) (p : Addr) (type : EndType)
    (l : LinesMesh) : LinesMesh :=
  match type with
  | TFrom => mkLinesMesh (assignFirst p (points l)) (Some mesh) (to l)
  | TTo => mkLinesMesh (assignLast p (points l)) (from l) (Some mesh)
  end.

(** The ends of [l] once those bound to [mesh] are freed. *)
Definition fromAfter (mesh : Name) (l : LinesMesh) : option Name :=
  if bool_decide (from l = Some mesh) then None else from l.

Definition toAfter (mesh : Name) (l : LinesMesh) : option Name :=
  if bool_decide (to l = Some mesh) then None else to l.

(** Whether every line of [ls] is in the scene, and the outcome of
    [updateLine] over the lines of [ls] one after the other: the loop
    returns when all of them are, and stops with the [TypeError] of the
    first that is not. *)
Definition allLive (s : State) (ls : list Name) : bool :=
  forallb (λ line, bool_decide (line ∈ scene s)) ls.

Definition updated (s : State) (ls : list Name) : res unit :=
  if allLive s ls then Ok tt else Throw TypeError.

(** The position [moveTo(mesh, point)] ends at, from the position [v]:
    [v + (target - v)], the absent components of the target being those of
    [v]. *)
Definition movedTo (v : Vector3.t) (point : Point.t) : Vector3.t :=
  Vector3.add v
    (Vector3.mk
       (default (Vector3.x v) (Point.x point) - Vector3.x v)%float
       (default (Vector3.y v) (Point.y point) - Vector3.y v)%float
       (default (Vector3.z v) (Point.z point) - Vector3.z v)%float).

(** ** What the claims speak of *)


(** [mesh.position] and [line.metadata.option.points[i]], read through the
    vector store. *)
Definition positionOf (s : State) (mesh : Name) : option Vector3.t :=
  m ← meshes s !! mesh; vectors s !! position m.

Definition pointAt (s : State) (line : Name) (i : nat) : option Vector3.t :=
  l ← lineMeshes s !! line; a ← points l !! i; vectors s !! a.

(** The target [{ x: 5 }]. *)
Definition x5 : Point.t := Point.mk (Some 5%float) None None.

(** C5 as the claim states it, for a mesh [P] and a line [C]. *)
Definition move_propagation (s : State) (P C : Name) : Prop :=
  ∀ l, lineMeshes s !! C = Some l → from l = Some P →
       positionOf s P = Some Vector3.Zero →
       let s' := exec (moveTo P x5) s in
       positionOf s' P = Some (Vector3.mk 5 0 0) ∧
       pointAt s' C 0 = Some (Vector3.mk 5 0 0) ∧
       pointAt s' C 1 = pointAt s C 1.

(** The index of the first mesh without parent, in load order. *)
Fixpoint firstParentless (nodes : list ImportedNode) : option nat :=
  match nodes with
  | [] => None
  | n :: rest =>
      if node_parent n is Some _ then S <$> firstParentless rest else Some 0
  end.

(** The [n]-th ancestor: [mesh.parent.parent...], [n] times. *)
Fixpoint ancestor (s : State) (n : nat) (mesh : Name) : option Name :=
  match n with
  | 0 => Some mesh
  | S n' => p ← parentOf s mesh; ancestor s n' p
  end.

(** No node comes twice on the chain, or one does. *)
Definition acyclic (s : State) (mesh : Name) : Prop :=
  ∀ i j a, ancestor s i mesh = Some a → ancestor s j mesh = Some a → i = j.

Definition cyclic (s : State) (mesh : Name) : Prop :=
  ∃ i j a, i < j ∧ ancestor s i mesh = Some a ∧ ancestor s j mesh = Some a.

(** [r] is the furthest ancestor: on the chain, and without parent. *)
Definition furthest (s : State) (mesh r : Name) : Prop :=
  ∃ n, ancestor s n mesh = Some r ∧ parentOf s r = None.

(** ** Call sequences and the states they reach *)

Definition isMeshb (s : State) (mesh : Name) : bool :=
  if meshes s !! mesh is Some _ then true else false.

Definition isLineb (s : State) (line : Name) : bool :=
  if lineMeshes s !! line is Some _ then true else false.

Definition callableb (s : State) (op : Op) : bool :=
  match op with
  | OpAddMesh _ _ => true
  | OpAddLine mesh1 mesh2 => isMeshb s mesh1 && isMeshb s mesh2
  | OpConnectLine mesh line _ | OpDisconnectLine mesh line =>
      isMeshb s mesh && isLineb s line
  | OpRemoveLine line => isLineb s line
  | OpDisconnectLinesOnMesh mesh | OpRemoveLinesOnMesh mesh
  | OpRemoveMesh mesh | OpMove mesh _ | OpMoveTo mesh _ => isMeshb s mesh
  end.

Fixpoint callableAll (ops : list Op) (s : State) : bool :=
  match ops with
  | [] => true
  | op :: ops' => callableb s op && callableAll ops' (run op s)
  end.

Definition box : Op := OpAddMesh "box" [].

(** One box, named 0. *)
Definition oneBox : State := runAll [box] init.

(** Three boxes 0, 1, 2 and the line 3 from box 0 to box 2. *)
Definition threeBoxes : State := runAll [box; box; box; OpAddLine 0 2] init.

(** Two boxes 0 and 1, the line 2 between them, and box 0 disconnected
    from the line: [from] is free, [to] is box 1. *)
Definition halfBound : State :=
  runAll [box; box; OpAddLine 0 1; OpDisconnectLine 0 2] init.


(** Two boxes 0 and 1 and the line 2 from box 0 to box 1. *)
Definition twoBoxes : State := runAll [box; box; OpAddLine 0 1] init.

(** One box 0 and the line 1 from it to itself. *)
Definition selfLoop : State := runAll [box; OpAddLine 0 0] init.

(** Two boxes 0 and 1 and the line 2 from box 0 to box 1, box 0 moved by
    (0, 2, 0). *)
Definition raised : State :=
  runAll [box; box; OpAddLine 0 1; OpMove 0 (Point.mk None (Some 2%float) None)]
         init.

(** Two meshes, both without parent. *)
Definition twoRoots : ImportResult :=
  mkImportResult [mkImportedNode None Vector3.Zero None;
                  mkImportedNode None (Vector3.mk 1 0 0) None] [] 0.

(** An asset of three meshes: the first without parent, the second and the
    third each the parent of the other. *)
Definition loop : ImportResult :=
  mkImportResult [mkImportedNode None Vector3.Zero None;
                  mkImportedNode (Some (InMeshes 2)) Vector3.Zero None;
                  mkImportedNode (Some (InMeshes 1)) Vector3.Zero None] [] 0.

(** The box 0 and that asset imported after it: mesh 1 without parent,
    meshes 2 and 3 each the parent of the other. *)
Definition withLoop : State :=
  exec (importMesh "assets/" "loop.glb" (Some loop)) oneBox.

(** An imported chain: mesh 0 without parent, mesh 1 its child, mesh 2 the
    child of mesh 1. *)
Definition chain : ImportResult :=
  mkImportResult [mkImportedNode None Vector3.Zero None;
                  mkImportedNode (Some (InMeshes 0)) Vector3.Zero None;
                  mkImportedNode (Some (InMeshes 1)) Vector3.Zero None] [] 0.

Definition withChain : State :=
  exec (importMesh "assets/" "chain.glb" (Some chain)) init.

(** ** Further predicates and states *)

(** The [point] of [move(mesh, diff)]: the absent components of [diff]
    are 0. *)
Definition moveVector (diff : Point.t) : Vector3.t :=
  Vector3.mk (default 0%float (Point.x diff))
             (default 0%float (Point.y diff))
             (default 0%float (Point.z diff)).

(** [mesh.metadata.lines], for a name that may denote no mesh with a
    list. *)
Definition listOf (s : State) (mesh : Name) : list Name :=
  default [] (m ← meshes s !! mesh; md ← metadata m; Some (lines md)).

(** Two boxes 0 and 1 and the line 2 between them, removed again: box 1
    still lists the line, which is out of the scene. *)
Definition stale : State :=
  runAll [box; box; OpAddLine 0 1; OpRemoveLine 2] init.

(** Every position and every point of every line reads the same in [s']
    as in [s]. *)
Definition sameValues (s s' : State) : Prop :=
  (∀ mesh, positionOf s' mesh = positionOf s mesh) ∧
  (∀ line i, pointAt s' line i = pointAt s line i).

(** Two boxes and the line 2 between them; box 0 moved to x = 5, box 1
    moved by (0, 2, 0). *)
Definition movedBoxes : State :=
  runAll [box; box; OpAddLine 0 1; OpMoveTo 0 x5;
          OpMove 1 (Point.mk None (Some 2%float) None)] init.

(** Three boxes; the line 3 from box 0 to box 1, the line 4 from box 1 to
    box 2 and the line 5 from box 1 to itself. *)
Definition hub : State :=
  runAll [box; box; box; OpAddLine 0 1; OpAddLine 1 2; OpAddLine 1 1] init.

(** The calls other than [removeLine] and [removeLinesOnMesh]. *)
Definition neverThrows (op : Op) : bool :=
  match op with
  | OpRemoveLine _ | OpRemoveLinesOnMesh _ => false
  | _ => true
  end.

(** The lines a call hands to [updateLine] are in the scene: the line
    given to [connectLine] and [disconnectLine], the lines listed on the
    mesh given to the other calls that update lines. *)
Definition liveArgs (s : State) (op : Op) : Prop :=
  match op with
  | OpConnectLine _ line _ | OpDisconnectLine _ line => line ∈ scene s
  | OpDisconnectLinesOnMesh mesh | OpRemoveMesh mesh
  | OpMove mesh _ | OpMoveTo mesh _ =>
      ∀ line, line ∈ listOf s mesh → line ∈ scene s
  | _ => True
  end.

(** The [diff] that [moveTo(mesh, point)] hands to [move], [v] being the
    position of the mesh. *)
Definition diffTo (v : Vector3.t) (point : Point.t) : Point.t :=
  Point.mk (Some (default (Vector3.x v) (Point.x point) - Vector3.x v)%float)
           (Some (default (Vector3.y v) (Point.y point) - Vector3.y v)%float)
           (Some (default (Vector3.z v) (Point.z point) - Vector3.z v)%float).

(** One box, moved to x = 1e16. *)
Definition farBox : State :=
  runAll [box; OpMoveTo 0 (Point.mk (Some 1e16%float) None None)] init.

(** What [addLine(mesh1, mesh2)] pushes onto the list of the mesh [k]:
    the new line once for each of the two arguments that is [k]. *)
Definition pushed (mesh1 mesh2 line k : Name) : list Name :=
  (if bool_decide (k = mesh1) then [line] else []) ++
  (if bool_decide (k = mesh2) then [line] else []).

(** [line.metadata.from], for a name that may denote no line. *)
Definition fromOf (s : State) (line : Name) : option Name :=
  l ← lineMeshes s !! line; from l.

(** Three boxes, the line 3 from box 0 to box 1 and the line 4 from box 1
    to box 2. *)
Definition relay : State :=
  runAll [box; box; box; OpAddLine 0 1; OpAddLine 1 2] init.

(** An asset of one transform node and two meshes under it. *)
Definition grouped : ImportResult :=
  mkImportResult
    [mkImportedNode (Some (InTransformNodes 0)) Vector3.Zero None;
     mkImportedNode (Some (InTransformNodes 0)) (Vector3.mk 1 0 0) None]
    [mkImportedNode None Vector3.Zero None] 0.

(** An asset whose meshes bring metadata: a parentless mesh with
    metadata the viewer cannot read lines from, and a child whose
    metadata holds a type and an empty list of lines. *)
Definition tagged : ImportResult :=
  mkImportResult
    [mkImportedNode None Vector3.Zero None;
     mkImportedNode (Some (InMeshes 0)) (Vector3.mk 1 0 0)
       (Some (mkMetadata "asset" []))] [] 0.

(** * Proofs *)

(** ** Reasoning about calls *)

Section wp_rules.

Context {A B : Type}.
Implicit Types (Q : A → State → Prop) (E : exn → State → Prop).

Lemma wp_ret (a : A) Q E s : Q a s → wp (mret a) Q E s.
Proof. done. Qed.

Lemma wp_throw e Q E s : E e s → wp (throw e) Q E s.
Proof. done. Qed.

Lemma wp_bind (c : M A) (k : A → M B) (R : B → State → Prop) E s :
  wp c (λ a, wp (k a) R E) E s → wp (c ≫= k) R E s.
Proof.
  unfold wp, mbind, M_bind, bind. by destruct (c s) as [s' [a|e]].
Qed.

Lemma wp_mono (c : M A) Q Q' E E' s :
  wp c Q E s → (∀ a s', Q a s' → Q' a s') → (∀ e s', E e s' → E' e s') →
  wp c Q' E' s.
Proof. unfold wp. destruct (c s) as [s' [a|e]]; eauto. Qed.

Lemma wp_gets (f : State → A) Q E s : Q (f s) s → wp (gets f) Q E s.
Proof. done. Qed.

Lemma wp_deref (r : option A) Q E s :
  (∀ a, r = Some a → Q a s) → (r = None → E TypeError s) →
  wp (deref r) Q E s.
Proof. destruct r; unfold wp; simpl; eauto. Qed.

Lemma wp_ok (c : M A) Q s :
  wp c Q (λ _ _, False) s → ∃ s' a, c s = (s', Ok a) ∧ Q a s'.
Proof. unfold wp. destruct (c s) as [s' [a|e]]; [eauto | done]. Qed.

End wp_rules.

Lemma bind_Ok {A B} (c : M A) (k : A → M B) s s' a :
  c s = (s', Ok a) → (c ≫= k) s = k a s'.
Proof. unfold mbind, M_bind, bind. by intros ->. Qed.

Lemma bind_Throw {A B} (c : M A) (k : A → M B) s s' e :
  c s = (s', Throw e) → (c ≫= k) s = (s', Throw e).
Proof. unfold mbind, M_bind, bind. by intros ->. Qed.

Lemma wp_throws {A} (c : M A) E s :
  wp c (λ _ _, False) E s → ∃ s' e, c s = (s', Throw e) ∧ E e s'.
Proof. unfold wp. destruct (c s) as [s' [a|e]]; [done | eauto]. Qed.

Lemma wp_modify f (Q : unit → State → Prop) E s :
  Q tt (f s) → wp (modify f) Q E s.
Proof. done. Qed.

Lemma wp_getMesh mesh (Q : Mesh → State → Prop) E s :
  (∀ m, meshes s !! mesh = Some m → Q m s) →
  (meshes s !! mesh = None → E Dangling s) →
  wp (getMesh mesh) Q E s.
Proof. unfold wp, getMesh. destruct (meshes s !! mesh); eauto. Qed.

Lemma wp_getLine line (Q : LinesMesh → State → Prop) E s :
  (∀ l, lineMeshes s !! line = Some l → Q l s) →
  (lineMeshes s !! line = None → E Dangling s) →
  wp (getLine line) Q E s.
Proof. unfold wp, getLine. destruct (lineMeshes s !! line); eauto. Qed.

Lemma wp_getVector a (Q : Vector3.t → State → Prop) E s :
  (∀ v, vectors s !! a = Some v → Q v s) →
  (vectors s !! a = None → E Dangling s) →
  wp (getVector a) Q E s.
Proof. unfold wp, getVector. destruct (vectors s !! a); eauto. Qed.

Lemma wp_getLines mesh (Q : list Name → State → Prop) E s :
  (∀ m md, meshes s !! mesh = Some m → metadata m = Some md →
           Q (lines md) s) →
  (meshes s !! mesh = None → E Dangling s) →
  (∀ m, meshes s !! mesh = Some m → metadata m = None → E TypeError s) →
  wp (getLines mesh) Q E s.
Proof.
  intros HQ HD HT. unfold getLines.
  apply wp_bind, wp_getMesh; [|done]. intros m Hm.
  apply wp_bind, wp_deref; [|by eauto]. intros md Hmd.
  apply wp_ret; eauto.
Qed.

(** A loop keeps what each of its rounds keeps. *)
Lemma wp_forEach {A} (f : A → M unit) (I : State → Prop) l s :
  (∀ a s', I s' → wp (f a) (λ _, I) (λ _, I) s') → I s →
  wp (forEach f l) (λ _, I) (λ _, I) s.
Proof.
  intros Hf. revert s. induction l as [|a l IH]; intros s Hs; simpl.
  - by apply wp_ret.
  - apply wp_bind. eapply wp_mono; [by apply Hf | | done].
    intros ? s' Hs'. by apply IH.
Qed.

Lemma wp_exec {A} (c : M A) (I : State → Prop) s :
  wp c (λ _, I) (λ _, I) s → I (exec c s).
Proof. unfold wp, exec. by destruct (c s) as [s' [a|e]]. Qed.

Lemma wp_newVector v (Q : Addr → State → Prop) E s :
  Q (nextVec s) (allocVector v s) → wp (newVector v) Q E s.
Proof. done. Qed.

Lemma wp_RandomId (Q : Name → State → Prop) E s :
  Q (nextId s) (allocId s) → wp RandomId Q E s.
Proof. done. Qed.

(** ** Well-formed states *)

Lemma endpoint_ext s s' e a :
  meshes s' = meshes s → endpoint s e a → endpoint s' e a.
Proof. unfold endpoint. by intros ->. Qed.

Lemma attachedTo_ext s s' mesh line :
  meshes s' = meshes s → attachedTo s mesh line → attachedTo s' mesh line.
Proof. unfold attachedTo. by intros ->. Qed.

Lemma attached_ext s s' :
  meshes s' = meshes s → lineMeshes s' = lineMeshes s →
  attached s → attached s'.
Proof.
  unfold attached. intros Hm Hl H line l mesh. rewrite Hl. intros.
  eapply attachedTo_ext; eauto.
Qed.

Lemma core_init : wf_core init.
Proof. split; simpl; intros; by simplify_map_eq. Qed.

Lemma wf_init : wf init.
Proof. split; [apply core_init|]. intros ???; simpl. by simplify_map_eq. Qed.

Lemma core_putScene sc s : wf_core s → wf_core (putScene sc s).
Proof. by intros []. Qed.

Lemma core_allocId s : wf_core s → wf_core (allocId s).
Proof.
  intros [Hm Hv Hp Hls Hl]. split; simpl; try done.
  - intros mesh m H. destruct (Hm _ _ H) as (?&?&?). auto with lia.
  - intros line l H. destruct (Hl _ _ H) as (?&?). auto with lia.
Qed.

Lemma core_putVector a v s :
  wf_core s → is_Some (vectors s !! a) → wf_core (putVector a v s).
Proof.
  intros [Hm Hv Hp Hls Hl] [v0 Ha].
  assert (Hin : ∀ b, is_Some (vectors s !! b) →
                     is_Some (<[a := v]> (vectors s) !! b)).
  { intros b Hb. rewrite lookup_insert. by case_decide. }
  split; simpl; try done.
  - intros mesh m H. destruct (Hm _ _ H) as (?&?&?). auto.
  - intros b w [[-> _]|[_ H]]%lookup_insert_Some; eauto.
  - intros line l H. destruct (Hl _ _ H) as (?&p&q&?&?&?&?&?).
    split; [done|]. exists p, q. auto 10.
Qed.

Lemma core_allocVector v s : wf_core s → wf_core (allocVector v s).
Proof.
  intros [Hm Hv Hp Hls Hl].
  assert (Hin : ∀ b, is_Some (vectors s !! b) →
                     is_Some (<[nextVec s := v]> (vectors s) !! b)).
  { intros b Hb. rewrite lookup_insert. by case_decide. }
  split; simpl; try done.
  - intros mesh m H. destruct (Hm _ _ H) as (?&?&?). auto.
  - intros b w [[<- _]|[_ H]]%lookup_insert_Some; [lia|].
    apply Hv in H. lia.
  - intros line l H. destruct (Hl _ _ H) as (?&p&q&?&?&?&?&?).
    split; [done|]. exists p, q. auto 10.
Qed.

Lemma core_putLine line l a b s :
  wf_core s → line < nextId s → points l = [a; b] →
  is_Some (vectors s !! a) → is_Some (vectors s !! b) →
  endpoint s (from l) a → endpoint s (to l) b →
  wf_core (putLine line l s).
Proof.
  intros [Hm Hv Hp Hls Hl] Hlt Hpts Ha Hb Hf Ht. split; simpl; try done.
  - intros mesh m md k H1 H2 H3. unfold isLine. simpl.
    rewrite lookup_insert. case_decide; [done|]. by eapply Hls.
  - intros k l' [[<- <-]|[_ H]]%lookup_insert_Some; [|by apply Hl].
    split; [done|]. by exists a, b.
Qed.

Lemma core_putLines mesh m ty ls s :
  wf_core s → meshes s !! mesh = Some m →
  (∀ line, line ∈ ls → isLine s line) →
  wf_core (putMesh mesh (withLines m ty ls) s).
Proof.
  intros [Hm Hv Hp Hls Hl] Hmesh Hin.
  assert (Hpos : ∀ k x, <[mesh := withLines m ty ls]> (meshes s) !! k = Some x →
                        ∃ x0, meshes s !! k = Some x0 ∧ position x0 = position x).
  { intros k x [[<- <-]|[_ H]]%lookup_insert_Some; eauto. }
  assert (Hend : ∀ e a, endpoint s e a →
                        endpoint (putMesh mesh (withLines m ty ls) s) e a).
  { intros [k|] a; simpl.
    - intros (x&Hk&<-). rewrite lookup_insert. case_decide; simplify_eq; eauto.
    - intros H k x (x0&Hk&<-)%Hpos. by eapply H. }
  split; simpl; try done.
  - intros k x H. destruct (Hpos _ _ H) as (x0&Hk&Hx).
    destruct (Hm _ _ Hk) as (?&?&?). rewrite <-Hx. split_and!; [done..|].
    apply lookup_insert_Some in H as [[_ <-]|[_ H]]; [by eexists|].
    by destruct (Hm _ _ H) as (?&?&?).
  - intros k1 k2 x1 x2 (y1&H1&<-)%Hpos (y2&H2&<-)%Hpos. by eapply Hp.
  - intros k x md line [[<- <-]|[_ H]]%lookup_insert_Some.
    + simpl. intros [= <-]. simpl. apply Hin.
    + by eapply Hls.
  - intros line l H. destruct (Hl _ _ H) as (?&p&q&?&?&?&?&?).
    split; [done|]. exists p, q. auto 10.
Qed.

Lemma added_meshes type s :
  meshes (added type s) =
  <[nextId s := mkMesh (nextVec s) None (Some (mkMetadata type []))]> (meshes s).
Proof. unfold added. simpl. by rewrite insert_insert_eq. Qed.

Lemma core_added type s : wf_core s → wf_core (added type s).
Proof.
  intros [Hm Hv Hp Hls Hl].
  assert (Hin : ∀ b, is_Some (vectors s !! b) →
            is_Some (<[nextVec s := Vector3.Zero]> (vectors s) !! b)).
  { intros b Hb. rewrite lookup_insert. by case_decide. }
  assert (Hfresh : ∀ k x, meshes s !! k = Some x → position x ≠ nextVec s).
  { intros k x H. destruct (Hm _ _ H) as (_&[v Hx]&_). apply Hv in Hx. lia. }
  split; rewrite ?added_meshes; simpl.
  - intros k x [[<- <-]|[_ H]]%lookup_insert_Some; simpl.
    + split_and!; [lia| |by eexists]. rewrite lookup_insert_eq. by eexists.
    + destruct (Hm _ _ H) as (?&?&?). split_and!; auto with lia.
  - intros b w [[<- _]|[_ H]]%lookup_insert_Some; [lia|].
    apply Hv in H. lia.
  - intros k1 k2 x1 x2 [[<- <-]|[_ H1]]%lookup_insert_Some
      [[<- <-]|[_ H2]]%lookup_insert_Some; simpl; intros Heq; try done.
    + by apply Hfresh in H2.
    + by apply Hfresh in H1.
    + by eapply Hp.
  - intros k x md line [[<- <-]|[_ H]]%lookup_insert_Some; simpl.
    + intros [= <-]. simpl. by intros ?%elem_of_nil.
    + by eapply Hls.
  - intros line l H. destruct (Hl _ _ H) as (?&p&q&?&Hp1&Hp2&Hf&Ht).
    assert (Hend : ∀ e a, is_Some (vectors s !! a) → endpoint s e a →
                          endpoint (added type s) e a).
    { intros [k|] a [w Ha]; unfold endpoint; rewrite added_meshes.
      - intros (x&Hk&?). exists x. split; [|done].
        rewrite lookup_insert_ne; [done|]. destruct (Hm _ _ Hk). lia.
      - intros Hno k x [[<- <-]|[_ Hk]]%lookup_insert_Some; simpl; [|by eauto].
        intros <-. apply Hv in Ha. lia. }
    split; [lia|]. exists p, q. split_and!; auto.
Qed.

Lemma attachedTo_putLines mesh m md ty ls k line s :
  meshes s !! mesh = Some m → metadata m = Some md →
  (k = mesh → line ∈ lines md → line ∈ ls) →
  attachedTo s k line →
  attachedTo (putMesh mesh (withLines m ty ls) s) k line.
Proof.
  intros Hm Hmd Hsub (x&xd&Hk&Hxd&Hin). unfold attachedTo. simpl.
  destruct (decide (k = mesh)) as [->|Hne].
  - rewrite lookup_insert_eq. do 2 eexists. split_and!; [done..|].
    simpl. simplify_eq. auto.
  - rewrite lookup_insert_ne by done. by do 2 eexists.
Qed.

Lemma attached_putLines mesh m md ty ls s :
  attached s → meshes s !! mesh = Some m → metadata m = Some md →
  (∀ line l, lineMeshes s !! line = Some l → boundTo l mesh →
             line ∈ lines md → line ∈ ls) →
  attached (putMesh mesh (withLines m ty ls) s).
Proof.
  intros Hat Hm Hmd Hsub line l k Hl Hb. simpl in Hl.
  eapply attachedTo_putLines; eauto. intros ->. eauto.
Qed.

Lemma attached_putLine line l s :
  attached s → (∀ mesh, boundTo l mesh → attachedTo s mesh line) →
  attached (putLine line l s).
Proof.
  intros Hat Hl k l' mesh. simpl.
  intros [[<- <-]|[_ H]]%lookup_insert_Some Hb.
  - by apply Hl.
  - by eapply Hat.
Qed.

Lemma attached_added type s : wf_core s → attached s → attached (added type s).
Proof.
  intros Hc Hat line l mesh Hl Hb.
  destruct (Hat line l mesh Hl Hb) as (m&md&Hm&Hmd&Hin).
  exists m, md. rewrite added_meshes. split_and!; [|done..].
  rewrite lookup_insert_ne; [done|].
  destruct (core_mesh _ Hc _ _ Hm). lia.
Qed.

(** Reads that are known to succeed. *)
Lemma wp_getMesh_ok mesh m (Q : Mesh → State → Prop) E s :
  meshes s !! mesh = Some m → Q m s → wp (getMesh mesh) Q E s.
Proof. intros H HQ. apply wp_getMesh; intros; by simplify_eq. Qed.

Lemma wp_getLine_ok line l (Q : LinesMesh → State → Prop) E s :
  lineMeshes s !! line = Some l → Q l s → wp (getLine line) Q E s.
Proof. intros H HQ. apply wp_getLine; intros; by simplify_eq. Qed.

Lemma wp_getVector_ok a v (Q : Vector3.t → State → Prop) E s :
  vectors s !! a = Some v → Q v s → wp (getVector a) Q E s.
Proof. intros H HQ. apply wp_getVector; intros; by simplify_eq. Qed.

Lemma wp_getLines_ok mesh m md (Q : list Name → State → Prop) E s :
  meshes s !! mesh = Some m → metadata m = Some md → Q (lines md) s →
  wp (getLines mesh) Q E s.
Proof. intros H Hmd HQ. apply wp_getLines; intros; by simplify_eq. Qed.

Lemma wp_setLines_ok mesh m md ls (Q : unit → State → Prop) E s :
  meshes s !! mesh = Some m → metadata m = Some md →
  Q tt (putMesh mesh (withLines m (type md) ls) s) →
  wp (setLines mesh ls) Q E s.
Proof.
  intros H Hmd HQ. unfold setLines.
  eapply wp_bind, wp_getMesh_ok; [done|].
  apply wp_bind, wp_deref; [|by rewrite Hmd]. intros ? ?; simplify_eq.
  by apply wp_modify.
Qed.

Lemma wp_push_ok mesh line m md (Q : unit → State → Prop) E s :
  meshes s !! mesh = Some m → metadata m = Some md →
  Q tt (putMesh mesh (withLines m (type md) (lines md ++ [line])) s) →
  wp (push mesh line) Q E s.
Proof.
  intros H Hmd HQ. unfold push.
  eapply wp_bind, wp_getLines_ok; [done..|]. by eapply wp_setLines_ok.
Qed.

(** ** Calls that leave the heap alone *)

Lemma wp_UpdateLines line (Q : unit → State → Prop) E s :
  (line ∈ scene s → Q tt s) → (line ∉ scene s → E TypeError s) →
  wp (UpdateLines line) Q E s.
Proof. unfold wp, UpdateLines. case_bool_decide; auto. Qed.

Lemma updateLine_same line s E :
  (∀ e, E e s) → wp (updateLine line) (λ _ s', s' = s) E s.
Proof.
  intros. unfold updateLine. apply wp_bind, wp_getLine; [|done].
  intros. by apply wp_UpdateLines.
Qed.

Lemma updateLines_same ls s E :
  (∀ e, E e s) → wp (forEach updateLine ls) (λ _ s', s' = s) E s.
Proof.
  intros HE. induction ls as [|l ls IH]; simpl; [done|].
  apply wp_bind. eapply wp_mono; [by apply updateLine_same| |done].
  by intros _ ? ->.
Qed.

Lemma updateLinesOnMesh_same mesh s E :
  (∀ e, E e s) → wp (updateLinesOnMesh mesh) (λ _ s', s' = s) E s.
Proof.
  intros HE. unfold updateLinesOnMesh. apply wp_bind, wp_getLines; [|done..].
  intros. by apply updateLines_same.
Qed.

(** [updateLine] on a line of the heap: it returns when the line is in
    the scene and raises a [TypeError] when it is not. *)
Lemma wp_updateLine line (Q : unit → State → Prop) E s :
  isLine s line → (line ∈ scene s → Q tt s) → (line ∉ scene s → E TypeError s) →
  wp (updateLine line) Q E s.
Proof.
  intros [l Hl] HQ HE. unfold updateLine.
  eapply wp_bind, wp_getLine_ok; [done|]. by apply wp_UpdateLines.
Qed.

Lemma wp_updateLine_ok line (Q : unit → State → Prop) E s :
  isLine s line → line ∈ scene s → Q tt s → wp (updateLine line) Q E s.
Proof. intros Hl Hin HQ. by apply wp_updateLine. Qed.

Lemma updateLine_run line s :
  isLine s line →
  updateLine line s
  = (s, if bool_decide (line ∈ scene s) then Ok tt else Throw TypeError).
Proof.
  intros [l Hl]. unfold updateLine, mbind, M_bind, bind, getLine, UpdateLines.
  rewrite Hl. by case_bool_decide.
Qed.

(** ** Every call keeps the heap well-formed *)

Lemma wf_putScene sc s : wf s → wf (putScene sc s).
Proof. intros [? ?]. split; [by apply core_putScene | done]. Qed.

Lemma wf_putVector a v s :
  wf s → is_Some (vectors s !! a) → wf (putVector a v s).
Proof. intros [? ?] ?. split; [by apply core_putVector | done]. Qed.

Lemma wf_allocVector v s : wf s → wf (allocVector v s).
Proof. intros [? ?]. split; [by apply core_allocVector | done]. Qed.

Lemma keeps_dispose n : keeps (dispose n).
Proof. intros s Hs. apply wp_modify. by apply wf_putScene. Qed.

Lemma keeps_move mesh diff : keeps (move mesh diff).
Proof.
  intros s Hs. unfold move.
  apply wp_bind, wp_getMesh; [|done]. intros m Hm.
  apply wp_bind, wp_getVector; [|done]. intros v Hv.
  apply wp_bind, wp_modify.
  assert (wf (putVector (position m) (Vector3.add v
    (Vector3.mk (default 0%float (Point.x diff)) (default 0%float (Point.y diff))
                (default 0%float (Point.z diff)))) s)) as Hs'
    by (by apply wf_putVector).
  apply wp_bind, wp_getLines; [|done..]. intros _ md _ _.
  destruct (0 <? length (lines md)); [|done].
  eapply wp_mono; [by apply (updateLinesOnMesh_same _ _ (λ _, wf))| |done].
  by intros _ ? ->.
Qed.

Lemma keeps_moveTo mesh point : keeps (moveTo mesh point).
Proof.
  intros s Hs. unfold moveTo.
  apply wp_bind, wp_getMesh; [|done]. intros m Hm.
  apply wp_bind, wp_getVector; [|done]. intros v Hv.
  by apply keeps_move.
Qed.

Lemma addMesh_run type opt s :
  addMesh type opt s =
  if supported type then (added type s, Ok (Some (nextId s)))
  else (s, Ok None).
Proof.
  unfold addMesh, supported.
  destruct (String.eqb type "box"); simpl; [|destruct (String.eqb type "sphere")];
    simpl; try done;
    unfold mbind, M_bind, bind, getMesh; simpl; by rewrite lookup_insert_eq.
Qed.

Lemma keeps_addMesh type opt : keeps (addMesh type opt).
Proof.
  intros s [Hc Ha]. unfold wp. rewrite addMesh_run.
  destruct (supported type); [|done].
  split; [by apply core_added | by apply attached_added].
Qed.

Lemma attached_step s s' :
  (∀ k l, lineMeshes s' !! k = Some l →
          lineMeshes s !! k = Some l ∨
          ∀ mesh, boundTo l mesh → attachedTo s' mesh k) →
  (∀ mesh k, attachedTo s mesh k → attachedTo s' mesh k) →
  attached s → attached s'.
Proof.
  intros Hl Hmono Hat k l mesh Hk Hb.
  destruct (Hl _ _ Hk) as [Hold|Hnew]; [|by apply Hnew].
  apply Hmono. by eapply Hat.
Qed.

Lemma attachedTo_pushed mesh m ty ls line s :
  line ∈ ls → attachedTo (putMesh mesh (withLines m ty ls) s) mesh line.
Proof.
  intros Hin. exists (withLines m ty ls), (mkMetadata ty ls). simpl.
  by rewrite lookup_insert_eq.
Qed.

Lemma keeps_addLine mesh1 mesh2 : keeps (addLine mesh1 mesh2).
Proof.
  intros s [Hc Ha]. unfold addLine.
  apply wp_bind, wp_getMesh; [|done]. intros m1 H1.
  apply wp_bind, wp_getMesh; [|done]. intros m2 H2.
  destruct (core_mesh _ Hc _ _ H1) as (?&?&[md1 Hmd1]).
  destruct (core_mesh _ Hc _ _ H2) as (?&?&[md2 Hmd2]).
  apply wp_bind, wp_RandomId. unfold CreateLines.
  apply wp_bind, wp_bind, wp_modify, wp_bind, wp_modify, wp_ret.
  set (n := nextId s).
  set (l := mkLinesMesh [position m1; position m2] (Some mesh1) (Some mesh2)).
  set (s3 := putScene _ _).
  assert (Hc3 : wf_core s3).
  { apply core_putScene. eapply (core_putLine n l); simpl; eauto.
    by apply core_allocId. }
  assert (Hn : isLine s3 n) by (unfold isLine; simpl; by rewrite lookup_insert_eq).
  eapply wp_bind, (wp_push_ok mesh1 n m1 md1); [done..|].
  set (s4 := putMesh mesh1 _ s3).
  assert (Hc4 : wf_core s4).
  { apply core_putLines; [done..|].
    intros k [Hk|Hk%list_elem_of_singleton]%elem_of_app; [|by subst k].
    unfold isLine. simpl. rewrite lookup_insert_ne.
    - exact (core_lines _ Hc _ _ _ _ H1 Hmd1 Hk).
    - destruct (core_lines _ Hc _ _ _ _ H1 Hmd1 Hk) as [l' Hl'].
      destruct (core_line _ Hc _ _ Hl'). subst n. lia. }
  assert (H34 : ∀ mesh k, attachedTo s mesh k → attachedTo s4 mesh k).
  { intros mesh k Hk. eapply attachedTo_putLines; eauto.
    intros _ ?. apply elem_of_app. by left. }
  assert (Hat1 : attachedTo s4 mesh1 n).
  { apply attachedTo_pushed, elem_of_app. right. by apply list_elem_of_singleton. }
  assert (∃ m2' md2', meshes s4 !! mesh2 = Some m2' ∧ metadata m2' = Some md2')
    as (m2'&md2'&H2'&Hmd2').
  { subst s4. simpl. destruct (decide (mesh1 = mesh2)) as [->|Hne].
    - rewrite lookup_insert_eq. by do 2 eexists.
    - rewrite lookup_insert_ne by done. eauto. }
  eapply wp_bind, (wp_push_ok mesh2 n m2' md2'); [done..|]. apply wp_ret.
  set (s5 := putMesh mesh2 _ s4).
  assert (H45 : ∀ mesh k, attachedTo s4 mesh k → attachedTo s5 mesh k).
  { intros mesh k Hk. eapply attachedTo_putLines; eauto.
    intros _ ?. apply elem_of_app. by left. }
  split.
  - apply core_putLines; [done..|].
    intros k [Hk|Hk%list_elem_of_singleton]%elem_of_app.
    + exact (core_lines _ Hc4 _ _ _ _ H2' Hmd2' Hk).
    + subst k. unfold isLine. simpl. by rewrite lookup_insert_eq.
  - eapply (attached_step s); [|by eauto|done].
    intros k l'. simpl. intros [[<- <-]|[_ Hk]]%lookup_insert_Some; [|by left].
    right. intros mesh [[= <-]|[= <-]]; simpl.
    + by apply H45.
    + apply attachedTo_pushed, elem_of_app. right.
      by apply list_elem_of_singleton.
Qed.

(** *** Array facts *)

Lemma find_elem line ls : find line ls = true ↔ line ∈ ls.
Proof.
  unfold find. rewrite existsb_exists. split.
  - intros (k&Hin&->%Nat.eqb_eq). by apply list_elem_of_In.
  - intros Hin. exists line. split; [by apply list_elem_of_In|].
    by apply Nat.eqb_eq.
Qed.

Lemma splice1_sub line ls k : k ∈ splice1 line ls → k ∈ ls.
Proof.
  induction ls as [|x ls IH]; simpl; [done|].
  destruct (Nat.eqb_spec x line) as [->|Hne].
  - intros. apply elem_of_cons. by right.
  - intros [->|Hk]%elem_of_cons; apply elem_of_cons; [by left|].
    right. by apply IH.
Qed.

Lemma splice1_other line ls k : k ≠ line → k ∈ ls → k ∈ splice1 line ls.
Proof.
  intros Hne. induction ls as [|x ls IH]; simpl; [done|].
  intros [->|Hk]%elem_of_cons.
  - destruct (Nat.eqb_spec x line); [done|]. apply elem_of_cons. by left.
  - destruct (Nat.eqb_spec x line); [done|].
    apply elem_of_cons. right. by apply IH.
Qed.

Lemma splice1_absent line ls : line ∉ ls → splice1 line ls = ls.
Proof.
  induction ls as [|x ls IH]; simpl; [done|].
  intros [Hne Hnin]%not_elem_of_cons.
  destruct (Nat.eqb_spec x line); [by subst|]. by rewrite IH.
Qed.

(** *** [connectLine] *)

(** What [connectLine] does on a mesh with metadata and a line: the
    writes are the same whether the last statement, [updateLine], returns
    or throws, which it does when the line is out of the scene. *)
Lemma wp_connectLine_any mesh line ty m md l (R : State → Prop) s :
  meshes s !! mesh = Some m → metadata m = Some md →
  lineMeshes s !! line = Some l →
  R (let s1 := putLine line (connected mesh (position m) ty l) s in
     if find line (lines md) then s1
     else putMesh mesh (withLines m (type md) (lines md ++ [line])) s1) →
  wp (connectLine mesh line ty)
     (λ _ s', line ∈ scene s ∧ R s')
     (λ e s', e = TypeError ∧ (line ∉ scene s) ∧ R s') s.
Proof.
  intros Hm Hmd Hl HR. unfold connectLine.
  eapply wp_bind, wp_getLines_ok; [done..|].
  eapply wp_bind, wp_getMesh_ok; [done|].
  eapply wp_bind, wp_getLine_ok; [done|].
  apply wp_bind.
  assert (wp (setLine line (connected mesh (position m) ty l))
    (λ _, wp (ls ← getLines mesh;
              (if find line ls then mret () else push mesh line);;
              updateLine line)
             (λ _ s', line ∈ scene s ∧ R s')
             (λ e s', e = TypeError ∧ (line ∉ scene s) ∧ R s'))
    (λ e s', e = TypeError ∧ (line ∉ scene s) ∧ R s') s) as Hgoal.
  { apply wp_modify.
    eapply wp_bind, wp_getLines_ok; [done..|]. apply wp_bind.
    simpl in HR. destruct (find line (lines md)).
    - apply wp_ret. apply wp_updateLine; [|done..].
      unfold isLine. simpl. by rewrite lookup_insert_eq.
    - eapply wp_push_ok; [done..|]. apply wp_updateLine; [|done..].
      unfold isLine. simpl. by rewrite lookup_insert_eq. }
  by destruct ty.
Qed.


Lemma keeps_connectLine mesh line ty : keeps (connectLine mesh line ty).
Proof.
  intros s [Hc Ha].
  destruct (meshes s !! mesh) as [m|] eqn:Hm; cycle 1.
  { unfold connectLine. by apply wp_bind, wp_getLines; [intros; simplify_eq|..]. }
  destruct (core_mesh _ Hc _ _ Hm) as (?&Hpv&[md Hmd]).
  destruct (lineMeshes s !! line) as [l|] eqn:Hl; cycle 1.
  { unfold connectLine. eapply wp_bind, wp_getLines_ok; [done..|].
    eapply wp_bind, wp_getMesh_ok; [done|].
    apply wp_bind, wp_getLine; [intros; simplify_eq | by split]. }
  eapply wp_mono;
    [eapply (wp_connectLine_any mesh line ty m md l wf); [done..|]
    |by intros ? ? [_ ?]|by intros ? ? (_&_&?)].
  destruct (core_line _ Hc _ _ Hl) as (?&a&b&Hpts&Hva&Hvb&Hf&Ht).
  set (l' := connected _ _ _ _). set (s1 := putLine line l' s).
  assert (Hc1 : wf_core s1).
  { subst s1 l'. destruct ty.
    - apply (core_putLine _ _ (position m) b); simpl; rewrite ?Hpts; eauto.
    - apply (core_putLine _ _ a (position m)); simpl; rewrite ?Hpts; eauto. }
  assert (Hb : ∀ k, boundTo l' k → k = mesh ∨ attachedTo s k line).
  { intros k [Hk|Hk]; destruct ty; simpl in Hk; simplify_eq; auto;
      right; (eapply Ha; [done|]); unfold boundTo; auto. }
  simpl. destruct (find line (lines md)) eqn:Hfind; fold s1.
  - split; [done|]. apply attached_putLine; [done|].
    intros k [->|Hk]%Hb; [|done]. exists m, md. split_and!; [done..|].
    by apply find_elem.
  - split.
    + apply core_putLines; [done..|].
      intros k [Hk|Hk%list_elem_of_singleton]%elem_of_app.
      * unfold isLine. simpl. rewrite lookup_insert. case_decide; [done|].
        exact (core_lines _ Hc _ _ _ _ Hm Hmd Hk).
      * subst k. unfold isLine. simpl. by rewrite lookup_insert_eq.
    + assert (Hmono : ∀ k j, attachedTo s k j →
        attachedTo (putMesh mesh (withLines m (type md) (lines md ++ [line])) s1) k j).
      { intros k j Hk. eapply attachedTo_putLines; eauto.
        intros _ ?. apply elem_of_app. by left. }
      eapply (attached_step s); [|done..]. intros k lk. simpl.
      intros [[<- <-]|[_ Hk]]%lookup_insert_Some; [|by left]. right.
      intros k [->|Hk]%Hb; [|by apply Hmono].
      apply attachedTo_pushed, elem_of_app. right.
      by apply list_elem_of_singleton.
Qed.

(** *** [disconnectLine] *)

Lemma wp_freeFrom line l a v (Q : unit → State → Prop) E s :
  lineMeshes s !! line = Some l → points l !! 0 = Some a →
  vectors s !! a = Some v →
  Q tt (putLine line (mkLinesMesh (assignFirst (nextVec s) (points l))
                                  None (to l))
                (allocVector v s)) →
  wp (freeFrom line) Q E s.
Proof.
  intros Hl Ha Hv HQ. unfold freeFrom.
  eapply wp_bind, wp_getLine_ok; [done|].
  apply wp_bind, wp_deref; [|by rewrite Ha]. intros ? ?; simplify_eq.
  eapply wp_bind, wp_getVector_ok; [done|].
  apply wp_bind, wp_newVector. by apply wp_modify.
Qed.

Lemma wp_freeTo line l b v (Q : unit → State → Prop) E s :
  lineMeshes s !! line = Some l → last (points l) = Some b →
  vectors s !! b = Some v →
  Q tt (putLine line (mkLinesMesh (assignLast (nextVec s) (points l))
                                  (from l) None)
                (allocVector v s)) →
  wp (freeTo line) Q E s.
Proof.
  intros Hl Hb Hv HQ. unfold freeTo.
  eapply wp_bind, wp_getLine_ok; [done|].
  apply wp_bind, wp_deref; [|by rewrite Hb]. intros ? ?; simplify_eq.
  eapply wp_bind, wp_getVector_ok; [done|].
  apply wp_bind, wp_newVector. by apply wp_modify.
Qed.

Lemma wf_freed line l l' a b v s :
  wf s → lineMeshes s !! line = Some l →
  points l' = [a; b] →
  is_Some (<[nextVec s := v]> (vectors s) !! a) →
  is_Some (<[nextVec s := v]> (vectors s) !! b) →
  endpoint s (from l') a → endpoint s (to l') b →
  (∀ mesh, boundTo l' mesh → boundTo l mesh) →
  wf (putLine line l' (allocVector v s)).
Proof.
  intros [Hc Ha] Hl Hpts Hva Hvb Hf Ht Hb. split.
  - eapply core_putLine; eauto using core_allocVector.
    simpl. by destruct (core_line _ Hc _ _ Hl).
  - apply attached_putLine.
    + by apply (attached_ext s).
    + intros mesh Hm%Hb. apply (attachedTo_ext s); [done|]. by eapply Ha.
Qed.

Lemma fresh_endpoint s : wf_core s → endpoint s None (nextVec s).
Proof.
  intros Hc mesh m Hm Heq.
  destruct (core_mesh _ Hc _ _ Hm) as (_&[v Hv]&_).
  apply (core_vec _ Hc) in Hv. lia.
Qed.

Lemma lineFrame_refl line s : lineFrame line s s.
Proof. done. Qed.

Lemma lineFrame_trans line s1 s2 s3 :
  lineFrame line s1 s2 → lineFrame line s2 s3 → lineFrame line s1 s3.
Proof.
  intros (Hm1&Hs1&Hk1) (Hm2&Hs2&Hk2). split_and!; [congruence..|].
  intros k Hk. by rewrite Hk2, Hk1.
Qed.

Lemma freeFrom_wf line l s :
  wf s → lineMeshes s !! line = Some l →
  wp (freeFrom line)
     (λ _ s', wf s' ∧ lineFrame line s s' ∧
              ∃ l', lineMeshes s' !! line = Some l' ∧
                    from l' = None ∧ to l' = to l)
     (λ _ _, False) s.
Proof.
  intros Hs Hl. pose proof Hs as [Hc _].
  destruct (core_line _ Hc _ _ Hl) as (?&a&b&Hpts&[va Hva]&Hvb&Hf&Ht).
  eapply wp_freeFrom; [done| by rewrite Hpts |done|].
  rewrite Hpts. simpl. split_and!.
  - eapply (wf_freed line l _ (nextVec s) b); simpl; eauto.
    + by rewrite lookup_insert_eq.
    + rewrite lookup_insert. by case_decide.
    + by apply fresh_endpoint.
    + intros mesh [?|?]; simpl in *; [done|by right].
  - split_and!; [done..|]. intros k Hk. simpl. by rewrite lookup_insert_ne.
  - eexists. rewrite lookup_insert_eq. eauto.
Qed.

Lemma freeTo_wf line l s :
  wf s → lineMeshes s !! line = Some l →
  wp (freeTo line)
     (λ _ s', wf s' ∧ lineFrame line s s' ∧
              ∃ l', lineMeshes s' !! line = Some l' ∧
                    from l' = from l ∧ to l' = None)
     (λ _ _, False) s.
Proof.
  intros Hs Hl. pose proof Hs as [Hc _].
  destruct (core_line _ Hc _ _ Hl) as (?&a&b&Hpts&Hva&[vb Hvb]&Hf&Ht).
  eapply wp_freeTo; [done| by rewrite Hpts |done|].
  rewrite Hpts. simpl. split_and!.
  - eapply (wf_freed line l _ a (nextVec s)); simpl; eauto.
    + rewrite lookup_insert. by case_decide.
    + by rewrite lookup_insert_eq.
    + by apply fresh_endpoint.
    + intros mesh [?|?]; simpl in *; [by left|done].
  - split_and!; [done..|]. intros k Hk. simpl. by rewrite lookup_insert_ne.
  - eexists. rewrite lookup_insert_eq. eauto.
Qed.

Lemma fromAfter_unbound mesh l : fromAfter mesh l ≠ Some mesh.
Proof. unfold fromAfter. by case_bool_decide. Qed.

Lemma toAfter_unbound mesh l : toAfter mesh l ≠ Some mesh.
Proof. unfold toAfter. by case_bool_decide. Qed.

(** The two tests of [disconnectLine]: each end bound to [mesh] is freed,
    the other ends, the other lines and every mesh stay as they are. *)
Lemma detach_wf mesh line l s :
  wf s → lineMeshes s !! line = Some l →
  wp (if bool_decide (from l = Some mesh) then freeFrom line else mret tt)
     (λ _, wp (if bool_decide (to l = Some mesh) then freeTo line else mret tt)
        (λ _ s', wf s' ∧ lineFrame line s s' ∧
                 ∃ l', lineMeshes s' !! line = Some l' ∧
                       from l' = fromAfter mesh l ∧ to l' = toAfter mesh l)
        (λ _ _, False))
     (λ _ _, False) s.
Proof.
  intros Hs Hl. unfold fromAfter, toAfter.
  assert (wp (if bool_decide (from l = Some mesh) then freeFrom line else mret tt)
    (λ _ s', wf s' ∧ lineFrame line s s' ∧
             ∃ l', lineMeshes s' !! line = Some l' ∧
                   from l' = (if bool_decide (from l = Some mesh) then None
                              else from l) ∧
                   to l' = to l)
    (λ _ _, False) s) as H1.
  { destruct (bool_decide (from l = Some mesh)).
    - by apply freeFrom_wf.
    - apply wp_ret. split_and!; [done..|]. by exists l. }
  eapply wp_mono; [exact H1| |done]. clear H1.
  intros ? s1 (Hs1&Hfr1&l1&Hl1&Hf1&Ht1). simpl.
  destruct (bool_decide (to l = Some mesh)).
  - eapply wp_mono; [by apply freeTo_wf| |done].
    intros ? s2 (?&Hfr2&l2&?&Hf2&Ht2).
    split_and!; [done|by eapply lineFrame_trans|].
    exists l2. split_and!; [done|congruence|done].
  - apply wp_ret. split_and!; [done..|].
    exists l1. split_and!; [done|congruence|done].
Qed.

Lemma withLines_same m md : metadata m = Some md →
  withLines m (type md) (lines md) = m.
Proof. destruct m as [? ? [[]|]]; simpl; intros; by simplify_eq. Qed.

(** [disconnectLine(mesh, line)] on a mesh and a line of a well-formed
    heap: it returns normally; the ends of the line bound to [mesh] are
    free afterwards and the others are as before; one entry of the line
    is gone from the list of [mesh]; the other meshes and the other lines
    are untouched, and so is the scene. *)
Lemma disconnectLine_any mesh line m md l s :
  wf s → meshes s !! mesh = Some m → metadata m = Some md →
  lineMeshes s !! line = Some l →
  let R := λ s' : State,
    wf s' ∧
    meshes s' = <[mesh := withLines m (type md) (splice1 line (lines md))]>
                  (meshes s) ∧
    scene s' = scene s ∧
    (∀ k, k ≠ line → lineMeshes s' !! k = lineMeshes s !! k) ∧
    ∃ l', lineMeshes s' !! line = Some l' ∧
          from l' = fromAfter mesh l ∧ to l' = toAfter mesh l in
  wp (disconnectLine (Some mesh) line)
     (λ _ s', line ∈ scene s ∧ R s')
     (λ e s', e = TypeError ∧ (line ∉ scene s) ∧ R s') s.
Proof.
  intros Hs Hm Hmd Hl R. unfold disconnectLine.
  apply wp_bind, wp_deref; [|done]. intros ? [= <-].
  eapply wp_bind, wp_getLines_ok; [done..|].
  eapply wp_bind, wp_getLine_ok; [done|].
  apply wp_bind.
  eapply wp_mono; [by apply (detach_wf mesh line l)| |done]. intros ? s1 H1.
  apply wp_bind. eapply wp_mono; [exact H1| |done]. clear H1.
  intros ? s2 ([Hc2 Ha2]&(Hm2&Hsc2&Hk2)&l2&Hl2&Hf2&Ht2). simpl.
  assert (meshes s2 !! mesh = Some m) as Hm' by (by rewrite Hm2).
  eapply wp_bind, wp_getLines_ok; [done..|].
  apply wp_bind. destruct (find line (lines md)) eqn:Hfind.
  - eapply wp_setLines_ok; [done..|].
    assert (R (putMesh mesh (withLines m (type md) (splice1 line (lines md)))
                 s2)) as HR.
    { unfold R.
      split_and!; [|simpl; by rewrite Hm2|done|done|by exists l2]. split.
      + apply core_putLines; [done..|]. intros j Hj%splice1_sub.
        exact (core_lines _ Hc2 _ _ _ _ Hm' Hmd Hj).
      + eapply attached_putLines; [done..|]. intros j lj Hj Hb Hin.
        apply splice1_other; [|done]. intros ->. simplify_eq.
        destruct Hb as [Hb|Hb]; rewrite ?Hf2, ?Ht2 in Hb.
        * by apply fromAfter_unbound in Hb.
        * by apply toAfter_unbound in Hb. }
    apply wp_updateLine; simpl; rewrite ?Hsc2;
      [unfold isLine; simpl; by rewrite Hl2|done..].
  - assert (R s2) as HR.
    { unfold R. split_and!; [done| |done|done|by exists l2].
      rewrite splice1_absent.
      + by rewrite withLines_same, insert_id.
      + intros Hin%find_elem. congruence. }
    apply wp_ret, wp_updateLine; rewrite ?Hsc2;
      [unfold isLine; by rewrite Hl2|done..].
Qed.

Lemma disconnectLine_spec mesh line m md l s :
  wf s → meshes s !! mesh = Some m → metadata m = Some md →
  lineMeshes s !! line = Some l → line ∈ scene s →
  wp (disconnectLine (Some mesh) line)
     (λ _ s', wf s' ∧
        meshes s' = <[mesh := withLines m (type md) (splice1 line (lines md))]>
                      (meshes s) ∧
        scene s' = scene s ∧
        (∀ k, k ≠ line → lineMeshes s' !! k = lineMeshes s !! k) ∧
        ∃ l', lineMeshes s' !! line = Some l' ∧
              from l' = fromAfter mesh l ∧ to l' = toAfter mesh l)
     (λ _ _, False) s.
Proof.
  intros Hs Hm Hmd Hl Hin.
  eapply wp_mono; [by apply (disconnectLine_any mesh line m md l s)|..].
  - by intros ? s' [_ ?].
  - by intros ? s' (_&?&_).
Qed.

Lemma keeps_disconnectLine mesh line : keeps (disconnectLine mesh line).
Proof.
  intros s Hs. destruct mesh as [mesh|]; [|done].
  destruct (meshes s !! mesh) as [m|] eqn:Hm; cycle 1.
  { unfold disconnectLine. apply wp_bind, wp_ret.
    by apply wp_bind, wp_getLines; [intros; simplify_eq|..]. }
  destruct (core_mesh _ (proj1 Hs) _ _ Hm) as (_&_&[md Hmd]).
  destruct (lineMeshes s !! line) as [l|] eqn:Hl; cycle 1.
  { unfold disconnectLine. apply wp_bind, wp_ret.
    eapply wp_bind, wp_getLines_ok; [done..|].
    by apply wp_bind, wp_getLine; [intros; simplify_eq|]. }
  eapply wp_mono; [by apply (disconnectLine_any mesh line m md l s)|..].
  - by intros ? s' (_&?&_).
  - by intros ? s' (_&_&?&_).
Qed.

(** *** The calls built from these *)

Lemma keeps_bind {A B} (c : M A) (k : A → M B) :
  keeps c → (∀ a, keeps (k a)) → keeps (c ≫= k).
Proof.
  intros Hc Hk s Hs. apply wp_bind.
  eapply wp_mono; [by apply Hc| |done]. intros a s' Hs'. by apply Hk.
Qed.

Lemma keeps_ret {A} (a : A) : keeps (mret a).
Proof. by intros s Hs. Qed.

Lemma keeps_forEach {A} (f : A → M unit) l :
  (∀ a, keeps (f a)) → keeps (forEach f l).
Proof. intros Hf s Hs. apply wp_forEach; [|done]. intros a s'. apply Hf. Qed.

Lemma keeps_getLines mesh : keeps (getLines mesh).
Proof. intros s Hs. by apply wp_getLines. Qed.

Lemma keeps_getLine line : keeps (getLine line).
Proof. intros s Hs. by apply wp_getLine. Qed.

Lemma keeps_disconnectLinesOnMesh mesh : keeps (disconnectLinesOnMesh mesh).
Proof.
  apply keeps_bind; [apply keeps_getLines|]. intros ls.
  apply keeps_forEach. intros line. apply keeps_disconnectLine.
Qed.

Lemma keeps_removeMesh mesh : keeps (removeMesh mesh).
Proof.
  apply keeps_bind; [apply keeps_disconnectLinesOnMesh|]. intros _.
  apply keeps_bind; intros; apply keeps_dispose.
Qed.

Lemma keeps_removeLine line : keeps (removeLine line).
Proof.
  apply keeps_bind; [apply keeps_getLine|]. intros l.
  apply keeps_bind.
  { destruct (from l); [apply keeps_disconnectLine | apply keeps_ret]. }
  intros _. apply keeps_bind.
  { destruct (to l); [apply keeps_disconnectLine | apply keeps_ret]. }
  intros _. apply keeps_bind; intros; apply keeps_dispose.
Qed.

Lemma keeps_removeLinesOnMesh mesh : keeps (removeLinesOnMesh mesh).
Proof.
  apply keeps_bind; [apply keeps_getLines|]. intros ls.
  apply keeps_forEach. intros line. apply keeps_removeLine.
Qed.

Lemma wf_run op s : wf s → wf (run op s).
Proof.
  intros Hs. destruct op; simpl; apply wp_exec.
  - by apply keeps_addMesh.
  - by apply keeps_addLine.
  - by apply keeps_connectLine.
  - by apply keeps_disconnectLine.
  - by apply keeps_disconnectLinesOnMesh.
  - by apply keeps_removeLine.
  - by apply keeps_removeLinesOnMesh.
  - by apply keeps_removeMesh.
  - by apply keeps_move.
  - by apply keeps_moveTo.
Qed.

Lemma reach_wf s : reach s → wf s.
Proof. induction 1; [apply wf_init | by apply wf_run]. Qed.

(** *** Concrete call sequences *)

Lemma isMeshb_true s mesh : isMeshb s mesh = true → isMesh s mesh.
Proof. unfold isMeshb, isMesh. by destruct (meshes s !! mesh). Qed.

Lemma isLineb_true s line : isLineb s line = true → isLine s line.
Proof. unfold isLineb, isLine. by destruct (lineMeshes s !! line). Qed.

Lemma callableb_true s op : callableb s op = true → callable s op.
Proof.
  destruct op; simpl; rewrite ?andb_true_iff;
    intuition auto using isMeshb_true, isLineb_true.
Qed.

Lemma reach_runAll ops s :
  reach s → callableAll ops s = true → reach (runAll ops s).
Proof.
  revert s. induction ops as [|op ops IH]; intros s Hs; simpl; [done|].
  intros [Hop Hops]%andb_true_iff. apply IH; [|done].
  by apply reach_step, callableb_true.
Qed.

(** A call known by its result, and a result known by the call. *)
Lemma wp_eq {A} (c : M A) s s' r (Q : A → State → Prop) E :
  c s = (s', r) →
  match r with Ok a => Q a s' | Throw e => E e s' end →
  wp c Q E s.
Proof. unfold wp. by intros ->. Qed.

Lemma wp_run {A} (c : M A) s s' (r : res A) :
  wp c (λ a s1, (s1, Ok a) = (s', r)) (λ e s1, (s1, Throw e) = (s', r)) s →
  c s = (s', r).
Proof. unfold wp. by destruct (c s) as [s1 [a|e]]. Qed.

Lemma allLive_elem s ls :
  allLive s ls = true ↔ ∀ line, line ∈ ls → line ∈ scene s.
Proof.
  unfold allLive. rewrite forallb_forall. split.
  - intros H line Hin. apply list_elem_of_In in Hin.
    by apply (bool_decide_eq_true_1 (line ∈ scene s)), H.
  - intros H line Hin. apply bool_decide_eq_true_2, H.
    by apply list_elem_of_In.
Qed.

Lemma updated_Ok s ls :
  (∀ line, line ∈ ls → line ∈ scene s) → updated s ls = Ok tt.
Proof. intros H. unfold updated. by rewrite (proj2 (allLive_elem s ls) H). Qed.

(** The loop of [updateLinesOnMesh] over lines of the heap. *)
Lemma updateLines_run ls s :
  (∀ line, line ∈ ls → isLine s line) →
  forEach updateLine ls s = (s, updated s ls).
Proof.
  induction ls as [|l ls IH]; intros Hin; simpl; [done|].
  unfold mbind, M_bind, bind. rewrite updateLine_run.
  - unfold updated, allLive. simpl. case_bool_decide; simpl; [|done].
    apply IH. intros k Hk. apply Hin, elem_of_cons. by right.
  - apply Hin, elem_of_cons. by left.
Qed.

(** The last statement of [move]: the lines of a mesh with a list are
    updated, and the first of them that is out of the scene stops the
    call. *)
Lemma updateListed_run mesh m md s :
  meshes s !! mesh = Some m → metadata m = Some md →
  (∀ line, line ∈ lines md → isLine s line) →
  (if 0 <? length (lines md) then updateLinesOnMesh mesh else mret tt) s
  = (s, updated s (lines md)).
Proof.
  intros Hm Hmd Hls. destruct (lines md) as [|x ls] eqn:Hlist; [done|].
  simpl. apply wp_run. unfold updateLinesOnMesh.
  eapply wp_bind, wp_getLines_ok; [done..|]. rewrite Hlist.
  eapply wp_eq; [by apply updateLines_run|]. by destruct (updated s (x :: ls)).
Qed.

(** [move] writes the vector of the mesh and nothing else, and then
    updates the lines of the list. *)
Lemma move_run s mesh diff m md v :
  wf s → meshes s !! mesh = Some m → metadata m = Some md →
  vectors s !! position m = Some v →
  move mesh diff s
  = (putVector (position m)
       (Vector3.add v
          (Vector3.mk (default 0%float (Point.x diff))
                      (default 0%float (Point.y diff))
                      (default 0%float (Point.z diff)))) s,
     updated s (lines md)).
Proof.
  intros [Hc _] Hm Hmd Hv. apply wp_run. unfold move. cbv zeta.
  eapply wp_bind, wp_getMesh_ok; [done|].
  eapply wp_bind, wp_getVector_ok; [done|].
  apply wp_bind, wp_modify.
  eapply wp_bind, wp_getLines_ok; [done..|].
  eapply wp_eq.
  - apply (updateListed_run mesh m md); [done..|].
    intros line. exact (core_lines _ Hc mesh m md line Hm Hmd).
  - change (updated (putVector _ _ s) (lines md)) with (updated s (lines md)).
    by destruct (updated s (lines md)).
Qed.

(** [moveTo] is [move] by the difference. *)
Lemma moveTo_run s mesh point m md v :
  wf s → meshes s !! mesh = Some m → metadata m = Some md →
  vectors s !! position m = Some v →
  moveTo mesh point s
  = (putVector (position m) (movedTo v point) s, updated s (lines md)).
Proof.
  intros Hs Hm Hmd Hv. apply wp_run. unfold moveTo.
  eapply wp_bind, wp_getMesh_ok; [done|].
  eapply wp_bind, wp_getVector_ok; [done|].
  eapply wp_eq; [by apply (move_run s mesh _ m md v)|].
  by destruct (updated s (lines md)).
Qed.

(** ** No call meets a name without object *)

Lemma grows_refl s : grows s s.
Proof. done. Qed.

Lemma grows_trans s1 s2 s3 : grows s1 s2 → grows s2 s3 → grows s1 s3.
Proof. intros [H1 H2] [H3 H4]. split; auto. Qed.

Lemma grows_same s s' :
  meshes s' = meshes s → lineMeshes s' = lineMeshes s → grows s s'.
Proof. unfold grows, isMesh, isLine. by intros -> ->. Qed.

Lemma grows_putMesh mesh m s : grows s (putMesh mesh m s).
Proof.
  split; [|done]. unfold isMesh. simpl. intros k Hk.
  rewrite lookup_insert. by case_decide.
Qed.

Lemma grows_putLine line l s : grows s (putLine line l s).
Proof.
  split; [done|]. unfold isLine. simpl. intros k Hk.
  rewrite lookup_insert. by case_decide.
Qed.

Lemma wp_and {A} (c : M A) Q1 Q2 E1 E2 s :
  wp c Q1 E1 s → wp c Q2 E2 s →
  wp c (λ a s', Q1 a s' ∧ Q2 a s') (λ e s', E1 e s' ∧ E2 e s') s.
Proof. unfold wp. by destruct (c s) as [s' [a|e]]. Qed.

(** A call that keeps the heap well-formed is sound once it is shown to
    keep the objects and to raise nothing but a [TypeError]. *)
Lemma sound_intro {A} (c : M A) s :
  wf s → keeps c →
  wp c (λ _ s', grows s s') (λ e s', e = TypeError ∧ grows s s') s →
  sound c s.
Proof.
  intros Hs Hk Hg. eapply wp_mono; [exact (wp_and _ _ _ _ _ _ (Hk s Hs) Hg)|..].
  - by intros ? ? [? ?].
  - by intros ? ? [? [? ?]].
Qed.

Lemma sound_bind {A B} (c : M A) (k : A → M B) s :
  sound c s → (∀ a s', wf s' → grows s s' → sound (k a) s') →
  sound (c ≫= k) s.
Proof.
  intros Hc Hk. apply wp_bind. eapply wp_mono; [exact Hc| |done].
  intros a s' [Hs' Hg]. eapply wp_mono; [by apply Hk|..].
  - intros ? s'' [? ?]. eauto using grows_trans.
  - intros ? s'' (?&?&?). eauto using grows_trans.
Qed.

Lemma sound_forEach {A} (f : A → M unit) l s :
  wf s → (∀ a s', a ∈ l → wf s' → grows s s' → sound (f a) s') →
  sound (forEach f l) s.
Proof.
  intros Hs Hf.
  assert (∀ s', wf s' → grows s s' →
    wp (forEach f l) (λ _ s'', wf s'' ∧ grows s s'')
       (λ e s'', e = TypeError ∧ wf s'' ∧ grows s s'') s') as Hloop.
  { induction l as [|a l IH]; intros s' Hs' Hg; simpl; [by apply wp_ret|].
    apply wp_bind. eapply wp_mono.
    - apply (Hf a s'); [apply elem_of_cons; by left|done..].
    - intros ? s'' [? ?]. apply IH; eauto using grows_trans.
      intros b s3 Hb. apply Hf, elem_of_cons. by right.
    - intros ? s'' (?&?&?). eauto using grows_trans. }
  by apply Hloop.
Qed.

Lemma sound_getLines mesh s :
  wf s → isMesh s mesh →
  wp (getLines mesh)
     (λ ls s', s' = s ∧ ∀ line, line ∈ ls → isLine s line)
     (λ _ _, False) s.
Proof.
  intros [Hc _] [m Hm]. destruct (core_mesh _ Hc _ _ Hm) as (_&_&[md Hmd]).
  eapply wp_getLines_ok; [done..|]. split; [done|].
  intros line. exact (core_lines _ Hc mesh m md line Hm Hmd).
Qed.

Lemma sound_dispose n s : wf s → sound (dispose n) s.
Proof. intros Hs. apply wp_modify. split; [by apply wf_putScene|done]. Qed.

Lemma sound_addMesh type opt s : wf s → sound (addMesh type opt) s.
Proof.
  intros Hs. apply sound_intro; [done|apply keeps_addMesh|].
  unfold wp. rewrite addMesh_run. destruct (supported type); [|done].
  split; [|done]. unfold isMesh. rewrite added_meshes. intros k Hk.
  rewrite lookup_insert. by case_decide.
Qed.

Lemma sound_addLine mesh1 mesh2 s :
  wf s → isMesh s mesh1 → isMesh s mesh2 → sound (addLine mesh1 mesh2) s.
Proof.
  intros Hs [m1 H1] [m2 H2]. pose proof Hs as [Hc _].
  apply sound_intro; [done|apply keeps_addLine|].
  destruct (core_mesh _ Hc _ _ H1) as (_&_&[md1 Hmd1]).
  destruct (core_mesh _ Hc _ _ H2) as (_&_&[md2 Hmd2]).
  unfold addLine.
  eapply wp_bind, wp_getMesh_ok; [done|].
  eapply wp_bind, wp_getMesh_ok; [done|].
  apply wp_bind, wp_RandomId. unfold CreateLines.
  apply wp_bind, wp_bind, wp_modify, wp_bind, wp_modify, wp_ret.
  eapply wp_bind, (wp_push_ok mesh1 _ m1 md1); [done..|].
  set (s4 := putMesh mesh1 _ _).
  assert (∃ m2' md2', meshes s4 !! mesh2 = Some m2' ∧ metadata m2' = Some md2')
    as (m2'&md2'&H2'&Hmd2').
  { subst s4. simpl. destruct (decide (mesh1 = mesh2)) as [->|Hne].
    - rewrite lookup_insert_eq. by do 2 eexists.
    - rewrite lookup_insert_ne by done. eauto. }
  eapply wp_bind, (wp_push_ok mesh2 _ m2' md2'); [done..|]. apply wp_ret.
  eapply grows_trans; [|apply grows_putMesh].
  eapply grows_trans; [|apply grows_putMesh].
  eapply grows_trans; [apply (grows_putLine (nextId s))|]. by apply grows_same.
Qed.

Lemma sound_connectLine mesh line ty s :
  wf s → isMesh s mesh → isLine s line → sound (connectLine mesh line ty) s.
Proof.
  intros Hs [m Hm] [l Hl]. pose proof Hs as [Hc _].
  apply sound_intro; [done|apply keeps_connectLine|].
  destruct (core_mesh _ Hc _ _ Hm) as (_&_&[md Hmd]).
  eapply wp_mono;
    [eapply (wp_connectLine_any mesh line ty m md l (grows s)); [done..|]
    |by intros ? ? [_ ?]|by intros ? ? (?&_&?)].
  simpl. destruct (find line (lines md)); [apply grows_putLine|].
  eapply grows_trans; [apply grows_putLine | apply grows_putMesh].
Qed.

Lemma sound_disconnectLine mesh line s :
  wf s → isMesh s mesh → isLine s line →
  sound (disconnectLine (Some mesh) line) s.
Proof.
  intros Hs [m Hm] [l Hl]. pose proof Hs as [Hc _].
  destruct (core_mesh _ Hc _ _ Hm) as (_&_&[md Hmd]).
  assert (∀ s', wf s' ∧
    meshes s' = <[mesh := withLines m (type md) (splice1 line (lines md))]>
                  (meshes s) ∧
    scene s' = scene s ∧
    (∀ k, k ≠ line → lineMeshes s' !! k = lineMeshes s !! k) ∧
    (∃ l', lineMeshes s' !! line = Some l' ∧
           from l' = fromAfter mesh l ∧ to l' = toAfter mesh l) →
    wf s' ∧ grows s s') as Hgrows.
  { intros s' (Hs'&Hms&_&Hk&l'&Hl'&_). split; [done|].
    unfold grows, isMesh, isLine. split; intros k Hx.
    - rewrite Hms, lookup_insert. by case_decide.
    - destruct (decide (k = line)) as [->|Hne]; [by eexists|]. by rewrite Hk. }
  eapply wp_mono; [by apply (disconnectLine_any mesh line m md l)|..].
  - intros ? s' [_ HR]. by apply Hgrows.
  - intros ? s' (?&_&HR). split; [done|]. by apply Hgrows.
Qed.

Lemma sound_disconnectLinesOnMesh mesh s :
  wf s → isMesh s mesh → sound (disconnectLinesOnMesh mesh) s.
Proof.
  intros Hs Hm. apply wp_bind.
  eapply wp_mono; [by apply sound_getLines| |done].
  intros ls ? [-> Hls]. apply sound_forEach; [done|].
  intros line s' Hin Hs' [Hgm Hgl]. apply sound_disconnectLine; auto.
Qed.

Lemma sound_removeMesh mesh s :
  wf s → isMesh s mesh → sound (removeMesh mesh) s.
Proof.
  intros Hs Hm. apply sound_bind; [by apply sound_disconnectLinesOnMesh|].
  intros _ s1 Hs1 _. apply sound_bind; [by apply sound_dispose|].
  intros _ s2 Hs2 _. by apply sound_dispose.
Qed.

Lemma sound_removeLine line s : wf s → isLine s line → sound (removeLine line) s.
Proof.
  intros Hs [l Hl]. pose proof Hs as [Hc _].
  destruct (core_line _ Hc _ _ Hl) as (_&a&b&_&_&_&Hf&_).
  eapply wp_bind, wp_getLine_ok; [done|].
  assert (sound (ret tt : M unit) s) as Hret by (by apply wp_ret).
  assert (∀ s', wf s' → sound (dispose line;; sceneRemoveMesh line) s')
    as Hend.
  { intros s' Hs'. apply sound_bind; [by apply sound_dispose|].
    intros _ s2 Hs2 _. by apply sound_dispose. }
  destruct (from l) as [f|] eqn:Hfrom; cbv beta iota.
  - destruct Hf as (mf&Hmf&_).
    apply sound_bind; [apply sound_disconnectLine; [done|by eexists..]|].
    intros _ s1 Hs1 [Hgm Hgl]. apply sound_bind; [|by auto].
    destruct (to l); cbv beta iota; [|by apply wp_ret].
    apply sound_disconnectLine; [done|apply Hgm|apply Hgl]; by eexists.
  - apply sound_bind; [done|]. intros _ s1 Hs1 _.
    destruct (to l); cbv beta iota; [by apply wp_bind, wp_bind, wp_throw|].
    apply sound_bind; [by apply wp_ret | by auto].
Qed.

Lemma sound_removeLinesOnMesh mesh s :
  wf s → isMesh s mesh → sound (removeLinesOnMesh mesh) s.
Proof.
  intros Hs Hm. apply wp_bind.
  eapply wp_mono; [by apply sound_getLines| |done].
  intros ls ? [-> Hls]. apply sound_forEach; [done|].
  intros line s' Hin Hs' [Hgm Hgl]. apply sound_removeLine; auto.
Qed.

Lemma sound_move mesh diff s : wf s → isMesh s mesh → sound (move mesh diff) s.
Proof.
  intros Hs [m Hm]. pose proof Hs as [Hc _].
  destruct (core_mesh _ Hc _ _ Hm) as (_&[v Hv]&[md Hmd]).
  apply sound_intro; [done|apply keeps_move|]. unfold move. cbv zeta.
  eapply wp_bind, wp_getMesh_ok; [done|].
  eapply wp_bind, wp_getVector_ok; [done|].
  apply wp_bind, wp_modify.
  eapply wp_bind, wp_getLines_ok; [done..|].
  eapply wp_eq.
  - apply (updateListed_run mesh m md); [done..|].
    intros line. exact (core_lines _ Hc mesh m md line Hm Hmd).
  - unfold updated. by destruct (allLive _ _).
Qed.

Lemma sound_moveTo mesh point s :
  wf s → isMesh s mesh → sound (moveTo mesh point) s.
Proof.
  intros Hs [m Hm]. pose proof Hs as [Hc _].
  destruct (core_mesh _ Hc _ _ Hm) as (_&[v Hv]&[md Hmd]).
  unfold sound, wp. rewrite (moveTo_run s mesh point m md v) by done.
  assert (wf (putVector (position m) (movedTo v point) s))
    by (apply wf_putVector; eauto).
  unfold updated. by destruct (allLive _ _).
Qed.

(** In a state reached by the ten calls, a call on objects of the heap
    returns or raises a [TypeError]; it never meets a name without
    object. *)
Lemma reach_sound s op : reach s → callable s op → sound (call op) s.
Proof.
  intros Hs%reach_wf Hop. destruct op; simpl in *.
  - apply sound_bind; [by apply sound_addMesh|]. intros. by apply wp_ret.
  - destruct Hop. apply sound_bind; [by apply sound_addLine|].
    intros. by apply wp_ret.
  - destruct Hop. by apply sound_connectLine.
  - destruct Hop. by apply sound_disconnectLine.
  - by apply sound_disconnectLinesOnMesh.
  - by apply sound_removeLine.
  - by apply sound_removeLinesOnMesh.
  - by apply sound_removeMesh.
  - by apply sound_move.
  - by apply sound_moveTo.
Qed.

Lemma reach_call s op :
  reach s → callable s op →
  ∃ s', call op s = (s', Ok tt) ∨ call op s = (s', Throw TypeError).
Proof.
  intros Hs Hop. pose proof (reach_sound s op Hs Hop) as H.
  unfold sound, wp in H. destruct (call op s) as [s' [[]|e]].
  - exists s'. by left.
  - destruct H as [-> _]. exists s'. by right.
Qed.

Lemma run_call op s : run op s = exec (call op) s.
Proof.
  destruct op as [ty opt|mesh1 mesh2| | | | | | | |]; try done;
    unfold run, call, exec, mbind, M_bind, bind.
  - by destruct (addMesh ty opt s) as [? [?|?]].
  - by destruct (addLine mesh1 mesh2 s) as [? [?|?]].
Qed.

(** * The claims *)

(** ** C1: lines bound to a mesh and lines listed on it *)




(** ** C2: [removeLine] on a line between two meshes *)

(** C2 on the code: [removeLine] hands [from] to [disconnectLine] in both
    branches.  For every line in the scene of a reachable state with
    [from] bound to [P1] and [to] bound to another mesh [P2], the call
    returns normally with [from] freed and [to] still bound to [P2]: the
    second [disconnectLine] finds [P1] at neither end and frees nothing.
    [P2] is untouched and still lists the line, which has left the
    scene. *)
Theorem removeLine_leaves_to_bound (s : State) (line P1 P2 : Name)
    (l : LinesMesh) :
  reach s → lineMeshes s !! line = Some l → line ∈ scene s →
  from l = Some P1 → to l = Some P2 → P1 ≠ P2 →
  ∃ s' l', removeLine line s = (s', Ok tt) ∧
           lineMeshes s' !! line = Some l' ∧
           from l' = None ∧ to l' = Some P2 ∧
           meshes s' !! P2 = meshes s !! P2 ∧
           attachedTo s' P2 line ∧
           line ∉ scene s'.
Proof.
  intros Hs%reach_wf Hl Hlive Hf Ht Hne. pose proof Hs as [Hc Ha].
  destruct (Ha line l P1 Hl) as (m1&md1&Hm1&Hmd1&_); [by left|].
  destruct (Ha line l P2 Hl) as (m2&md2&Hm2&Hmd2&Hin2); [by right|].
  assert (wp (removeLine line)
    (λ _ s', (∃ l', lineMeshes s' !! line = Some l' ∧
                    from l' = None ∧ to l' = Some P2) ∧
             meshes s' !! P2 = meshes s !! P2 ∧ line ∉ scene s')
    (λ _ _, False) s) as Hwp.
  { unfold removeLine. eapply wp_bind, wp_getLine_ok; [done|].
    rewrite Hf, Ht. apply wp_bind.
    eapply wp_mono; [by eapply (disconnectLine_spec P1 line)| |done].
    intros ? s1 (Hs1&Hms1&Hsc1&_&l1&Hl1&Hf1&Ht1). simpl.
    assert (line ∈ scene s1) as Hlive1 by (by rewrite Hsc1).
    unfold fromAfter in Hf1. unfold toAfter in Ht1.
    rewrite bool_decide_eq_true_2 in Hf1 by done.
    rewrite bool_decide_eq_false_2 in Ht1 by congruence.
    assert (meshes s1 !! P1
            = Some (withLines m1 (type md1) (splice1 line (lines md1))))
      as Hm1' by (by rewrite Hms1, lookup_insert_eq).
    apply wp_bind.
    eapply wp_mono;
      [by eapply (disconnectLine_spec P1 line _ _ l1 s1 Hs1 Hm1')| |done].
    intros ? s2 (_&Hms2&Hsc2&_&l2&Hl2&Hf2&Ht2). simpl.
    unfold fromAfter in Hf2. unfold toAfter in Ht2.
    rewrite bool_decide_eq_false_2 in Hf2 by congruence.
    rewrite bool_decide_eq_false_2 in Ht2 by congruence.
    apply wp_bind, wp_modify, wp_modify. simpl. split_and!.
    - exists l2. split_and!; congruence.
    - by rewrite Hms2, Hms1, !lookup_insert_ne.
    - intros [_ Hn]%elem_of_difference. apply Hn. by apply elem_of_singleton. }
  apply wp_ok in Hwp as (s'&[]&Hrun&(l'&Hl'&Hf'&Ht')&HP2&Hsc).
  exists s', l'. split_and!; [done..| |done].
  exists m2, md2. split_and!; [congruence|done..].
Qed.

Lemma removeLine_leaves_to_bound_witness :
  reach twoBoxes ∧
  lineMeshes twoBoxes !! 2 = Some (mkLinesMesh [0; 1] (Some 0) (Some 1)) ∧
  2 ∈ scene twoBoxes ∧
  0 ≠ 1 ∧
  ∃ s' l', removeLine 2 twoBoxes = (s', Ok tt) ∧
           lineMeshes s' !! 2 = Some l' ∧
           from l' = None ∧ to l' = Some 1 ∧
           meshes s' !! 1 = meshes twoBoxes !! 1 ∧
           attachedTo s' 1 2 ∧
           2 ∉ scene s'.
Proof.
  assert (reach twoBoxes) as Hr by (by apply reach_runAll; [apply reach_init|]).
  assert (2 ∈ scene twoBoxes) as Hin
    by (apply (bool_decide_unpack (2 ∈ scene twoBoxes)); by vm_compute).
  split_and!; [done..|].
  by apply (removeLine_leaves_to_bound twoBoxes 2 0 1
              (mkLinesMesh [0; 1] (Some 0) (Some 1))).
Defined.

(** The same call, evaluated: box 1 keeps the line in its list. *)
Example removeLine_two_boxes :
  ∃ s', removeLine 2 twoBoxes = (s', Ok tt) ∧
        lineMeshes s' !! 2 = Some (mkLinesMesh [2; 1] None (Some 1)) ∧
        meshes s' !! 0 = Some (mkMesh 0 None (Some (mkMetadata "box" []))) ∧
        meshes s' !! 1 = Some (mkMesh 1 None (Some (mkMetadata "box" [2]))).
Proof. eexists. split; [by vm_compute|]. by vm_compute. Qed.

(** ** C3: a line from a mesh to itself *)

(** C3 holds up to its last part, where the code does otherwise:
    [addLine(P, P)] returns one new line with [from] and [to] both [P],
    and pushes it onto [P.metadata.lines] twice, so that the list ends in
    two entries of the line (and, the line being new, holds it exactly
    twice), where [connectLine] would have pushed it once. *)
Theorem addLine_self_listed_twice (s : State) (P : Name) (m : Mesh)
    (md : Metadata) :
  reach s → meshes s !! P = Some m → metadata m = Some md →
  ∃ s', addLine P P s = (s', Ok (nextId s)) ∧
        lineMeshes s' !! nextId s
        = Some (mkLinesMesh [position m; position m] (Some P) (Some P)) ∧
        meshes s' !! P
        = Some (withLines m (type md) (lines md ++ [nextId s; nextId s])) ∧
        nextId s ∉ lines md.
Proof.
  intros [Hc _]%reach_wf Hm Hmd.
  assert (wp (addLine P P)
    (λ line s', line = nextId s ∧
       lineMeshes s' !! nextId s
       = Some (mkLinesMesh [position m; position m] (Some P) (Some P)) ∧
       meshes s' !! P
       = Some (withLines m (type md) (lines md ++ [nextId s; nextId s])))
    (λ _ _, False) s) as Hwp.
  { unfold addLine.
    eapply wp_bind, wp_getMesh_ok; [done|].
    eapply wp_bind, wp_getMesh_ok; [done|].
    apply wp_bind, wp_RandomId. unfold CreateLines.
    apply wp_bind, wp_bind, wp_modify, wp_bind, wp_modify, wp_ret.
    eapply wp_bind, (wp_push_ok P _ m md); [done..|].
    eapply wp_bind, wp_push_ok; [simpl; by rewrite lookup_insert_eq|done|].
    apply wp_ret. simpl. split_and!; [done| |].
    - by rewrite lookup_insert_eq.
    - rewrite lookup_insert_eq. unfold withLines. simpl.
      by rewrite <-app_assoc. }
  apply wp_ok in Hwp as (s'&line&Hrun&->&Hl&Hp).
  exists s'. split_and!; [done..|]. intros Hin.
  destruct (core_lines _ Hc _ _ _ _ Hm Hmd Hin) as [l Hl'].
  destruct (core_line _ Hc _ _ Hl'). lia.
Qed.

Lemma addLine_self_listed_twice_witness :
  reach oneBox ∧
  meshes oneBox !! 0 = Some (mkMesh 0 None (Some (mkMetadata "box" []))) ∧
  ∃ s', addLine 0 0 oneBox = (s', Ok 1) ∧
        lineMeshes s' !! 1 = Some (mkLinesMesh [0; 0] (Some 0) (Some 0)) ∧
        meshes s' !! 0 = Some (mkMesh 0 None (Some (mkMetadata "box" [1; 1]))) ∧
        1 ∉ [].
Proof.
  assert (reach oneBox) as Hr by (by apply reach_runAll; [apply reach_init|]).
  split_and!; [done..|].
  by apply (addLine_self_listed_twice oneBox 0
              (mkMesh 0 None (Some (mkMetadata "box" [])))
              (mkMetadata "box" [])).
Defined.

(** ** C4: binding an end that is already bound *)




(** ** C5: moving a mesh moves the ends bound to it *)

(** C5, as stated, fails on a line from a mesh to itself: both points are
    the position of the mesh, and the point at the other end moves from
    the origin to (5, 0, 0) with it. *)
Lemma move_propagation_fails_on_self_loop :
  reach selfLoop ∧
  pointAt selfLoop 1 1 = Some Vector3.Zero ∧
  pointAt (exec (moveTo 0 x5) selfLoop) 1 1 = Some (Vector3.mk 5 0 0) ∧
  ¬ move_propagation selfLoop 0 1.
Proof.
  split; [by apply reach_runAll; [apply reach_init|]|].
  split; [by vm_compute|]. split; [by vm_compute|]. intros H.
  destruct (H (mkLinesMesh [0; 0] (Some 0) (Some 0))) as (_&_&Heq);
    [by vm_compute..|].
  vm_compute in Heq. discriminate.
Qed.

(** C5, amended: in a state reached by the ten calls, for a mesh [P] at
    the position [v] bound at [from] of a line [C] whose [to] is not bound
    to [P] as well, after [moveTo(P, { x: 5 })], whether the call returns
    or throws, [P.position] and [C.points[0]] are [v + (target - v)] in
    floating-point arithmetic, the absent [y] and [z] of the target being
    those of [v] and not 0; for [P] at the origin that is (5, 0, 0).  The
    point at the other end is what it was.  The call returns normally
    when every line listed on [P] is in the scene, and throws a
    [TypeError] otherwise. *)
Theorem moveTo_propagates (s : State) (P C : Name) (l : LinesMesh)
    (v : Vector3.t) :
  reach s → lineMeshes s !! C = Some l → from l = Some P → to l ≠ Some P →
  positionOf s P = Some v →
  let s' := exec (moveTo P x5) s in
  let v' := Vector3.mk (Vector3.x v + (5 - Vector3.x v))
                       (Vector3.y v + (Vector3.y v - Vector3.y v))
                       (Vector3.z v + (Vector3.z v - Vector3.z v)) in
  positionOf s' P = Some v' ∧
  pointAt s' C 0 = Some v' ∧
  pointAt s' C 1 = pointAt s C 1 ∧
  (v = Vector3.Zero → v' = Vector3.mk 5 0 0) ∧
  (moveTo P x5 s).2 = updated s (listOf s P).
Proof.
  intros Hwf%reach_wf Hl Hf Ht Hpos. pose proof Hwf as [Hc _].
  unfold positionOf in Hpos.
  destruct (meshes s !! P) as [m|] eqn:Hm; [simpl in Hpos|done].
  destruct (core_mesh _ Hc _ _ Hm) as (_&_&[md Hmd]).
  unfold exec. rewrite (moveTo_run s P x5 m md v) by done. cbv zeta.
  assert (listOf s P = lines md) as ->
    by (unfold listOf; rewrite Hm; simpl; by rewrite Hmd).
  change (movedTo v x5)
    with (Vector3.mk (Vector3.x v + (5 - Vector3.x v))
                     (Vector3.y v + (Vector3.y v - Vector3.y v))
                     (Vector3.z v + (Vector3.z v - Vector3.z v))).
  destruct (core_line _ Hc _ _ Hl) as (_&a&b&Hpts&_&_&Ha&Hb).
  rewrite Hf in Ha. destruct Ha as (m'&Hm'&<-). simplify_eq.
  assert (b ≠ position m) as Hne.
  { destruct (to l) as [P2|] eqn:Hto.
    - destruct Hb as (m2&Hm2&<-). intros Heq.
      apply Ht. f_equal. by eapply (core_pos _ Hc).
    - intros Heq. exact (Hb _ _ Hm (eq_sym Heq)). }
  unfold positionOf, pointAt. simpl. rewrite Hm, Hl. simpl. rewrite Hpts. simpl.
  rewrite lookup_insert_eq, lookup_insert_ne by done.
  split_and!; [done..| |done]. by intros ->.
Qed.

Lemma moveTo_propagates_witness :
  reach raised ∧
  lineMeshes raised !! 2 = Some (mkLinesMesh [0; 1] (Some 0) (Some 1)) ∧
  positionOf raised 0 = Some (Vector3.mk 0 2 0) ∧
  positionOf (exec (moveTo 0 x5) raised) 0 = Some (Vector3.mk 5 2 0) ∧
  pointAt (exec (moveTo 0 x5) raised) 2 0 = Some (Vector3.mk 5 2 0) ∧
  pointAt (exec (moveTo 0 x5) raised) 2 1 = pointAt raised 2 1 ∧
  (Vector3.mk 0 2 0 = Vector3.Zero →
   Vector3.mk (0 + (5 - 0)) (2 + (2 - 2)) (0 + (0 - 0)) = Vector3.mk 5 0 0) ∧
  (moveTo 0 x5 raised).2 = updated raised (listOf raised 0).
Proof.
  assert (reach raised) as Hr by (by apply reach_runAll; [apply reach_init|]).
  split; [done|]. split; [by vm_compute|]. split; [by vm_compute|].
  apply (moveTo_propagates raised 0 2 (mkLinesMesh [0; 1] (Some 0) (Some 1))
           (Vector3.mk 0 2 0)); [done|by vm_compute|done|done|by vm_compute].
Defined.

(** ** C6: [root] along the parent chain *)

Lemma ancestor_add s i j mesh :
  ancestor s (i + j) mesh = ancestor s i mesh ≫= ancestor s j.
Proof.
  revert mesh. induction i as [|i IH]; intros mesh; simpl; [done|].
  destruct (parentOf s mesh); simpl; [apply IH | done].
Qed.

Lemma ancestor_S s n mesh :
  ancestor s (S n) mesh = ancestor s n mesh ≫= parentOf s.
Proof.
  replace (S n) with (n + 1) by lia. rewrite ancestor_add.
  destruct (ancestor s n mesh) as [a|]; simpl; [|done].
  by destruct (parentOf s a).
Qed.

Lemma ancestor_beyond s n k mesh r :
  ancestor s n mesh = Some r → parentOf s r = None → n < k →
  ancestor s k mesh = None.
Proof.
  intros Hn Hr Hk. replace k with (n + S (k - n - 1)) by lia.
  rewrite ancestor_add, Hn. simpl. by rewrite Hr.
Qed.

Lemma furthest_unique s mesh r1 r2 :
  furthest s mesh r1 → furthest s mesh r2 → r1 = r2.
Proof.
  intros (n1&H1&Hp1) (n2&H2&Hp2).
  destruct (Nat.lt_trichotomy n1 n2) as [Hlt|[->|Hlt]].
  - rewrite (ancestor_beyond _ _ _ _ _ H1 Hp1 Hlt) in H2. done.
  - congruence.
  - rewrite (ancestor_beyond _ _ _ _ _ H2 Hp2 Hlt) in H1. done.
Qed.

Lemma root_enough s n mesh r fuel :
  ancestor s n mesh = Some r → parentOf s r = None → n < fuel →
  root fuel s mesh = Some r.
Proof.
  revert mesh fuel. induction n as [|n IH]; intros mesh [|fuel]; simpl;
    try lia.
  - intros [= ->] -> _. done.
  - destruct (parentOf s mesh) as [p|]; simpl; [|done].
    intros. apply (IH p); [done..|lia].
Qed.

Lemma root_Some s fuel mesh r :
  root fuel s mesh = Some r →
  ∃ n, n < fuel ∧ ancestor s n mesh = Some r ∧ parentOf s r = None.
Proof.
  revert mesh. induction fuel as [|fuel IH]; intros mesh; simpl; [done|].
  destruct (parentOf s mesh) as [p|] eqn:Hp.
  - intros (n&?&?&?)%IH. exists (S n). simpl. rewrite Hp. split_and!; [lia|done..].
  - intros [= <-]. exists 0. split_and!; [lia|done..].
Qed.

(** On a chain with a cycle no depth suffices. *)
Lemma root_cyclic s mesh fuel : cyclic s mesh → root fuel s mesh = None.
Proof.
  intros (i&j&a&Hij&Hi&Hj).
  destruct (root fuel s mesh) as [r|] eqn:Hroot; [|done].
  apply root_Some in Hroot as (n&_&Hn&Hr).
  destruct (decide (n < j)) as [Hlt|Hge].
  { by rewrite (ancestor_beyond _ _ _ _ _ Hn Hr Hlt) in Hj. }
  assert (ancestor s (n - j) a = Some r) as H1.
  { replace n with (j + (n - j)) in Hn by lia.
    by rewrite ancestor_add, Hj in Hn. }
  assert (ancestor s (n - i) a = Some r) as H2.
  { replace n with (i + (n - i)) in Hn by lia.
    by rewrite ancestor_add, Hi in Hn. }
  rewrite (ancestor_beyond _ (n - j) (n - i) _ _ H1 Hr) in H2; [done|lia].
Qed.

(** Along the first [n] links either a parentless node shows up or every
    node has a parent. *)
Lemma chain_prefix s mesh n :
  (∃ k r, k ≤ n ∧ ancestor s k mesh = Some r ∧ parentOf s r = None) ∨
  (∀ k, k ≤ n → ∃ a, ancestor s k mesh = Some a ∧ is_Some (parentOf s a)).
Proof.
  induction n as [|n [(k&r&?&?&?)|IH]].
  - destruct (parentOf s mesh) as [p|] eqn:Hp.
    + right. intros k ?. replace k with 0 by lia. exists mesh. by rewrite Hp.
    + left. by exists 0, mesh.
  - left. exists k, r. split_and!; [lia|done..].
  - destruct (IH n) as (a&Ha&[p Hp]); [done|].
    assert (ancestor s (S n) mesh = Some p) as Hs
      by (by rewrite ancestor_S, Ha).
    destruct (parentOf s p) as [q|] eqn:Hq.
    + right. intros k Hk. destruct (decide (k = S n)) as [->|].
      * exists p. by rewrite Hq.
      * apply IH. lia.
    + left. exists (S n), p. by split_and!.
Qed.

Lemma parentOf_dom s a : is_Some (parentOf s a) → a ∈ dom (meshes s).
Proof.
  unfold parentOf. intros [p Hp]. apply elem_of_dom.
  destruct (meshes s !! a); [by eexists | done].
Qed.

(** An acyclic chain ends, within as many links as there are nodes. *)
Lemma acyclic_ends s mesh :
  acyclic s mesh →
  ∃ k r, k ≤ size (meshes s) ∧ ancestor s k mesh = Some r ∧
         parentOf s r = None.
Proof.
  intros Hac. destruct (chain_prefix s mesh (size (meshes s))) as [H|H]; [done|].
  exfalso.
  set (f := λ k, default 0 (ancestor s k mesh)).
  set (l := f <$> seq 0 (S (size (meshes s)))).
  assert (NoDup l) as Hnd.
  { apply NoDup_fmap_2_strong; [|apply NoDup_seq].
    intros x y [_ Hx]%elem_of_seq [_ Hy]%elem_of_seq. unfold f.
    destruct (H x) as (a&Ha&_); [lia|]. destruct (H y) as (b&Hb&_); [lia|].
    rewrite Ha, Hb. simpl. intros <-. by eapply Hac. }
  assert (list_to_set l ⊆ dom (meshes s)) as Hsub.
  { intros a (k&->&[_ Hk]%elem_of_seq)%elem_of_list_to_set%list_elem_of_fmap.
    unfold f. destruct (H k) as (b&Hb&Hp); [lia|]. rewrite Hb. simpl.
    by apply parentOf_dom. }
  apply subseteq_size in Hsub.
  rewrite size_list_to_set, size_dom in Hsub by done.
  subst l. rewrite length_fmap, length_seq in Hsub. lia.
Qed.

(** C6, as stated, fails on a chain with a cycle: [root] has no guard, no
    depth of recursion lets it return, and no [CycleError] is raised (a
    JavaScript engine ends the recursion by exhausting its call stack). *)
Lemma root_never_returns_on_cycle :
  cyclic withLoop 2 ∧ ∀ fuel, root fuel withLoop 2 = None.
Proof.
  assert (cyclic withLoop 2) as Hc
    by (exists 0, 2, 2; split_and!; [lia | by vm_compute..]).
  split; [done|]. intros fuel. by apply root_cyclic.
Qed.

(** C6, amended: on an acyclic chain [root] returns the furthest ancestor,
    the one parentless node of the chain, as soon as the depth allowed
    exceeds the number of nodes; on a chain with a cycle it returns at no
    depth (it does not detect the cycle and raises no [CycleError]). *)
Theorem root_furthest_or_never (s : State) (mesh : Name) :
  (acyclic s mesh →
   ∃ r, furthest s mesh r ∧ (∀ r', furthest s mesh r' → r' = r) ∧
        ∀ fuel, size (meshes s) < fuel → root fuel s mesh = Some r) ∧
  (cyclic s mesh → ∀ fuel, root fuel s mesh = None).
Proof.
  split.
  - intros (k&r&Hk&Ha&Hp)%acyclic_ends. exists r.
    assert (furthest s mesh r) as Hr by (by exists k).
    split_and!; [done| |].
    + intros r' Hr'. by eapply furthest_unique.
    + intros fuel Hf. eapply root_enough; [done..|lia].
  - intros Hc fuel. by apply root_cyclic.
Qed.

Lemma root_furthest_or_never_witness :
  acyclic withChain 2 ∧ cyclic withLoop 3 ∧
  root 4 withChain 2 = Some 0 ∧ root 4 withChain 1 = Some 0 ∧
  (∃ r, furthest withChain 2 r ∧ (∀ r', furthest withChain 2 r' → r' = r) ∧
        ∀ fuel, size (meshes withChain) < fuel →
                root fuel withChain 2 = Some r) ∧
  ∀ fuel, root fuel withLoop 3 = None.
Proof.
  assert (acyclic withChain 2) as Hac.
  { intros [|[|[|i]]] [|[|[|j]]] a; vm_compute; congruence. }
  assert (cyclic withLoop 3) as Hcy
    by (exists 0, 2, 3; split_and!; [lia | by vm_compute..]).
  split_and!; [done|done|by vm_compute|by vm_compute| |].
  - by apply (root_furthest_or_never withChain 2).
  - by apply (root_furthest_or_never withLoop 3).
Defined.

(** ** C7: [importMesh] and the parentless meshes of the result *)

Lemma firstParentless_Some nodes i :
  firstParentless nodes = Some i →
  (∃ n, nodes !! i = Some n ∧ node_parent n = None) ∧
  (∀ j n, j < i → nodes !! j = Some n → is_Some (node_parent n)).
Proof.
  revert i. induction nodes as [|n nodes IH]; intros i; simpl; [done|].
  destruct (node_parent n) eqn:Hn.
  - destruct (firstParentless nodes) as [i'|]; [|done]. intros [= <-].
    destruct (IH i' eq_refl) as [Hi Hlt]. split; [done|].
    intros [|j] n' Hj; simpl; [intros [= <-]; by rewrite Hn|].
    apply Hlt. lia.
  - intros [= <-]. split; [by exists n|]. intros; lia.
Qed.

Lemma firstParentless_None nodes :
  firstParentless nodes = None → ∀ n, n ∈ nodes → is_Some (node_parent n).
Proof.
  induction nodes as [|n nodes IH]; simpl; [by intros _ ? ?%elem_of_nil|].
  destruct (node_parent n) eqn:Hn; [|done].
  destruct (firstParentless nodes); [done|]. intros _ n' [->|Hin]%elem_of_cons.
  - by rewrite Hn.
  - by apply IH.
Qed.

Lemma loadNodes_old rn name p nodes ms k :
  k < name → loadNodes rn name p nodes ms !! k = ms !! k.
Proof.
  revert name p. induction nodes as [|n nodes IH]; intros name p Hk; simpl;
    [done|].
  rewrite lookup_insert_ne by lia. apply IH. lia.
Qed.

Lemma loadNodes_new rn name p nodes ms i n :
  nodes !! i = Some n →
  loadNodes rn name p nodes ms !! (name + i)
  = Some (mkMesh (p + i) (rn <$> node_parent n) (node_metadata n)).
Proof.
  revert name p i. induction nodes as [|n' nodes IH]; intros name p i; [done|].
  destruct i as [|i]; simpl.
  - intros [= ->]. by rewrite !Nat.add_0_r, lookup_insert_eq.
  - intros Hi. rewrite lookup_insert_ne by lia.
    rewrite <-!Nat.add_succ_comm. by apply IH.
Qed.

Lemma find_parentless s base nodes :
  (∀ i n, nodes !! i = Some n →
          parentOf s (base + i) = None ↔ node_parent n = None) →
  List.find (λ k, if parentOf s k is Some _ then false else true)
            (seq base (length nodes))
  = (λ i, base + i) <$> firstParentless nodes.
Proof.
  revert base. induction nodes as [|n nodes IH]; intros base Hp; simpl; [done|].
  pose proof (Hp 0 n eq_refl) as H0. rewrite Nat.add_0_r in H0.
  destruct (parentOf s base) eqn:Hb, (node_parent n) eqn:Hn;
    try (by destruct H0 as [H1 H2]; (discriminate H1 || discriminate H2)).
  - rewrite IH.
    + destruct (firstParentless nodes); simpl; [|done].
      f_equal. lia.
    + intros i n' Hi. rewrite Nat.add_succ_comm. by apply (Hp (S i)).
  - simpl. f_equal. lia.
Qed.

(** C7, as stated, fails: on a result with two parentless meshes
    [importMesh] does not fail; it returns the first of them. *)
Lemma importMesh_two_roots_returns_first :
  (importMesh "assets/" "pair.glb" (Some twoRoots) init).2 = Ok 0.
Proof. by vm_compute. Qed.

(** C7, amended: [importMesh] fails when the load fails (with the
    loader's rejection) and when no mesh of the result is parentless (a
    [TypeError] on the missing root); otherwise, with one parentless mesh
    or several, it returns the first parentless mesh in load order, under
    its new name, with [metadata.type = 'import'] and no lines. *)
Theorem importMesh_first_parentless (rootPath name : string)
    (loaded : option ImportResult) (s : State) :
  match loaded with
  | None => importMesh rootPath name None s = (s, Throw LoadError)
  | Some r =>
      match firstParentless (r_meshes r) with
      | None => (importMesh rootPath name (Some r) s).2 = Throw TypeError
      | Some i =>
          ∃ s' m, importMesh rootPath name (Some r) s
                  = (s', Ok (nextId s + i)) ∧
                  meshes s' !! (nextId s + i) = Some m ∧
                  parent m = None ∧
                  metadata m = Some (mkMetadata "import" [])
      end
  end.
Proof.
  destruct loaded as [r|]; [|done].
  set (nm := length (r_meshes r)).
  set (s1 := (ImportMeshAsync (Some r) s).1).
  assert (Hnew : ∀ i n, r_meshes r !! i = Some n →
    meshes s1 !! (nextId s + i)
    = Some (mkMesh (nextVec s + i)
                   (renamed (nextId s) nm <$> node_parent n)
                   (node_metadata n))).
  { intros i n Hi. subst s1. simpl.
    rewrite loadNodes_old by (apply lookup_lt_Some in Hi; lia).
    by apply loadNodes_new. }
  assert (Hfind : List.find (λ k, if parentOf s1 k is Some _ then false else true)
                    (seq (nextId s) nm)
                  = (λ i, nextId s + i) <$> firstParentless (r_meshes r)).
  { apply find_parentless. intros i n Hi. unfold parentOf.
    rewrite (Hnew _ _ Hi). simpl. by destruct (node_parent n). }
  assert (Hload : ImportMeshAsync (Some r) s = (s1, Ok (seq (nextId s) nm)))
    by done.
  assert (Hfound : findParentless (seq (nextId s) nm) s1
                   = (s1, Ok ((λ i, nextId s + i) <$> firstParentless (r_meshes r))))
    by (unfold findParentless, gets; by rewrite Hfind).
  unfold importMesh.
  rewrite (bind_Ok _ _ _ _ _ Hload), (bind_Ok _ _ _ _ _ Hfound).
  destruct (firstParentless (r_meshes r)) as [i|] eqn:Hi; simpl; [|done].
  destruct (firstParentless_Some _ _ Hi) as [(n&Hn&Hpar) _].
  assert (Hget : getMesh (nextId s + i) s1
    = (s1, Ok (mkMesh (nextVec s + i)
                      (renamed (nextId s) nm <$> node_parent n)
                      (node_metadata n))))
    by (unfold getMesh; by rewrite (Hnew _ _ Hn)).
  rewrite (bind_Ok _ _ _ _ _ (eq_refl : deref (Some (nextId s + i)) s1 = (s1, Ok _))).
  rewrite (bind_Ok _ _ _ _ _ Hget).
  do 2 eexists. split; [done|]. simpl. rewrite lookup_insert_eq.
  split; [done|]. simpl. by rewrite Hpar.
Qed.

(** ** C8: [addMesh] on an unsupported type *)

(** C8, as stated, fails: for the type ["cone"], outside box and sphere,
    [addMesh] raises nothing; it returns [null] normally. *)
Lemma addMesh_cone_returns_null : addMesh "cone" [] init = (init, Ok None).
Proof. reflexivity. Qed.

(** C8, amended: for every type other than box and sphere, [addMesh]
    returns [null] without raising, and the heap, the scene registry
    included, is the one before the call. *)
Theorem addMesh_unsupported (type : string) (opt : Options) (s : State) :
  type ≠ "box" → type ≠ "sphere" → addMesh type opt s = (s, Ok None).
Proof.
  intros Hb Hs. rewrite addMesh_run. unfold supported.
  apply String.eqb_neq in Hb, Hs. by rewrite Hb, Hs.
Qed.

Lemma addMesh_unsupported_witness :
  "cylinder" ≠ "box" ∧ "cylinder" ≠ "sphere" ∧
  addMesh "cylinder" [("height", 2%float)] (added "box" init)
  = (added "box" init, Ok None).
Proof.
  split_and!; [done..|]. by apply (addMesh_unsupported "cylinder").
Defined.

(** ** C9: [disconnectLine] twice *)

(** With nothing bound and nothing listed, [disconnectLine] on a line in
    the scene returns normally and changes nothing. *)
Lemma disconnectLine_unbound_noop s mesh line m md l :
  meshes s !! mesh = Some m → metadata m = Some md →
  lineMeshes s !! line = Some l → line ∈ scene s →
  ¬ boundTo l mesh → line ∉ lines md →
  disconnectLine (Some mesh) line s = (s, Ok tt).
Proof.
  intros Hm Hmd Hl Hlive Hb Hin.
  assert (find line (lines md) = false) as Hfind.
  { destruct (find line (lines md)) eqn:Hf; [|done]. by apply find_elem in Hf. }
  assert (wp (disconnectLine (Some mesh) line) (λ _ s', s' = s)
             (λ _ _, False) s) as Hwp.
  { unfold disconnectLine. apply wp_bind, wp_deref; [|done]. intros ? [= <-].
    eapply wp_bind, wp_getLines_ok; [done..|].
    eapply wp_bind, wp_getLine_ok; [done|].
    rewrite !bool_decide_eq_false_2
      by (intros ?; apply Hb; unfold boundTo; auto).
    apply wp_bind, wp_ret, wp_bind, wp_ret.
    eapply wp_bind, wp_getLines_ok; [done..|]. rewrite Hfind.
    apply wp_bind, wp_ret. apply wp_updateLine_ok; [by exists l|done..]. }
  by apply wp_ok in Hwp as (?&[]&->&->).
Qed.

Lemma splice1_NoDup line ls : NoDup ls → line ∉ splice1 line ls.
Proof.
  induction 1 as [|x ls Hx Hnd IH]; simpl; [by intros ?%elem_of_nil|].
  destruct (Nat.eqb_spec x line) as [->|Hne]; [done|].
  intros [->|Hin]%elem_of_cons; [done | by apply IH].
Qed.

(** Where the list of the mesh holds the line at most once,
    [disconnectLine] twice on a line in the scene is [disconnectLine]
    once: the second call changes nothing. *)
Lemma disconnectLine_idempotent s mesh line m md l :
  wf s → meshes s !! mesh = Some m → metadata m = Some md →
  lineMeshes s !! line = Some l → line ∈ scene s → NoDup (lines md) →
  ∃ s1, disconnectLine (Some mesh) line s = (s1, Ok tt) ∧
        disconnectLine (Some mesh) line s1 = (s1, Ok tt).
Proof.
  intros Hs Hm Hmd Hl Hlive Hnd.
  destruct (wp_ok _ _ _ (disconnectLine_spec mesh line m md l s Hs Hm Hmd Hl
                           Hlive))
    as (s1&[]&Hrun&_&Hms&Hsc&_&l1&Hl1&Hf1&Ht1).
  exists s1. split; [done|].
  eapply (disconnectLine_unbound_noop s1 mesh line _ (mkMetadata _ _) l1);
    [by rewrite Hms, lookup_insert_eq|done|done|by rewrite Hsc|
    |by apply splice1_NoDup].
  intros [Hb|Hb]; rewrite ?Hf1, ?Ht1 in Hb.
  - by apply fromAfter_unbound in Hb.
  - by apply toAfter_unbound in Hb.
Qed.

(** C9 on the code: [addLine(P, P)] pushed the line twice and one
    [disconnectLine] splices one entry out.  The first call frees both
    ends and leaves the box listing the line; the second call, with
    nothing bound any more, returns normally and removes that entry: the
    heap after two calls is not the heap after one. *)
Theorem disconnectLine_twice_differs :
  reach selfLoop ∧
  ∃ once twice,
    disconnectLine (Some 0) 1 selfLoop = (once, Ok tt) ∧
    disconnectLine (Some 0) 1 once = (twice, Ok tt) ∧
    lineMeshes once !! 1 = Some (mkLinesMesh [1; 2] None None) ∧
    lineMeshes twice !! 1 = Some (mkLinesMesh [1; 2] None None) ∧
    meshes once !! 0 = Some (mkMesh 0 None (Some (mkMetadata "box" [1]))) ∧
    meshes twice !! 0 = Some (mkMesh 0 None (Some (mkMetadata "box" []))) ∧
    once ≠ twice.
Proof.
  split; [by apply reach_runAll; [apply reach_init|]|].
  eexists _, _. split; [by vm_compute|]. split; [by vm_compute|].
  split_and!; [by vm_compute..|].
  intros Heq. apply (f_equal (λ s, meshes s !! 0)) in Heq.
  vm_compute in Heq. discriminate.
Qed.

(** ** C10: [removeLine] on a line whose [from] is free *)

(** C10: when [from] of the line is [null] and [to] is bound,
    [removeLine] skips the first test, enters the second and calls
    [disconnectLine(from, line)] with [from = null], whose first statement
    reads [mesh.metadata]: a [TypeError], raised before anything was
    written, so [to] stays bound and the line stays in the scene.  Hence
    the call returns normally only if [from] is bound whenever [to] is. *)
Theorem removeLine_free_from_faults (s : State) (line : Name) (l : LinesMesh) :
  lineMeshes s !! line = Some l →
  (from l = None → is_Some (to l) →
   removeLine line s = (s, Throw TypeError)) ∧
  (∀ s', removeLine line s = (s', Ok tt) →
         is_Some (to l) → is_Some (from l)).
Proof.
  intros Hl.
  assert (from l = None → is_Some (to l) →
          removeLine line s = (s, Throw TypeError)) as Hfault.
  { intros Hf [t Ht]. unfold removeLine, mbind, M_bind, bind, getLine.
    rewrite Hl, Hf, Ht. reflexivity. }
  split; [done|]. intros s' Hrun Ht.
  destruct (from l) eqn:Hf; [done|]. rewrite Hfault in Hrun; done.
Qed.

Lemma removeLine_free_from_faults_witness :
  reach halfBound ∧
  lineMeshes halfBound !! 2 = Some (mkLinesMesh [2; 1] None (Some 1)) ∧
  removeLine 2 halfBound = (halfBound, Throw TypeError).
Proof.
  split; [by apply reach_runAll; [apply reach_init|]|].
  split; [by vm_compute|].
  apply (removeLine_free_from_faults halfBound 2
           (mkLinesMesh [2; 1] None (Some 1)));
    [by vm_compute | done | by eexists].
Defined.

(** * Further properties of the code *)

(** ** X1: the points of a line and the positions of its meshes *)

(** X1: after every sequence of the ten calls a line has exactly two
    points, and the point at an end bound to a mesh reads as the position
    of that mesh: [points[0]] for [from], [points[1]] for [to]. *)
Theorem reach_points_follow (s : State) (line : Name) (l : LinesMesh) :
  reach s → lineMeshes s !! line = Some l →
  length (points l) = 2 ∧
  (∀ P, from l = Some P →
        is_Some (positionOf s P) ∧ pointAt s line 0 = positionOf s P) ∧
  (∀ P, to l = Some P →
        is_Some (positionOf s P) ∧ pointAt s line 1 = positionOf s P).
Proof.
  intros [Hc _]%reach_wf Hl.
  destruct (core_line _ Hc _ _ Hl) as (_&a&b&Hpts&Ha&Hb&Hf&Ht).
  unfold pointAt, positionOf. rewrite Hl. simpl. rewrite Hpts. simpl.
  split_and!; [done| |].
  - intros P HP. rewrite HP in Hf. destruct Hf as (m&Hm&<-).
    rewrite Hm. simpl. by destruct (core_mesh _ Hc _ _ Hm) as (_&?&_).
  - intros P HP. rewrite HP in Ht. destruct Ht as (m&Hm&<-).
    rewrite Hm. simpl. by destruct (core_mesh _ Hc _ _ Hm) as (_&?&_).
Qed.

Lemma reach_points_follow_witness :
  reach movedBoxes ∧
  lineMeshes movedBoxes !! 2 = Some (mkLinesMesh [0; 1] (Some 0) (Some 1)) ∧
  positionOf movedBoxes 0 = Some (Vector3.mk 5 0 0) ∧
  positionOf movedBoxes 1 = Some (Vector3.mk 0 2 0) ∧
  length [0; 1] = 2 ∧
  (∀ P, Some 0 = Some P →
        is_Some (positionOf movedBoxes P) ∧
        pointAt movedBoxes 2 0 = positionOf movedBoxes P) ∧
  (∀ P, Some 1 = Some P →
        is_Some (positionOf movedBoxes P) ∧
        pointAt movedBoxes 2 1 = positionOf movedBoxes P).
Proof.
  assert (reach movedBoxes) as Hr
    by (by apply reach_runAll; [apply reach_init|]).
  do 4 (split; [done || by vm_compute|]).
  by apply (reach_points_follow movedBoxes 2
              (mkLinesMesh [0; 1] (Some 0) (Some 1))).
Defined.

(** ** X2: what [move] moves *)

Lemma listOf_eq s mesh m md :
  meshes s !! mesh = Some m → metadata m = Some md →
  listOf s mesh = lines md.
Proof. intros Hm Hmd. unfold listOf. rewrite Hm. simpl. by rewrite Hmd. Qed.

(** What a write to the vector of [mesh] changes, in a well-formed heap:
    the position of [mesh] and the points of the ends bound to it. *)
Lemma putVector_values s mesh m w :
  wf s → meshes s !! mesh = Some m →
  let s' := putVector (position m) w s in
  positionOf s' mesh = Some w ∧
  (∀ k, k ≠ mesh → positionOf s' k = positionOf s k) ∧
  (∀ line l, lineMeshes s !! line = Some l →
     pointAt s' line 0
     = (if bool_decide (from l = Some mesh) then Some w else pointAt s line 0) ∧
     pointAt s' line 1
     = (if bool_decide (to l = Some mesh) then Some w else pointAt s line 1)).
Proof.
  intros [Hc _] Hm. simpl. split_and!.
  - unfold positionOf. simpl. rewrite Hm. simpl. by rewrite lookup_insert_eq.
  - intros k Hk. unfold positionOf. simpl.
    destruct (meshes s !! k) as [mk|] eqn:Hmk; simpl; [|done].
    rewrite lookup_insert_ne; [done|]. intros Heq. apply Hk.
    symmetry. by eapply (core_pos _ Hc).
  - intros line l Hl.
    destruct (core_line _ Hc _ _ Hl) as (_&a&b&Hpts&_&_&Hf&Ht).
    assert (Hend : ∀ e c, endpoint s e c →
      <[position m := w]> (vectors s) !! c
      = if bool_decide (e = Some mesh) then Some w else vectors s !! c).
    { intros [k|] c; simpl.
      - intros (mk&Hmk&<-). case_bool_decide as Hk.
        + simplify_eq. by rewrite lookup_insert_eq.
        + rewrite lookup_insert_ne; [done|]. intros Heq. apply Hk. f_equal.
          symmetry. by eapply (core_pos _ Hc).
      - intros Hfree. rewrite ?bool_decide_eq_false_2 by done.
        rewrite lookup_insert_ne; [done|]. by eapply Hfree. }
    unfold pointAt. simpl. rewrite Hl. simpl. rewrite Hpts. simpl.
    split; by apply Hend.
Qed.

(** X2: in a state reached by the ten calls, [move(mesh, diff)] returns
    normally when every line in the list of [mesh] is in the scene, and
    raises a [TypeError] when the list holds a line that was removed.
    Either way the position of [mesh] is the old one plus [diff] (absent
    components 0); the point of every line end bound to [mesh] reads as
    that new position; every other position and every other point reads as
    before, and no mesh, line or scene entry changes. *)
Theorem move_moves_bound_ends (s : State) (mesh : Name) (diff : Point.t) :
  reach s → isMesh s mesh →
  ∃ s' v, positionOf s mesh = Some v ∧
          move mesh diff s = (s', updated s (listOf s mesh)) ∧
          positionOf s' mesh = Some (Vector3.add v (moveVector diff)) ∧
          (∀ k, k ≠ mesh → positionOf s' k = positionOf s k) ∧
          (∀ line l, lineMeshes s !! line = Some l →
             pointAt s' line 0
             = (if bool_decide (from l = Some mesh)
                then Some (Vector3.add v (moveVector diff))
                else pointAt s line 0) ∧
             pointAt s' line 1
             = (if bool_decide (to l = Some mesh)
                then Some (Vector3.add v (moveVector diff))
                else pointAt s line 1)) ∧
          meshes s' = meshes s ∧ lineMeshes s' = lineMeshes s ∧
          scene s' = scene s.
Proof.
  intros Hs%reach_wf [m Hm]. pose proof Hs as [Hc _].
  destruct (core_mesh _ Hc _ _ Hm) as (_&[v Hv]&[md Hmd]).
  exists (putVector (position m) (Vector3.add v (moveVector diff)) s), v.
  destruct (putVector_values s mesh m (Vector3.add v (moveVector diff)) Hs Hm)
    as (Hp&Ho&Hl).
  split_and!; [| |done..].
  - unfold positionOf. by rewrite Hm.
  - rewrite (listOf_eq s mesh m md) by done. by apply move_run.
Qed.

Lemma move_moves_bound_ends_witness :
  reach stale ∧ isMesh stale 1 ∧
  listOf stale 1 = [2] ∧ updated stale (listOf stale 1) = Throw TypeError ∧
  ∃ s' v, positionOf stale 1 = Some v ∧
          move 1 (Point.mk None (Some 2%float) None) stale
          = (s', updated stale (listOf stale 1)) ∧
          positionOf s' 1
          = Some (Vector3.add v (moveVector (Point.mk None (Some 2%float) None))) ∧
          (∀ k, k ≠ 1 → positionOf s' k = positionOf stale k) ∧
          (∀ line l, lineMeshes stale !! line = Some l →
             pointAt s' line 0
             = (if bool_decide (from l = Some 1)
                then Some (Vector3.add v
                             (moveVector (Point.mk None (Some 2%float) None)))
                else pointAt stale line 0) ∧
             pointAt s' line 1
             = (if bool_decide (to l = Some 1)
                then Some (Vector3.add v
                             (moveVector (Point.mk None (Some 2%float) None)))
                else pointAt stale line 1)) ∧
          meshes s' = meshes stale ∧ lineMeshes s' = lineMeshes stale ∧
          scene s' = scene stale.
Proof.
  assert (reach stale) as Hr by (by apply reach_runAll; [apply reach_init|]).
  assert (isMesh stale 1) as Hm by (by apply isMeshb_true).
  split; [done|]. split; [done|]. split; [by vm_compute|].
  split; [by vm_compute|].
  by apply (move_moves_bound_ends stale 1).
Defined.

(** ** X3: [disconnectLine] freezes the point where it is *)

Lemma sameValues_refl s : sameValues s s.
Proof. done. Qed.

Lemma sameValues_trans s1 s2 s3 :
  sameValues s1 s2 → sameValues s2 s3 → sameValues s1 s3.
Proof.
  intros [H1 H2] [H3 H4]. split; intros; [by rewrite H3 | by rewrite H4].
Qed.

Lemma sameValues_putLines mesh m ty ls s :
  meshes s !! mesh = Some m →
  sameValues s (putMesh mesh (withLines m ty ls) s).
Proof.
  intros Hm. split; [|done]. intros k. unfold positionOf. simpl.
  rewrite lookup_insert. case_decide; [|done]. subst k. by rewrite Hm.
Qed.

(** A fresh vector is no position and no point of a well-formed heap. *)
Lemma alloc_positionOf s v k :
  wf_core s → positionOf (allocVector v s) k = positionOf s k.
Proof.
  intros Hc. unfold positionOf. simpl.
  destruct (meshes s !! k) as [m|] eqn:Hm; simpl; [|done].
  destruct (core_mesh _ Hc _ _ Hm) as (_&[w Hw]&_).
  rewrite lookup_insert_ne; [done|]. apply (core_vec _ Hc) in Hw. lia.
Qed.

Lemma alloc_points s v l line i :
  wf_core s → lineMeshes s !! line = Some l →
  (points l !! i ≫= λ a, <[nextVec s := v]> (vectors s) !! a)
  = (points l !! i ≫= λ a, vectors s !! a).
Proof.
  intros Hc Hl. destruct (core_line _ Hc _ _ Hl) as (_&a&b&Hpts&[va Ha]&[vb Hb]&_).
  apply (core_vec _ Hc) in Ha as Ha', Hb as Hb'.
  rewrite Hpts. destruct i as [|[|i]]; simpl; [..|done];
    by rewrite lookup_insert_ne by lia.
Qed.

Lemma freeFrom_values line l s :
  wf s → lineMeshes s !! line = Some l →
  wp (freeFrom line) (λ _ s', sameValues s s') (λ _ _, True) s.
Proof.
  intros [Hc _] Hl.
  destruct (core_line _ Hc _ _ Hl) as (_&a&b&Hpts&[va Ha]&[vb Hb]&_).
  eapply wp_freeFrom; [done|by rewrite Hpts|done|]. split.
  - intros k. by apply (alloc_positionOf s va k).
  - intros k i. unfold pointAt. simpl.
    destruct (decide (k = line)) as [->|Hne].
    + rewrite lookup_insert_eq, Hl. simpl. rewrite Hpts. simpl.
      apply (core_vec _ Hc) in Hb as Hb'.
      destruct i as [|[|i]]; simpl; [..|done].
      * by rewrite lookup_insert_eq.
      * by rewrite lookup_insert_ne by lia.
    + rewrite lookup_insert_ne by done.
      destruct (lineMeshes s !! k) as [lk|] eqn:Hk; simpl; [|done].
      by eapply alloc_points.
Qed.

Lemma freeTo_values line l s :
  wf s → lineMeshes s !! line = Some l →
  wp (freeTo line) (λ _ s', sameValues s s') (λ _ _, True) s.
Proof.
  intros [Hc _] Hl.
  destruct (core_line _ Hc _ _ Hl) as (_&a&b&Hpts&[va Ha]&[vb Hb]&_).
  eapply wp_freeTo; [done|by rewrite Hpts|done|]. split.
  - intros k. by apply (alloc_positionOf s vb k).
  - intros k i. unfold pointAt. simpl.
    destruct (decide (k = line)) as [->|Hne].
    + rewrite lookup_insert_eq, Hl. simpl. rewrite Hpts. simpl.
      apply (core_vec _ Hc) in Ha as Ha'.
      destruct i as [|[|i]]; simpl; [..|done].
      * by rewrite lookup_insert_ne by lia.
      * by rewrite lookup_insert_eq.
    + rewrite lookup_insert_ne by done.
      destruct (lineMeshes s !! k) as [lk|] eqn:Hk; simpl; [|done].
      by eapply alloc_points.
Qed.

(** [disconnectLine] on a line in the scene, with what it keeps: the heap
    stays well-formed, the ends bound to [mesh] are freed, one entry of
    the line leaves the list of [mesh], and every position and point reads
    as before. *)
Lemma disconnectLine_full mesh line m md l s :
  wf s → meshes s !! mesh = Some m → metadata m = Some md →
  lineMeshes s !! line = Some l → line ∈ scene s →
  wp (disconnectLine (Some mesh) line)
     (λ _ s', wf s' ∧ sameValues s s' ∧
        meshes s' = <[mesh := withLines m (type md) (splice1 line (lines md))]>
                      (meshes s) ∧
        scene s' = scene s ∧
        (∀ k, k ≠ line → lineMeshes s' !! k = lineMeshes s !! k) ∧
        ∃ l', lineMeshes s' !! line = Some l' ∧
              from l' = fromAfter mesh l ∧ to l' = toAfter mesh l)
     (λ _ _, False) s.
Proof.
  intros Hs Hm Hmd Hl Hlive.
  assert (wp (disconnectLine (Some mesh) line) (λ _ s', sameValues s s')
             (λ _ _, True) s) as Hval.
  { unfold disconnectLine.
    apply wp_bind, wp_deref; [|done]. intros ? [= <-].
    eapply wp_bind, wp_getLines_ok; [done..|].
    eapply wp_bind, wp_getLine_ok; [done|].
    apply wp_bind.
    assert (wp (if bool_decide (from l = Some mesh) then freeFrom line
                else mret tt)
      (λ _ s1, wf s1 ∧ sameValues s s1 ∧ meshes s1 = meshes s ∧
               isLine s1 line) (λ _ _, True) s) as H1.
    { destruct (bool_decide (from l = Some mesh)).
      - eapply wp_mono;
          [exact (wp_and _ _ _ _ _ _ (freeFrom_wf line l s Hs Hl)
                    (freeFrom_values line l s Hs Hl))|..]; [|done].
        intros ? s1 [(?&(?&_)&l1&?&_) ?]. split_and!; [done..|by exists l1].
      - apply wp_ret. split_and!; [done..|by exists l]. }
    eapply wp_mono; [exact H1| |done]. clear H1.
    intros ? s1 (Hs1&Hv1&Hm1&[l1 Hl1]). simpl. apply wp_bind.
    assert (wp (if bool_decide (to l = Some mesh) then freeTo line
                else mret tt)
      (λ _ s2, sameValues s s2 ∧ meshes s2 = meshes s ∧ isLine s2 line)
      (λ _ _, True) s1) as H2.
    { destruct (bool_decide (to l = Some mesh)).
      - eapply wp_mono;
          [exact (wp_and _ _ _ _ _ _ (freeTo_wf line l1 s1 Hs1 Hl1)
                    (freeTo_values line l1 s1 Hs1 Hl1))|..]; [|done].
        intros ? s2 [(?&(Hm2&_)&l2&?&_) ?].
        split_and!; [by eapply sameValues_trans|congruence|by exists l2].
      - apply wp_ret. split_and!; [done..|by exists l1]. }
    eapply wp_mono; [exact H2| |done]. clear H2.
    intros ? s2 (Hv2&Hm2&Hl2). simpl.
    assert (meshes s2 !! mesh = Some m) as Hm' by (by rewrite Hm2).
    eapply wp_bind, wp_getLines_ok; [done..|].
    apply wp_bind. destruct (find line (lines md)).
    - eapply wp_setLines_ok; [done..|]. apply wp_updateLine; [done| |done].
      intros _. eapply sameValues_trans; [done|]. by apply sameValues_putLines.
    - by apply wp_ret, wp_updateLine. }
  eapply wp_mono;
    [exact (wp_and _ _ _ _ _ _ (disconnectLine_spec mesh line m md l s
                                   Hs Hm Hmd Hl Hlive) Hval)|..].
  - by intros ? s' [(?&?&?&?&?) ?].
  - by intros ? s' [[] _].
Qed.

(** X3: in a state reached by the ten calls, [disconnectLine(mesh, line)]
    on a line that is in the scene returns normally and changes no
    coordinate: every position and every point of every line reads as
    before, the freed end included (it keeps a copy of the position).  The
    ends of the line bound to [mesh] are free afterwards, the other end
    and the other lines are as before, and a later [move] of [mesh],
    whether it returns or throws, leaves both points of the line where
    they are. *)
Theorem disconnectLine_freezes (s : State) (mesh line : Name) (l : LinesMesh)
    (diff : Point.t) :
  reach s → isMesh s mesh → lineMeshes s !! line = Some l → line ∈ scene s →
  ∃ s' l', disconnectLine (Some mesh) line s = (s', Ok tt) ∧
           sameValues s s' ∧
           lineMeshes s' !! line = Some l' ∧
           from l' = fromAfter mesh l ∧ to l' = toAfter mesh l ∧
           (∀ k, k ≠ line → lineMeshes s' !! k = lineMeshes s !! k) ∧
           pointAt (exec (move mesh diff) s') line 0 = pointAt s line 0 ∧
           pointAt (exec (move mesh diff) s') line 1 = pointAt s line 1.
Proof.
  intros Hs%reach_wf [m Hm] Hl Hlive. pose proof Hs as [Hc _].
  destruct (core_mesh _ Hc _ _ Hm) as (_&_&[md Hmd]).
  destruct (wp_ok _ _ _ (disconnectLine_full mesh line m md l s Hs Hm Hmd Hl
                           Hlive))
    as (s'&[]&Hrun&Hs'&[Hpos Hpt]&Hms&_&Hk&l'&Hl'&Hf&Ht).
  exists s', l'. split_and!; [done..| |].
  all: set (m' := withLines m (type md) (splice1 line (lines md)));
    assert (meshes s' !! mesh = Some m') as Hm'
      by (by rewrite Hms, lookup_insert_eq);
    destruct (core_mesh _ (proj1 Hs') _ _ Hm') as (_&[v Hv]&_);
    unfold exec;
    rewrite (move_run s' mesh diff m'
               (mkMetadata (type md) (splice1 line (lines md))) v) by done;
    cbn [fst];
    destruct (putVector_values s' mesh m' (Vector3.add v (moveVector diff))
                Hs' Hm') as (_&_&Hends);
    destruct (Hends line l' Hl') as [H0 H1];
    rewrite bool_decide_eq_false_2 in H0
      by (rewrite Hf; apply fromAfter_unbound);
    rewrite bool_decide_eq_false_2 in H1
      by (rewrite Ht; apply toAfter_unbound).
  - etransitivity; [exact H0|apply Hpt].
  - etransitivity; [exact H1|apply Hpt].
Qed.

Lemma disconnectLine_freezes_witness :
  reach movedBoxes ∧ isMesh movedBoxes 0 ∧
  lineMeshes movedBoxes !! 2 = Some (mkLinesMesh [0; 1] (Some 0) (Some 1)) ∧
  2 ∈ scene movedBoxes ∧
  ∃ s' l', disconnectLine (Some 0) 2 movedBoxes = (s', Ok tt) ∧
           sameValues movedBoxes s' ∧
           lineMeshes s' !! 2 = Some l' ∧
           from l' = fromAfter 0 (mkLinesMesh [0; 1] (Some 0) (Some 1)) ∧
           to l' = toAfter 0 (mkLinesMesh [0; 1] (Some 0) (Some 1)) ∧
           (∀ k, k ≠ 2 → lineMeshes s' !! k = lineMeshes movedBoxes !! k) ∧
           pointAt (exec (move 0 x5) s') 2 0 = pointAt movedBoxes 2 0 ∧
           pointAt (exec (move 0 x5) s') 2 1 = pointAt movedBoxes 2 1.
Proof.
  assert (reach movedBoxes) as Hr
    by (by apply reach_runAll; [apply reach_init|]).
  assert (isMesh movedBoxes 0) as Hm by (by apply isMeshb_true).
  assert (2 ∈ scene movedBoxes) as Hin
    by (apply (bool_decide_unpack (2 ∈ scene movedBoxes)); by vm_compute).
  do 4 (split; [done || by vm_compute|]).
  by apply (disconnectLine_freezes movedBoxes 0 2).
Defined.

(** ** X4: [disconnectLinesOnMesh] *)

Lemma fromAfter_again mesh l l' :
  from l' = fromAfter mesh l → fromAfter mesh l' = fromAfter mesh l.
Proof.
  unfold fromAfter. intros ->.
  destruct (bool_decide (from l = Some mesh)) eqn:Hb; [done|]. by rewrite Hb.
Qed.

Lemma toAfter_again mesh l l' :
  to l' = toAfter mesh l → toAfter mesh l' = toAfter mesh l.
Proof.
  unfold toAfter. intros ->.
  destruct (bool_decide (to l = Some mesh)) eqn:Hb; [done|]. by rewrite Hb.
Qed.

Lemma splice1_head line ls : splice1 line (line :: ls) = ls.
Proof. simpl. by rewrite Nat.eqb_refl. Qed.

(** The loop of [disconnectLinesOnMesh] over the snapshot [ls] of the list
    of [mesh], all of whose lines are in the scene: each round takes the
    head of what is left of the list, so the list is empty at the end. *)
Lemma disconnectLines_loop mesh ls : ∀ s m md,
  wf s → meshes s !! mesh = Some m → metadata m = Some md → lines md = ls →
  (∀ x, x ∈ ls → x ∈ scene s) →
  wp (forEach (disconnectLine (Some mesh)) ls)
     (λ _ s', wf s' ∧ sameValues s s' ∧
        meshes s' = <[mesh := withLines m (type md) []]> (meshes s) ∧
        scene s' = scene s ∧
        (∀ k, k ∉ ls → lineMeshes s' !! k = lineMeshes s !! k) ∧
        (∀ k l, k ∈ ls → lineMeshes s !! k = Some l →
           ∃ l', lineMeshes s' !! k = Some l' ∧
                 from l' = fromAfter mesh l ∧ to l' = toAfter mesh l))
     (λ _ _, False) s.
Proof.
  induction ls as [|x rest IH]; intros s m md Hs Hm Hmd Hls Hlive.
  - apply wp_ret. split_and!; [done|apply sameValues_refl| |done|done|].
    + rewrite <- Hls, withLines_same, insert_id; done.
    + intros k l Hk. by apply elem_of_nil in Hk.
  - pose proof Hs as [Hc _].
    destruct (core_lines _ Hc mesh m md x Hm Hmd) as [l Hl].
    { rewrite Hls. apply elem_of_cons. by left. }
    assert (x ∈ scene s) as Hx by (apply Hlive, elem_of_cons; by left).
    simpl. apply wp_bind.
    eapply wp_mono; [by apply (disconnectLine_full mesh x m md l)| |done].
    intros ? s1 (Hs1&Hv1&Hm1&Hsc1&Hk1&l1&Hl1&Hf1&Ht1).
    rewrite Hls, splice1_head in Hm1.
    eapply wp_mono;
      [apply (IH s1 (withLines m (type md) rest) (mkMetadata (type md) rest));
       [done|by rewrite Hm1, lookup_insert_eq|done|done|]| |done].
    { intros y Hy. rewrite Hsc1. apply Hlive, elem_of_cons. by right. }
    intros ? s2 (Hs2&Hv2&Hm2&Hsc2&Hk2&Hb2). simpl in Hm2.
    split_and!; [done|by eapply sameValues_trans| |congruence| |].
    + rewrite Hm2, Hm1. apply insert_insert_eq.
    + intros k [Hkx Hkr]%not_elem_of_cons. by rewrite Hk2, Hk1.
    + intros k lk Hk Hlk. destruct (decide (k = x)) as [->|Hne].
      * simplify_eq. destruct (decide (x ∈ rest)) as [Hin|Hnin].
        -- destruct (Hb2 x l1 Hin Hl1) as (l2&Hl2&Hf2&Ht2). exists l2.
           split_and!; [done|..].
           ++ rewrite Hf2. by apply fromAfter_again.
           ++ rewrite Ht2. by apply toAfter_again.
        -- exists l1. by rewrite Hk2.
      * apply elem_of_cons in Hk as [?|Hk]; [done|].
        apply Hb2; [done|]. by rewrite Hk1.
Qed.

(** [disconnectLinesOnMesh] on a mesh of a well-formed heap whose list
    holds lines of the scene only. *)
Lemma disconnectLinesOnMesh_spec mesh m md s :
  wf s → meshes s !! mesh = Some m → metadata m = Some md →
  (∀ x, x ∈ lines md → x ∈ scene s) →
  wp (disconnectLinesOnMesh mesh)
     (λ _ s', wf s' ∧ sameValues s s' ∧
        meshes s' = <[mesh := withLines m (type md) []]> (meshes s) ∧
        scene s' = scene s ∧
        (∀ k, lineMeshes s !! k = None → lineMeshes s' !! k = None) ∧
        ∀ k l, lineMeshes s !! k = Some l →
          ∃ l', lineMeshes s' !! k = Some l' ∧
                from l' = fromAfter mesh l ∧ to l' = toAfter mesh l)
     (λ _ _, False) s.
Proof.
  intros Hs Hm Hmd Hlive. unfold disconnectLinesOnMesh.
  eapply wp_bind, wp_getLines_ok; [done..|].
  eapply wp_mono; [by apply (disconnectLines_loop mesh (lines md) s m md)| |done].
  intros ? s' (Hs'&Hv&Hms&Hsc&Hout&Hin). split_and!; [done..| |].
  { intros k Hk. rewrite Hout; [done|]. intros Hin'.
    destruct (core_lines _ (proj1 Hs) mesh m md k Hm Hmd Hin') as [? ?].
    congruence. }
  intros k l Hl. destruct (decide (k ∈ lines md)) as [Hk|Hk]; [by apply Hin|].
  exists l. rewrite Hout by done. split; [done|].
  destruct Hs as [_ Ha]. unfold fromAfter, toAfter.
  rewrite !bool_decide_eq_false_2; [done|..]; intros Hb; apply Hk.
  - destruct (Ha k l mesh Hl) as (m'&md'&?&?&?); [by right|]. by simplify_eq.
  - destruct (Ha k l mesh Hl) as (m'&md'&?&?&?); [by left|]. by simplify_eq.
Qed.

(** X4: in a state reached by the ten calls, on a mesh whose list holds
    lines of the scene only, [disconnectLinesOnMesh(mesh)] returns
    normally and leaves the list of [mesh] empty; on every line the ends
    that were bound to [mesh] are free and the other ends are as before,
    so no line is bound to [mesh] any more; the other meshes, the scene
    and every coordinate are as before. *)
Theorem disconnectLinesOnMesh_frees (s : State) (mesh : Name) :
  reach s → isMesh s mesh →
  (∀ line, line ∈ listOf s mesh → line ∈ scene s) →
  ∃ s' m md,
    disconnectLinesOnMesh mesh s = (s', Ok tt) ∧
    meshes s !! mesh = Some m ∧ metadata m = Some md ∧
    meshes s' = <[mesh := withLines m (type md) []]> (meshes s) ∧
    scene s' = scene s ∧ sameValues s s' ∧
    (∀ line l, lineMeshes s !! line = Some l →
       ∃ l', lineMeshes s' !! line = Some l' ∧
             from l' = fromAfter mesh l ∧ to l' = toAfter mesh l) ∧
    (∀ line l', lineMeshes s' !! line = Some l' → ¬ boundTo l' mesh) ∧
    reach s'.
Proof.
  intros Hr [m Hm] Hlive. pose proof (reach_wf _ Hr) as Hs.
  destruct (core_mesh _ (proj1 Hs) _ _ Hm) as (_&_&[md Hmd]).
  rewrite (listOf_eq s mesh m md) in Hlive by done.
  destruct (wp_ok _ _ _ (disconnectLinesOnMesh_spec mesh m md s Hs Hm Hmd
                           Hlive))
    as (s'&[]&Hrun&Hs'&Hv&Hms&Hsc&Hdom&Hl).
  exists s', m, md. split_and!; [done..| |].
  - intros line l' Hl'.
    destruct (lineMeshes s !! line) as [l|] eqn:Hline;
      [|by rewrite (Hdom line Hline) in Hl'].
    destruct (Hl line l Hline) as (l2&?&Hf&Ht). simplify_eq.
    intros [Hb|Hb]; rewrite ?Hf, ?Ht in Hb.
    + by apply fromAfter_unbound in Hb.
    + by apply toAfter_unbound in Hb.
  - replace s' with (run (OpDisconnectLinesOnMesh mesh) s)
      by (simpl; unfold exec; by rewrite Hrun).
    apply reach_step; [done|by exists m].
Qed.

Lemma disconnectLinesOnMesh_frees_witness :
  reach hub ∧ isMesh hub 1 ∧
  (∀ line, line ∈ listOf hub 1 → line ∈ scene hub) ∧
  ∃ s' m md,
    disconnectLinesOnMesh 1 hub = (s', Ok tt) ∧
    meshes hub !! 1 = Some m ∧ metadata m = Some md ∧
    meshes s' = <[1 := withLines m (type md) []]> (meshes hub) ∧
    scene s' = scene hub ∧ sameValues hub s' ∧
    (∀ line l, lineMeshes hub !! line = Some l →
       ∃ l', lineMeshes s' !! line = Some l' ∧
             from l' = fromAfter 1 l ∧ to l' = toAfter 1 l) ∧
    (∀ line l', lineMeshes s' !! line = Some l' → ¬ boundTo l' 1) ∧
    reach s'.
Proof.
  assert (reach hub) as Hr by (by apply reach_runAll; [apply reach_init|]).
  assert (isMesh hub 1) as Hm by (by apply isMeshb_true).
  assert (∀ line, line ∈ listOf hub 1 → line ∈ scene hub) as Hlive
    by (apply allLive_elem; by vm_compute).
  split_and!; [done..|].
  by apply (disconnectLinesOnMesh_frees hub 1).
Defined.

(** ** X5: [removeMesh] *)

(** The loop of [disconnectLinesOnMesh] whatever the lines of [ls] are:
    it returns when all of them are in the scene and stops with a
    [TypeError] when one is not; the scene is as before either way. *)
Lemma disconnectLines_any mesh ls : ∀ s,
  wf s → isMesh s mesh → (∀ x, x ∈ ls → isLine s x) →
  wp (forEach (disconnectLine (Some mesh)) ls)
     (λ _ s', (∀ x, x ∈ ls → x ∈ scene s) ∧ scene s' = scene s)
     (λ e s', e = TypeError ∧ ¬ (∀ x, x ∈ ls → x ∈ scene s) ∧
              scene s' = scene s) s.
Proof.
  induction ls as [|x rest IH]; intros s Hs [m Hm] Hls.
  - apply wp_ret. split; [|done]. by intros x ?%elem_of_nil.
  - destruct (core_mesh _ (proj1 Hs) _ _ Hm) as (_&_&[md Hmd]).
    destruct (Hls x) as [l Hl]; [apply elem_of_cons; by left|].
    simpl. apply wp_bind.
    eapply wp_mono; [by apply (disconnectLine_any mesh x m md l s)|..].
    + intros ? s1 (Hx&Hs1&Hms1&Hsc1&Hk1&l1&Hl1&_).
      eapply wp_mono; [apply (IH s1); [done| |]|..].
      * unfold isMesh. rewrite Hms1, lookup_insert_eq. by eexists.
      * intros y Hy. destruct (decide (y = x)) as [->|Hne]; [by exists l1|].
        unfold isLine. rewrite Hk1 by done. apply Hls, elem_of_cons. by right.
      * intros ? s2 [Hrest Hsc2]. split; [|congruence].
        intros y [->|Hy]%elem_of_cons; [done|]. rewrite <- Hsc1. by apply Hrest.
      * intros e s2 (->&Hrest&Hsc2). split_and!; [done| |congruence].
        intros Hall. apply Hrest. intros y Hy. rewrite Hsc1.
        apply Hall, elem_of_cons. by right.
    + intros e s1 (->&Hx&_&_&Hsc1&_). split_and!; [done| |done].
      intros Hall. apply Hx, Hall, elem_of_cons. by left.
Qed.

(** X5: in a state reached by the ten calls, on a mesh whose list holds
    lines of the scene only, [removeMesh(mesh)] returns normally and takes
    [mesh], and nothing else, out of the scene: the lines that were bound
    to it stay in the scene, with the end that was on [mesh] free and the
    other end as before; no line is bound to [mesh] afterwards; the other
    meshes and every coordinate are as before.  When the list holds a line
    that was removed, the call raises a [TypeError] and the scene is as
    before: the mesh is not removed. *)
Theorem removeMesh_detaches (s : State) (mesh : Name) :
  reach s → isMesh s mesh →
  ((∀ line, line ∈ listOf s mesh → line ∈ scene s) →
   ∃ s', removeMesh mesh s = (s', Ok tt) ∧
         scene s' = scene s ∖ {[mesh]} ∧
         (∀ k, k ≠ mesh → meshes s' !! k = meshes s !! k) ∧
         sameValues s s' ∧
         (∀ line l, lineMeshes s !! line = Some l →
            ∃ l', lineMeshes s' !! line = Some l' ∧
                  from l' = fromAfter mesh l ∧ to l' = toAfter mesh l) ∧
         (∀ line l', lineMeshes s' !! line = Some l' → ¬ boundTo l' mesh)) ∧
  (¬ (∀ line, line ∈ listOf s mesh → line ∈ scene s) →
   ∃ s', removeMesh mesh s = (s', Throw TypeError) ∧ scene s' = scene s).
Proof.
  intros Hs%reach_wf [m Hm].
  destruct (core_mesh _ (proj1 Hs) _ _ Hm) as (_&_&[md Hmd]).
  rewrite (listOf_eq s mesh m md) by done. split.
  - intros Hlive.
    destruct (wp_ok _ _ _ (disconnectLinesOnMesh_spec mesh m md s Hs Hm Hmd
                             Hlive))
      as (s1&[]&Hrun&Hs1&Hv&Hms&Hsc&Hdom&Hl).
    exists (putScene (scene s1 ∖ {[mesh]} ∖ {[mesh]}) s1).
    split_and!.
    + unfold removeMesh. by rewrite (bind_Ok _ _ _ _ _ Hrun).
    + simpl. rewrite Hsc. apply leibniz_equiv. intros k.
      rewrite !elem_of_difference. tauto.
    + intros k Hk. simpl. by rewrite Hms, lookup_insert_ne.
    + done.
    + done.
    + intros line l' Hl'. simpl in Hl'.
      destruct (lineMeshes s !! line) as [l|] eqn:Hline;
        [|by rewrite (Hdom line Hline) in Hl'].
      destruct (Hl line l Hline) as (l2&?&Hf&Ht). simplify_eq.
      intros [Hb|Hb]; rewrite ?Hf, ?Ht in Hb.
      * by apply fromAfter_unbound in Hb.
      * by apply toAfter_unbound in Hb.
  - intros Hdead.
    assert (wp (disconnectLinesOnMesh mesh) (λ _ _, False)
              (λ e s', e = TypeError ∧ scene s' = scene s) s) as Hwp.
    { unfold disconnectLinesOnMesh. eapply wp_bind, wp_getLines_ok; [done..|].
      eapply wp_mono;
        [apply (disconnectLines_any mesh (lines md) s Hs); [by exists m|]|..].
      - intros x. exact (core_lines _ (proj1 Hs) mesh m md x Hm Hmd).
      - by intros ? s' [? _].
      - by intros e s' (?&_&?). }
    apply wp_throws in Hwp as (s'&e&Hrun&->&Hsc). exists s'.
    split; [|done]. unfold removeMesh. by apply bind_Throw.
Qed.

Lemma removeMesh_detaches_witness :
  reach hub ∧ isMesh hub 1 ∧
  (∀ line, line ∈ listOf hub 1 → line ∈ scene hub) ∧
  ((∀ line, line ∈ listOf hub 1 → line ∈ scene hub) →
   ∃ s', removeMesh 1 hub = (s', Ok tt) ∧
         scene s' = scene hub ∖ {[1]} ∧
         (∀ k, k ≠ 1 → meshes s' !! k = meshes hub !! k) ∧
         sameValues hub s' ∧
         (∀ line l, lineMeshes hub !! line = Some l →
            ∃ l', lineMeshes s' !! line = Some l' ∧
                  from l' = fromAfter 1 l ∧ to l' = toAfter 1 l) ∧
         (∀ line l', lineMeshes s' !! line = Some l' → ¬ boundTo l' 1)) ∧
  (¬ (∀ line, line ∈ listOf hub 1 → line ∈ scene hub) →
   ∃ s', removeMesh 1 hub = (s', Throw TypeError) ∧ scene s' = scene hub).
Proof.
  assert (reach hub) as Hr by (by apply reach_runAll; [apply reach_init|]).
  assert (isMesh hub 1) as Hm by (by apply isMeshb_true).
  assert (∀ line, line ∈ listOf hub 1 → line ∈ scene hub) as Hlive
    by (apply allLive_elem; by vm_compute).
  split; [done|]. split; [done|]. split; [done|].
  by apply (removeMesh_detaches hub 1).
Defined.

(** ** X6: [connectLine] twice *)

Lemma putLine_id line l s : lineMeshes s !! line = Some l → putLine line l s = s.
Proof. destruct s. unfold putLine. simpl. intros H. by rewrite insert_id. Qed.

(** [connectLine] by its result: the writes are done, and the call
    returns when the line is in the scene and throws when it is not. *)
Lemma connectLine_run mesh line ty m md l s :
  meshes s !! mesh = Some m → metadata m = Some md →
  lineMeshes s !! line = Some l →
  connectLine mesh line ty s
  = (let s1 := putLine line (connected mesh (position m) ty l) s in
     if find line (lines md) then s1
     else putMesh mesh (withLines m (type md) (lines md ++ [line])) s1,
     if bool_decide (line ∈ scene s) then Ok tt else Throw TypeError).
Proof.
  intros Hm Hmd Hl. apply wp_run.
  eapply wp_mono;
    [by apply (wp_connectLine_any mesh line ty m md l
                 (λ s', s' = let s1 := putLine line
                                         (connected mesh (position m) ty l) s in
                             if find line (lines md) then s1
                             else putMesh mesh (withLines m (type md)
                                                  (lines md ++ [line])) s1))
    |..].
  - intros [] s' [Hin ->]. by rewrite bool_decide_eq_true_2.
  - intros e s' (->&Hin&->). by rewrite bool_decide_eq_false_2.
Qed.

Lemma assignFirst_again a pts :
  assignFirst a (assignFirst a pts) = assignFirst a pts.
Proof. by destruct pts. Qed.

Lemma assignLast_insert a pts : assignLast a pts = <[length pts - 1 := a]> pts.
Proof. by destruct pts. Qed.

Lemma assignLast_again a pts :
  assignLast a (assignLast a pts) = assignLast a pts.
Proof.
  by rewrite !assignLast_insert, length_insert, list_insert_insert_eq.
Qed.

Lemma connected_again mesh p ty l :
  connected mesh p ty (connected mesh p ty l) = connected mesh p ty l.
Proof.
  destruct ty; simpl; by rewrite ?assignFirst_again, ?assignLast_again.
Qed.

(** X6: [connectLine(mesh, line, type)] on a mesh with metadata and a line
    that is in the scene returns normally, and a second call with the same
    arguments returns normally and changes nothing: the state after two
    calls is the state after one (the [find] test keeps the line from
    being pushed again). *)
Theorem connectLine_idempotent (s : State) (mesh line : Name) (ty : EndType)
    (m : Mesh) :
  meshes s !! mesh = Some m → is_Some (metadata m) → isLine s line →
  line ∈ scene s →
  ∃ s1, connectLine mesh line ty s = (s1, Ok tt) ∧
        connectLine mesh line ty s1 = (s1, Ok tt).
Proof.
  intros Hm [md Hmd] [l Hl] Hlive.
  rewrite (connectLine_run mesh line ty m md l s) by done.
  rewrite (bool_decide_eq_true_2 (line ∈ scene s)) by done.
  eexists. split; [done|]. cbv zeta.
  set (l1 := connected mesh (position m) ty l).
  destruct (find line (lines md)) eqn:Hfind.
  - rewrite (connectLine_run mesh line ty m md l1) by
      (done || (simpl; by rewrite lookup_insert_eq)).
    cbv zeta. rewrite Hfind. unfold l1. rewrite connected_again.
    simpl. rewrite (bool_decide_eq_true_2 (line ∈ scene s)) by done.
    f_equal. apply putLine_id. simpl. by rewrite lookup_insert_eq.
  - rewrite (connectLine_run mesh line ty
               (withLines m (type md) (lines md ++ [line]))
               (mkMetadata (type md) (lines md ++ [line])) l1) by
      (done || (simpl; by rewrite lookup_insert_eq)).
    cbv zeta.
    replace (find line (lines (mkMetadata (type md) (lines md ++ [line]))))
      with true.
    + simpl. rewrite (bool_decide_eq_true_2 (line ∈ scene s)) by done.
      unfold l1. rewrite connected_again. f_equal. apply putLine_id.
      simpl. by rewrite lookup_insert_eq.
    + symmetry. apply find_elem. simpl. apply elem_of_app. right.
      by apply list_elem_of_singleton.
Qed.

Lemma connectLine_idempotent_witness :
  meshes twoBoxes !! 0 = Some (mkMesh 0 None (Some (mkMetadata "box" [2]))) ∧
  isLine twoBoxes 2 ∧ 2 ∈ scene twoBoxes ∧
  ∃ s1, connectLine 0 2 TTo twoBoxes = (s1, Ok tt) ∧
        connectLine 0 2 TTo s1 = (s1, Ok tt).
Proof.
  assert (isLine twoBoxes 2) as Hl by (by apply isLineb_true).
  assert (2 ∈ scene twoBoxes) as Hin
    by (apply (bool_decide_unpack (2 ∈ scene twoBoxes)); by vm_compute).
  split; [by vm_compute|]. split; [done|]. split; [done|].
  by apply (connectLine_idempotent twoBoxes 0 2 TTo
              (mkMesh 0 None (Some (mkMetadata "box" [2])))).
Defined.

(** ** X7: [connectLine] and then [disconnectLine] *)

Lemma splice1_pushed line ls : line ∉ ls → splice1 line (ls ++ [line]) = ls.
Proof.
  induction ls as [|x ls IH]; simpl; [by rewrite Nat.eqb_refl|].
  intros [Hne Hnin]%not_elem_of_cons.
  destruct (Nat.eqb_spec x line); [by subst|]. by rewrite IH.
Qed.

(** X7: in a state reached by the ten calls, on a mesh that does not list
    the line, which is in the scene, [connectLine(mesh, line, type)]
    followed by [disconnectLine(mesh, line)] returns normally both times
    and undoes the
    bookkeeping: every mesh (the list of [mesh] included), the scene and
    the other lines are as before, and no position changes.  The line
    itself is not as before: the end that was connected is free, whatever
    it was bound to, and its point stays at the position of [mesh]; the
    other end and its point are as before. *)
Theorem connect_then_disconnect (s : State) (mesh line : Name) (ty : EndType)
    (m : Mesh) (md : Metadata) (l : LinesMesh) :
  reach s → meshes s !! mesh = Some m → metadata m = Some md →
  lineMeshes s !! line = Some l → line ∈ scene s → line ∉ lines md →
  ∃ s1 s2 l2,
    connectLine mesh line ty s = (s1, Ok tt) ∧
    disconnectLine (Some mesh) line s1 = (s2, Ok tt) ∧
    meshes s2 = meshes s ∧ scene s2 = scene s ∧
    (∀ k, k ≠ line → lineMeshes s2 !! k = lineMeshes s !! k) ∧
    (∀ k, positionOf s2 k = positionOf s k) ∧
    lineMeshes s2 !! line = Some l2 ∧
    match ty with
    | TFrom => from l2 = None ∧ to l2 = to l ∧
               pointAt s2 line 0 = positionOf s mesh ∧
               pointAt s2 line 1 = pointAt s line 1
    | TTo => from l2 = from l ∧ to l2 = None ∧
             pointAt s2 line 0 = pointAt s line 0 ∧
             pointAt s2 line 1 = positionOf s mesh
    end.
Proof.
  intros Hs%reach_wf Hm Hmd Hl Hlive Hnin. pose proof Hs as [Hc Ha].
  assert (find line (lines md) = false) as Hfind.
  { destruct (find line (lines md)) eqn:Hf; [|done]. by apply find_elem in Hf. }
  assert (¬ boundTo l mesh) as Hfree.
  { intros Hb. destruct (Ha line l mesh Hl Hb) as (m'&md'&?&?&?).
    by simplify_eq. }
  pose proof (keeps_connectLine mesh line ty s Hs) as Hs1. unfold wp in Hs1.
  rewrite (connectLine_run mesh line ty m md l s) in * by done.
  rewrite (bool_decide_eq_true_2 (line ∈ scene s)) in * by done.
  cbv zeta in *. rewrite Hfind in *.
  set (l1 := connected mesh (position m) ty l) in *.
  set (m1 := withLines m (type md) (lines md ++ [line])) in *.
  set (s1 := putMesh mesh m1 (putLine line l1 s)) in *.
  assert (meshes s1 !! mesh = Some m1) as Hm1
    by (simpl; by rewrite lookup_insert_eq).
  assert (lineMeshes s1 !! line = Some l1) as Hl1
    by (simpl; by rewrite lookup_insert_eq).
  destruct (wp_ok _ _ _ (disconnectLine_full mesh line m1
              (mkMetadata (type md) (lines md ++ [line])) l1 s1 Hs1 Hm1
              eq_refl Hl1 Hlive))
    as (s2&[]&Hrun&Hs2&[Hpos Hpt]&Hms&Hsc&Hk&l2&Hl2&Hf2&Ht2).
  exists s1, s2, l2. split_and!; [done|done|..|done|].
  - rewrite Hms. simpl. rewrite splice1_pushed by done.
    rewrite insert_insert_eq.
    change (withLines m1 (type md) (lines md))
      with (withLines m (type md) (lines md)).
    by rewrite (withLines_same m md Hmd), insert_id.
  - by rewrite Hsc.
  - intros k Hne. rewrite Hk by done. unfold s1. simpl.
    by rewrite lookup_insert_ne.
  - intros k. rewrite Hpos. unfold positionOf, s1. simpl.
    rewrite lookup_insert. case_decide; [|done]. subst k. by rewrite Hm.
  - destruct (core_line _ Hc _ _ Hl) as (_&a&b&Hpts&_).
    assert (from l ≠ Some mesh ∧ to l ≠ Some mesh) as [Hnf Hnt].
    { unfold boundTo in Hfree. tauto. }
    rewrite !Hpt. unfold pointAt, positionOf. rewrite Hl1, Hl, Hm. simpl.
    rewrite Hf2, Ht2. unfold fromAfter, toAfter, l1.
    destruct ty; simpl; rewrite Hpts; simpl;
      rewrite (bool_decide_eq_true_2 (Some mesh = Some mesh)) by done.
    + by rewrite (bool_decide_eq_false_2 (to l = Some mesh)) by done.
    + by rewrite (bool_decide_eq_false_2 (from l = Some mesh)) by done.
Qed.

Lemma connect_then_disconnect_witness :
  reach threeBoxes ∧
  meshes threeBoxes !! 1 = Some (mkMesh 1 None (Some (mkMetadata "box" []))) ∧
  metadata (mkMesh 1 None (Some (mkMetadata "box" [])))
  = Some (mkMetadata "box" []) ∧
  lineMeshes threeBoxes !! 3 = Some (mkLinesMesh [0; 2] (Some 0) (Some 2)) ∧
  3 ∈ scene threeBoxes ∧
  (3 ∉ lines (mkMetadata "box" [])) ∧
  ∃ s1 s2 l2,
    connectLine 1 3 TFrom threeBoxes = (s1, Ok tt) ∧
    disconnectLine (Some 1) 3 s1 = (s2, Ok tt) ∧
    meshes s2 = meshes threeBoxes ∧ scene s2 = scene threeBoxes ∧
    (∀ k, k ≠ 3 → lineMeshes s2 !! k = lineMeshes threeBoxes !! k) ∧
    (∀ k, positionOf s2 k = positionOf threeBoxes k) ∧
    lineMeshes s2 !! 3 = Some l2 ∧
    from l2 = None ∧ to l2 = to (mkLinesMesh [0; 2] (Some 0) (Some 2)) ∧
    pointAt s2 3 0 = positionOf threeBoxes 1 ∧
    pointAt s2 3 1 = pointAt threeBoxes 3 1.
Proof.
  assert (reach threeBoxes) as Hr
    by (by apply reach_runAll; [apply reach_init|]).
  assert (3 ∈ scene threeBoxes) as Hin
    by (apply (bool_decide_unpack (3 ∈ scene threeBoxes)); by vm_compute).
  split; [done|]. split; [by vm_compute|]. split; [done|].
  split; [by vm_compute|]. split; [done|]. split; [apply not_elem_of_nil|].
  apply (connect_then_disconnect threeBoxes 1 3 TFrom
           (mkMesh 1 None (Some (mkMetadata "box" [])))
           (mkMetadata "box" []) (mkLinesMesh [0; 2] (Some 0) (Some 2)));
    [done|by vm_compute|done|by vm_compute|done|apply not_elem_of_nil].
Defined.

(** ** X8: calls on a mesh whose metadata is not set *)




(** ** X9: [move] and [moveTo] on a mesh whose metadata is not set *)

(** X9: on a mesh whose [metadata] is not set, [move] and [moveTo] raise a
    [TypeError] only after the position was written: the mesh has moved
    (by [diff], or to the target) when the caller sees the error, and
    nothing else has changed. *)
Theorem bare_mesh_moves_then_throws (s : State) (mesh : Name) (m : Mesh)
    (v : Vector3.t) (diff point : Point.t) :
  meshes s !! mesh = Some m → metadata m = None →
  vectors s !! position m = Some v →
  move mesh diff s
  = (putVector (position m) (Vector3.add v (moveVector diff)) s,
     Throw TypeError) ∧
  moveTo mesh point s
  = (putVector (position m) (movedTo v point) s, Throw TypeError) ∧
  positionOf (exec (move mesh diff) s) mesh
  = Some (Vector3.add v (moveVector diff)) ∧
  positionOf (exec (moveTo mesh point) s) mesh = Some (movedTo v point).
Proof.
  intros Hm Hmd Hv.
  assert (∀ d, move mesh d s
    = (putVector (position m) (Vector3.add v (moveVector d)) s,
       Throw TypeError)) as Hmove.
  { intros d.
    assert (wp (move mesh d) (λ _ _, False)
      (λ e s', e = TypeError ∧
         s' = putVector (position m) (Vector3.add v (moveVector d)) s) s)
      as Hwp.
    { unfold move. cbv zeta.
      eapply wp_bind, wp_getMesh_ok; [done|].
      eapply wp_bind, wp_getVector_ok; [done|].
      apply wp_bind, wp_modify.
      apply wp_bind, wp_getLines; simpl; intros; by simplify_eq. }
    by apply wp_throws in Hwp as (?&?&->&->&->). }
  assert (moveTo mesh point s
    = (putVector (position m) (movedTo v point) s, Throw TypeError)) as Hto.
  { unfold moveTo.
    rewrite (bind_Ok (getMesh mesh) _ s s m) by (unfold getMesh; by rewrite Hm).
    rewrite (bind_Ok (getVector (position m)) _ s s v)
      by (unfold getVector; by rewrite Hv).
    cbv zeta. by rewrite Hmove. }
  split_and!; [done|done|..]; unfold exec; rewrite ?Hmove, ?Hto;
    unfold positionOf; simpl; rewrite Hm; simpl; by rewrite lookup_insert_eq.
Qed.

Lemma bare_mesh_moves_then_throws_witness :
  meshes withChain !! 1 = Some (mkMesh 1 (Some 0) None) ∧
  metadata (mkMesh 1 (Some 0) None) = None ∧
  vectors withChain !! position (mkMesh 1 (Some 0) None)
  = Some Vector3.Zero ∧
  move 1 x5 withChain
  = (putVector (position (mkMesh 1 (Some 0) None))
       (Vector3.add Vector3.Zero (moveVector x5)) withChain,
     Throw TypeError) ∧
  moveTo 1 x5 withChain
  = (putVector (position (mkMesh 1 (Some 0) None))
       (movedTo Vector3.Zero x5) withChain, Throw TypeError) ∧
  positionOf (exec (move 1 x5) withChain) 1
  = Some (Vector3.add Vector3.Zero (moveVector x5)) ∧
  positionOf (exec (moveTo 1 x5) withChain) 1
  = Some (movedTo Vector3.Zero x5).
Proof.
  split; [by vm_compute|]. split; [done|]. split; [by vm_compute|].
  by apply (bare_mesh_moves_then_throws withChain 1 (mkMesh 1 (Some 0) None)
              Vector3.Zero x5 x5).
Defined.

(** ** X10: [addLine] on a mesh whose metadata is not set *)

(** X10: when [mesh1] or [mesh2] has no [metadata], [addLine] raises a
    [TypeError], but only at the [push]: the line was created under a
    fresh name, bound from [mesh1] to [mesh2] and put into the scene, and
    it stays there although the caller never gets it; when it is [mesh2]
    that has no metadata, the line was pushed onto the list of [mesh1] as
    well. *)
Theorem addLine_bare_leaves_line (s : State) (mesh1 mesh2 : Name)
    (m1 m2 : Mesh) :
  meshes s !! mesh1 = Some m1 → meshes s !! mesh2 = Some m2 →
  metadata m1 = None ∨ metadata m2 = None →
  ∃ s', addLine mesh1 mesh2 s = (s', Throw TypeError) ∧
        lineMeshes s'
        = <[nextId s := mkLinesMesh [position m1; position m2]
                                    (Some mesh1) (Some mesh2)]> (lineMeshes s) ∧
        scene s' = {[nextId s]} ∪ scene s ∧
        meshes s'
        = match metadata m1 with
          | None => meshes s
          | Some md1 =>
              <[mesh1 := withLines m1 (type md1) (lines md1 ++ [nextId s])]>
                (meshes s)
          end.
Proof.
  intros H1 H2 Hbare.
  assert (wp (addLine mesh1 mesh2) (λ _ _, False)
    (λ e s', e = TypeError ∧
       lineMeshes s'
       = <[nextId s := mkLinesMesh [position m1; position m2]
                                   (Some mesh1) (Some mesh2)]> (lineMeshes s) ∧
       scene s' = {[nextId s]} ∪ scene s ∧
       meshes s'
       = match metadata m1 with
         | None => meshes s
         | Some md1 =>
             <[mesh1 := withLines m1 (type md1) (lines md1 ++ [nextId s])]>
               (meshes s)
         end) s) as Hwp.
  { unfold addLine.
    eapply wp_bind, wp_getMesh_ok; [done|].
    eapply wp_bind, wp_getMesh_ok; [done|].
    apply wp_bind, wp_RandomId. unfold CreateLines.
    apply wp_bind, wp_bind, wp_modify, wp_bind, wp_modify, wp_ret.
    destruct (metadata m1) as [md1|] eqn:Hmd1.
    - destruct Hbare as [?|Hmd2]; [done|].
      assert (mesh1 ≠ mesh2) as Hne by (intros ->; simplify_eq; congruence).
      eapply wp_bind, (wp_push_ok mesh1 _ m1 md1); [done..|].
      apply wp_bind. unfold push.
      apply wp_bind, wp_getLines; simpl.
      + intros m md Hm. rewrite lookup_insert_ne in Hm by done.
        intros; simplify_eq; congruence.
      + rewrite lookup_insert_ne by done. intros; simplify_eq.
      + done.
    - apply wp_bind. unfold push.
      apply wp_bind, wp_getLines; simpl; intros; simplify_eq; try congruence.
      done. }
  apply wp_throws in Hwp as (s'&e&Hrun&->&?). by exists s'.
Qed.

Lemma addLine_bare_leaves_line_witness :
  meshes withChain !! 0
  = Some (mkMesh 0 None (Some (mkMetadata "import" []))) ∧
  meshes withChain !! 1 = Some (mkMesh 1 (Some 0) None) ∧
  (metadata (mkMesh 0 None (Some (mkMetadata "import" []))) = None ∨
   metadata (mkMesh 1 (Some 0) None) = None) ∧
  ∃ s', addLine 0 1 withChain = (s', Throw TypeError) ∧
        lineMeshes s'
        = <[nextId withChain := mkLinesMesh [0; 1] (Some 0) (Some 1)]>
            (lineMeshes withChain) ∧
        scene s' = {[nextId withChain]} ∪ scene withChain ∧
        meshes s'
        = <[0 := withLines (mkMesh 0 None (Some (mkMetadata "import" [])))
                   "import" ([] ++ [nextId withChain])]> (meshes withChain).
Proof.
  split; [by vm_compute|]. split; [by vm_compute|]. split; [by right|].
  apply (addLine_bare_leaves_line withChain 0 1
           (mkMesh 0 None (Some (mkMetadata "import" [])))
           (mkMesh 1 (Some 0) None)); [by vm_compute|by vm_compute|by right].
Defined.

(** ** X11: the calls that cannot throw *)

Lemma addLine_returns mesh1 mesh2 s :
  wf s → isMesh s mesh1 → isMesh s mesh2 →
  ∃ s', addLine mesh1 mesh2 s = (s', Ok (nextId s)).
Proof.
  intros [Hc _] [m1 H1] [m2 H2].
  destruct (core_mesh _ Hc _ _ H1) as (_&_&[md1 Hmd1]).
  destruct (core_mesh _ Hc _ _ H2) as (_&_&[md2 Hmd2]).
  assert (wp (addLine mesh1 mesh2) (λ r _, r = nextId s) (λ _ _, False) s)
    as Hwp.
  { unfold addLine.
    eapply wp_bind, wp_getMesh_ok; [done|].
    eapply wp_bind, wp_getMesh_ok; [done|].
    apply wp_bind, wp_RandomId. unfold CreateLines.
    apply wp_bind, wp_bind, wp_modify, wp_bind, wp_modify, wp_ret.
    eapply wp_bind, (wp_push_ok mesh1 _ m1 md1); [done..|].
    set (s4 := putMesh mesh1 _ _).
    assert (∃ m2' md2', meshes s4 !! mesh2 = Some m2' ∧ metadata m2' = Some md2')
      as (m2'&md2'&H2'&Hmd2').
    { subst s4. simpl. destruct (decide (mesh1 = mesh2)) as [->|Hne].
      - rewrite lookup_insert_eq. by do 2 eexists.
      - rewrite lookup_insert_ne by done. eauto. }
    eapply wp_bind, (wp_push_ok mesh2 _ m2' md2'); [done..|]. by apply wp_ret. }
  apply wp_ok in Hwp as (s'&r&Hrun&->). by exists s'.
Qed.

(** X11: in a state reached by the ten calls, a call on objects of the
    heap, when the lines it updates are in the scene (the line given to
    [connectLine] or [disconnectLine], the lines listed on the mesh given
    to [disconnectLinesOnMesh], [removeMesh], [move] or [moveTo]), returns
    normally unless it is [removeLine] or [removeLinesOnMesh]: [addMesh],
    [addLine], [connectLine], [disconnectLine], [disconnectLinesOnMesh],
    [removeMesh], [move] and [moveTo] then raise nothing. *)
Theorem only_removeLine_throws (s : State) (op : Op) :
  reach s → callable s op → liveArgs s op → neverThrows op = true →
  ∃ s', call op s = (s', Ok tt).
Proof.
  intros Hs%reach_wf Hop Hlive Hnt. pose proof Hs as [Hc _].
  destruct op as [ty opt|mesh1 mesh2|mesh line ty|mesh line|mesh|line|mesh
                  |mesh|mesh diff|mesh point]; simpl in *; try done.
  - unfold mbind, M_bind, bind. rewrite addMesh_run.
    destruct (supported ty); by eexists.
  - destruct Hop as [Hm1 Hm2].
    destruct (addLine_returns mesh1 mesh2 s Hs Hm1 Hm2) as [s' Hrun].
    exists s'. by rewrite (bind_Ok _ _ _ _ _ Hrun).
  - destruct Hop as [[m Hm] [l Hl]].
    destruct (core_mesh _ Hc _ _ Hm) as (_&_&[md Hmd]).
    rewrite (connectLine_run mesh line ty m md l s) by done.
    rewrite (bool_decide_eq_true_2 (line ∈ scene s)) by done. by eexists.
  - destruct Hop as [[m Hm] [l Hl]].
    destruct (core_mesh _ Hc _ _ Hm) as (_&_&[md Hmd]).
    destruct (wp_ok _ _ _
                (disconnectLine_spec mesh line m md l s Hs Hm Hmd Hl Hlive))
      as (s'&[]&Hrun&_). by exists s'.
  - destruct Hop as [m Hm].
    destruct (core_mesh _ Hc _ _ Hm) as (_&_&[md Hmd]).
    rewrite (listOf_eq s mesh m md) in Hlive by done.
    destruct (wp_ok _ _ _
                (disconnectLinesOnMesh_spec mesh m md s Hs Hm Hmd Hlive))
      as (s'&[]&Hrun&_). by exists s'.
  - destruct Hop as [m Hm].
    destruct (core_mesh _ Hc _ _ Hm) as (_&_&[md Hmd]).
    rewrite (listOf_eq s mesh m md) in Hlive by done.
    destruct (wp_ok _ _ _
                (disconnectLinesOnMesh_spec mesh m md s Hs Hm Hmd Hlive))
      as (s'&[]&Hrun&_).
    eexists. unfold removeMesh. by rewrite (bind_Ok _ _ _ _ _ Hrun).
  - destruct Hop as [m Hm].
    destruct (core_mesh _ Hc _ _ Hm) as (_&[v Hv]&[md Hmd]).
    rewrite (listOf_eq s mesh m md) in Hlive by done.
    rewrite (move_run s mesh diff m md v) by done.
    rewrite updated_Ok by done. by eexists.
  - destruct Hop as [m Hm].
    destruct (core_mesh _ Hc _ _ Hm) as (_&[v Hv]&[md Hmd]).
    rewrite (listOf_eq s mesh m md) in Hlive by done.
    rewrite (moveTo_run s mesh point m md v) by done.
    rewrite updated_Ok by done. by eexists.
Qed.

Lemma only_removeLine_throws_witness :
  reach hub ∧ callable hub (OpRemoveMesh 1) ∧ liveArgs hub (OpRemoveMesh 1) ∧
  neverThrows (OpRemoveMesh 1) = true ∧
  ∃ s', call (OpRemoveMesh 1) hub = (s', Ok tt).
Proof.
  assert (reach hub) as Hr by (by apply reach_runAll; [apply reach_init|]).
  assert (callable hub (OpRemoveMesh 1)) as Hc by (by apply callableb_true).
  assert (liveArgs hub (OpRemoveMesh 1)) as Hl
    by (unfold liveArgs; apply allLive_elem; by vm_compute).
  split_and!; [done..|].
  by apply (only_removeLine_throws hub (OpRemoveMesh 1)).
Defined.

(** ** X12: [root] of a parent, of a child and of the root *)

Lemma root_more s fuel fuel' mesh r :
  root fuel s mesh = Some r → fuel ≤ fuel' → root fuel' s mesh = Some r.
Proof.
  intros (n&Hn&Ha&Hp)%root_Some Hle. eapply root_enough; [done..|lia].
Qed.

(** X12: when [root(mesh)] returns [r], reached within [fuel] nested
    calls, then [r] has no parent, any greater depth gives the same [r],
    [root(r)] is [r] itself, the parent of [mesh] has the root [r], and so
    has every child of [mesh]. *)
Theorem root_shared (s : State) (fuel : nat) (mesh r : Name) :
  root fuel s mesh = Some r →
  parentOf s r = None ∧
  (∀ fuel', fuel ≤ fuel' → root fuel' s mesh = Some r) ∧
  root 1 s r = Some r ∧
  (∀ p, parentOf s mesh = Some p → root fuel s p = Some r) ∧
  (∀ c, parentOf s c = Some mesh → root (S fuel) s c = Some r).
Proof.
  intros Hroot. pose proof (root_Some _ _ _ _ Hroot) as (n&Hn&Ha&Hp).
  split_and!.
  - done.
  - intros fuel' Hle. by eapply root_more.
  - simpl. by rewrite Hp.
  - intros p Hpar. destruct fuel as [|fuel]; [done|]. simpl in Hroot.
    rewrite Hpar in Hroot. eapply root_more; [done|lia].
  - intros c Hc. simpl. by rewrite Hc.
Qed.

Lemma root_shared_witness :
  root 3 withChain 1 = Some 0 ∧
  parentOf withChain 0 = None ∧
  (∀ fuel', 3 ≤ fuel' → root fuel' withChain 1 = Some 0) ∧
  root 1 withChain 0 = Some 0 ∧
  (∀ p, parentOf withChain 1 = Some p → root 3 withChain p = Some 0) ∧
  (∀ c, parentOf withChain c = Some 1 → root 4 withChain c = Some 0).
Proof.
  split; [by vm_compute|].
  apply (root_shared withChain 3 1 0). by vm_compute.
Defined.

(** ** X13: [importMesh] and the objects already there *)

Lemma loadVectors_old p nodes vs k :
  k < p → loadVectors p nodes vs !! k = vs !! k.
Proof.
  revert p. induction nodes as [|n nodes IH]; intros p Hk; simpl; [done|].
  rewrite lookup_insert_ne by lia. apply IH. lia.
Qed.

Lemma loadVectors_new p nodes vs i n :
  nodes !! i = Some n →
  loadVectors p nodes vs !! (p + i) = Some (node_position n).
Proof.
  revert p i. induction nodes as [|n' nodes IH]; intros p i; [done|].
  destruct i as [|i]; simpl.
  - intros [= ->]. by rewrite Nat.add_0_r, lookup_insert_eq.
  - intros Hi. rewrite lookup_insert_ne by lia.
    rewrite <- Nat.add_succ_comm. by apply IH.
Qed.

(** The state [importMesh] ends in when it returns: the loaded heap with
    the metadata of the first parentless mesh set. *)
Lemma importMesh_run rootPath name r s s' rt :
  importMesh rootPath name (Some r) s = (s', Ok rt) →
  ∃ i n, r_meshes r !! i = Some n ∧ node_parent n = None ∧
         rt = nextId s + i ∧
         s' = putMesh rt (withLines (mkMesh (nextVec s + i) None None)
                                    "import" [])
                (ImportMeshAsync (Some r) s).1.
Proof.
  set (nm := length (r_meshes r)).
  set (s1 := (ImportMeshAsync (Some r) s).1).
  assert (Hnew : ∀ i n, r_meshes r !! i = Some n →
    meshes s1 !! (nextId s + i)
    = Some (mkMesh (nextVec s + i)
                   (renamed (nextId s) nm <$> node_parent n)
                   (node_metadata n))).
  { intros i n Hi. subst s1. simpl.
    rewrite loadNodes_old by (apply lookup_lt_Some in Hi; lia).
    by apply loadNodes_new. }
  assert (Hfind : List.find (λ k, if parentOf s1 k is Some _ then false else true)
                    (seq (nextId s) nm)
                  = (λ i, nextId s + i) <$> firstParentless (r_meshes r)).
  { apply find_parentless. intros i n Hi. unfold parentOf.
    rewrite (Hnew _ _ Hi). simpl. by destruct (node_parent n). }
  assert (Hload : ImportMeshAsync (Some r) s = (s1, Ok (seq (nextId s) nm)))
    by done.
  assert (Hfound : findParentless (seq (nextId s) nm) s1
                   = (s1, Ok ((λ i, nextId s + i) <$> firstParentless (r_meshes r))))
    by (unfold findParentless, gets; by rewrite Hfind).
  unfold importMesh.
  rewrite (bind_Ok _ _ _ _ _ Hload), (bind_Ok _ _ _ _ _ Hfound).
  destruct (firstParentless (r_meshes r)) as [i|] eqn:Hi; simpl; [|done].
  destruct (firstParentless_Some _ _ Hi) as [(n&Hn&Hpar) _].
  assert (Hget : getMesh (nextId s + i) s1
    = (s1, Ok (mkMesh (nextVec s + i)
                      (renamed (nextId s) nm <$> node_parent n)
                      (node_metadata n))))
    by (unfold getMesh; by rewrite (Hnew _ _ Hn)).
  rewrite (bind_Ok _ _ _ _ _ (eq_refl : deref (Some (nextId s + i)) s1 = (s1, Ok _))).
  rewrite (bind_Ok _ _ _ _ _ Hget).
  intros [= <- <-]. exists i, n. rewrite Hpar. by split_and!.
Qed.

(** X13: when [importMesh] returns in a state reached by the ten calls, it
    has disturbed nothing that was there: every mesh and every line is as
    before, every position and every point reads as before, what was in
    the scene is in the scene, and the mesh returned is a new object. *)
Theorem importMesh_keeps_existing (rootPath name : string) (r : ImportResult)
    (s s' : State) (rt : Name) :
  reach s → importMesh rootPath name (Some r) s = (s', Ok rt) →
  (∀ mesh m, meshes s !! mesh = Some m → meshes s' !! mesh = Some m) ∧
  lineMeshes s' = lineMeshes s ∧
  (∀ mesh, isMesh s mesh → positionOf s' mesh = positionOf s mesh) ∧
  (∀ line i, pointAt s' line i = pointAt s line i) ∧
  scene s ⊆ scene s' ∧
  ¬ isMesh s rt ∧ ¬ isLine s rt ∧ isMesh s' rt.
Proof.
  intros [Hc _]%reach_wf (i&n&Hn&Hpar&->&->)%importMesh_run.
  assert (Hold : ∀ k, k < nextId s →
    <[nextId s + i := withLines (mkMesh (nextVec s + i) None None) "import" []]>
      (meshes (ImportMeshAsync (Some r) s).1) !! k = meshes s !! k).
  { intros k Hk. rewrite lookup_insert_ne by lia. simpl.
    rewrite !loadNodes_old by lia. done. }
  assert (Hvec : ∀ a, a < nextVec s →
    vectors (ImportMeshAsync (Some r) s).1 !! a = vectors s !! a).
  { intros a Ha. simpl. rewrite !loadVectors_old by lia. done. }
  split_and!.
  - intros mesh m Hm. simpl. rewrite Hold; [done|].
    by destruct (core_mesh _ Hc _ _ Hm).
  - done.
  - intros mesh [m Hm]. unfold positionOf. simpl.
    destruct (core_mesh _ Hc _ _ Hm) as (?&[v Hv]&_).
    rewrite Hold, Hm by done. simpl.
    pose proof (Hvec (position m)) as Hvec'. simpl in Hvec'.
    apply Hvec'. by apply (core_vec _ Hc) in Hv.
  - intros line j. unfold pointAt. simpl.
    destruct (lineMeshes s !! line) as [l|] eqn:Hl; simpl; [|done].
    destruct (core_line _ Hc _ _ Hl) as (_&a&b&Hpts&[va Ha]&[vb Hb]&_).
    pose proof (Hvec a) as Hveca. pose proof (Hvec b) as Hvecb.
    simpl in Hveca, Hvecb. apply (core_vec _ Hc) in Ha, Hb.
    rewrite Hpts. destruct j as [|[|j]]; simpl; auto.
  - simpl. intros k Hk. apply elem_of_union. by right.
  - intros [m Hm]. destruct (core_mesh _ Hc _ _ Hm). lia.
  - intros [l Hl]. destruct (core_line _ Hc _ _ Hl). lia.
  - unfold isMesh. simpl. by rewrite lookup_insert_eq.
Qed.

Lemma importMesh_keeps_existing_witness :
  reach twoBoxes ∧
  importMesh "assets/" "chain.glb" (Some chain) twoBoxes
  = (exec (importMesh "assets/" "chain.glb" (Some chain)) twoBoxes, Ok 3) ∧
  let s' := exec (importMesh "assets/" "chain.glb" (Some chain)) twoBoxes in
  (∀ mesh m, meshes twoBoxes !! mesh = Some m → meshes s' !! mesh = Some m) ∧
  lineMeshes s' = lineMeshes twoBoxes ∧
  (∀ mesh, isMesh twoBoxes mesh → positionOf s' mesh = positionOf twoBoxes mesh) ∧
  (∀ line i, pointAt s' line i = pointAt twoBoxes line i) ∧
  scene twoBoxes ⊆ scene s' ∧
  ¬ isMesh twoBoxes 3 ∧ ¬ isLine twoBoxes 3 ∧ isMesh s' 3.
Proof.
  assert (reach twoBoxes) as Hr by (by apply reach_runAll; [apply reach_init|]).
  split; [done|]. split; [by vm_compute|].
  apply (importMesh_keeps_existing "assets/" "chain.glb" chain twoBoxes _ 3);
    [done|by vm_compute].
Defined.

(** ** X14: the meshes [importMesh] brings *)

(** X14: when [importMesh] returns, the [i]-th mesh of the result is in
    the heap and in the scene under the [i]-th new name, at the position
    the asset gives it; its parent is the parent the asset gives it, under
    that parent's new name; its metadata is [{ type: 'import', lines: [] }]
    when it is the mesh returned, and the metadata the asset left on it
    otherwise. *)
Theorem importMesh_nodes (rootPath name : string) (r : ImportResult)
    (s s' : State) (rt : Name) (i : nat) (n : ImportedNode) :
  importMesh rootPath name (Some r) s = (s', Ok rt) →
  r_meshes r !! i = Some n →
  ∃ m, meshes s' !! (nextId s + i) = Some m ∧
       parent m = renamed (nextId s) (length (r_meshes r)) <$> node_parent n ∧
       positionOf s' (nextId s + i) = Some (node_position n) ∧
       nextId s + i ∈ scene s' ∧
       metadata m = (if bool_decide (nextId s + i = rt)
                     then Some (mkMetadata "import" [])
                     else node_metadata n).
Proof.
  intros (i0&n0&Hn0&Hpar&->&->)%importMesh_run Hn.
  pose proof (lookup_lt_Some _ _ _ Hn) as Hlt.
  assert (vectors (ImportMeshAsync (Some r) s).1 !! (nextVec s + i)
          = Some (node_position n)) as Hv.
  { simpl. rewrite loadVectors_old by lia. by apply loadVectors_new. }
  assert (nextId s + i ∈ scene (ImportMeshAsync (Some r) s).1) as Hsc.
  { simpl. apply elem_of_union. left. apply elem_of_list_to_set, elem_of_seq.
    lia. }
  destruct (decide (i = i0)) as [->|Hne].
  - simplify_eq. eexists. split; [simpl; by rewrite lookup_insert_eq|].
    split_and!; simpl.
    + by rewrite Hpar.
    + unfold positionOf. simpl. rewrite lookup_insert_eq. simpl.
      simpl in Hv. exact Hv.
    + exact Hsc.
    + by rewrite bool_decide_eq_true_2.
  - eexists. split.
    { simpl. rewrite lookup_insert_ne by lia.
      rewrite loadNodes_old by lia. by apply loadNodes_new. }
    split_and!; simpl.
    + done.
    + unfold positionOf. simpl. rewrite lookup_insert_ne by lia.
      rewrite loadNodes_old by lia. rewrite (loadNodes_new _ _ _ _ _ _ _ Hn).
      simpl. simpl in Hv. exact Hv.
    + exact Hsc.
    + rewrite bool_decide_eq_false_2 by lia. done.
Qed.

Lemma importMesh_nodes_witness :
  importMesh "assets/" "tagged.glb" (Some tagged) twoBoxes
  = (exec (importMesh "assets/" "tagged.glb" (Some tagged)) twoBoxes, Ok 3) ∧
  r_meshes tagged !! 1
  = Some (mkImportedNode (Some (InMeshes 0)) (Vector3.mk 1 0 0)
            (Some (mkMetadata "asset" []))) ∧
  let s' := exec (importMesh "assets/" "tagged.glb" (Some tagged)) twoBoxes in
  ∃ m, meshes s' !! (nextId twoBoxes + 1) = Some m ∧
       parent m = renamed (nextId twoBoxes) (length (r_meshes tagged))
                    <$> Some (InMeshes 0) ∧
       positionOf s' (nextId twoBoxes + 1) = Some (Vector3.mk 1 0 0) ∧
       nextId twoBoxes + 1 ∈ scene s' ∧
       metadata m = (if bool_decide (nextId twoBoxes + 1 = 3)
                     then Some (mkMetadata "import" [])
                     else Some (mkMetadata "asset" [])).
Proof.
  split; [by vm_compute|]. split; [done|].
  by apply (importMesh_nodes "assets/" "tagged.glb" tagged twoBoxes _ 3 1
              (mkImportedNode (Some (InMeshes 0)) (Vector3.mk 1 0 0)
                 (Some (mkMetadata "asset" [])))).
Defined.

(** ** X15: the earlier [removeMesh], by name or by object *)

(** X15: the earlier [removeMesh] called with a name.  A name the scene
    does not hold makes the call return normally with nothing changed.
    For the name of a mesh of the scene whose listed lines are in the
    scene, in a state reached by the ten calls, the call does what
    [removeMesh] on the mesh itself does, and the mesh is out of the scene
    afterwards, so that a second call with the same name changes
    nothing. *)
Theorem removeMesh_by_name (s : State) (name : Name) :
  (name ∉ scene s → Part001.removeMesh (Part001.ByName name) s = (s, Ok tt)) ∧
  (reach s → isMesh s name → name ∈ scene s →
   (∀ line, line ∈ listOf s name → line ∈ scene s) →
   ∃ s', Part001.removeMesh (Part001.ByName name) s = (s', Ok tt) ∧
         removeMesh name s = (s', Ok tt) ∧
         Part001.removeMesh (Part001.ByRef (Some name)) s = (s', Ok tt) ∧
         (name ∉ scene s') ∧
         Part001.removeMesh (Part001.ByName name) s' = (s', Ok tt)).
Proof.
  assert (∀ s0, name ∉ scene s0 →
    Part001.removeMesh (Part001.ByName name) s0 = (s0, Ok tt)) as Hout.
  { intros s0 Hnin. unfold Part001.removeMesh, Part001.getMeshByName.
    unfold mbind, M_bind, bind, gets.
    by rewrite bool_decide_eq_false_2. }
  split; [apply Hout|]. intros Hs%reach_wf [m Hm] Hin Hlive.
  destruct (core_mesh _ (proj1 Hs) _ _ Hm) as (_&_&[md Hmd]).
  rewrite (listOf_eq s name m md) in Hlive by done.
  destruct (wp_ok _ _ _
              (disconnectLinesOnMesh_spec name m md s Hs Hm Hmd Hlive))
    as (s1&[]&Hrun&Hs1&Hv&Hms&Hsc&Hdom&Hl).
  assert (removeMesh name s
          = (putScene (scene s1 ∖ {[name]} ∖ {[name]}) s1, Ok tt)) as Hrm
    by (unfold removeMesh; by rewrite (bind_Ok _ _ _ _ _ Hrun)).
  exists (putScene (scene s1 ∖ {[name]} ∖ {[name]}) s1).
  assert (name ∉ scene (putScene (scene s1 ∖ {[name]} ∖ {[name]}) s1)) as Hnin.
  { simpl. rewrite !elem_of_difference, elem_of_singleton. tauto. }
  split_and!; [| done | | done | by apply Hout].
  - unfold Part001.removeMesh, Part001.getMeshByName.
    unfold mbind at 1. unfold M_bind, bind at 1. unfold gets.
    rewrite bool_decide_eq_true_2 by done. exact Hrm.
  - exact Hrm.
Qed.

Lemma removeMesh_by_name_witness :
  (2 ∉ scene init →
   Part001.removeMesh (Part001.ByName 2) init = (init, Ok tt)) ∧
  reach twoBoxes ∧ isMesh twoBoxes 0 ∧ 0 ∈ scene twoBoxes ∧
  (∀ line, line ∈ listOf twoBoxes 0 → line ∈ scene twoBoxes) ∧
  ∃ s', Part001.removeMesh (Part001.ByName 0) twoBoxes = (s', Ok tt) ∧
        removeMesh 0 twoBoxes = (s', Ok tt) ∧
        Part001.removeMesh (Part001.ByRef (Some 0)) twoBoxes = (s', Ok tt) ∧
        (0 ∉ scene s') ∧
        Part001.removeMesh (Part001.ByName 0) s' = (s', Ok tt).
Proof.
  assert (reach twoBoxes) as Hr by (by apply reach_runAll; [apply reach_init|]).
  assert (isMesh twoBoxes 0) as Hm by (by apply isMeshb_true).
  assert (0 ∈ scene twoBoxes) as Hin
    by (apply (bool_decide_unpack (0 ∈ scene twoBoxes)); by vm_compute).
  assert (∀ line, line ∈ listOf twoBoxes 0 → line ∈ scene twoBoxes) as Hl
    by (apply allLive_elem; by vm_compute).
  split; [apply (removeMesh_by_name init 2)|].
  split_and!; [done..|].
  by apply (removeMesh_by_name twoBoxes 0).
Defined.

(** ** X16: [removeLine] where it does remove the line *)

(** X16: in a state reached by the ten calls, on a line of the scene
    whose [to] end is free or bound to the mesh its [from] end is bound to,
    [removeLine] returns normally and takes the line, and nothing else, out of the
    scene; the mesh at [from], if any, loses one entry of the line from its
    list for each end it was bound to (both calls of [disconnectLine] name
    [from]); the other meshes, the other lines and every position are as
    before. *)
Theorem removeLine_clean (s : State) (line : Name) (l : LinesMesh) :
  reach s → lineMeshes s !! line = Some l → line ∈ scene s →
  to l = None ∨ to l = from l →
  ∃ s', removeLine line s = (s', Ok tt) ∧
        scene s' = scene s ∖ {[line]} ∧
        (∀ k, k ≠ line → lineMeshes s' !! k = lineMeshes s !! k) ∧
        (∀ k, positionOf s' k = positionOf s k) ∧
        (∀ k i, k ≠ line → pointAt s' k i = pointAt s k i) ∧
        (∀ P, from l ≠ Some P → meshes s' !! P = meshes s !! P) ∧
        (∀ P m md, from l = Some P → meshes s !! P = Some m →
           metadata m = Some md →
           meshes s' !! P
           = Some (withLines m (type md)
                     (if to l is Some _
                      then splice1 line (splice1 line (lines md))
                      else splice1 line (lines md)))).
Proof.
  intros Hs%reach_wf Hl Hlive Hto. pose proof Hs as [Hc _].
  destruct (core_line _ Hc _ _ Hl) as (_&a&b&_&_&_&Hf&_).
  destruct l as [pts f t]. simpl in Hto, Hf |- *.
  set (Q := λ s' : State,
    scene s' = scene s ∖ {[line]} ∧
    (∀ k, k ≠ line → lineMeshes s' !! k = lineMeshes s !! k) ∧
    (∀ k, positionOf s' k = positionOf s k) ∧
    (∀ k i, k ≠ line → pointAt s' k i = pointAt s k i) ∧
    (∀ P, f ≠ Some P → meshes s' !! P = meshes s !! P) ∧
    (∀ P m md, f = Some P → meshes s !! P = Some m →
       metadata m = Some md →
       meshes s' !! P
       = Some (withLines m (type md)
                 (if t is Some _
                  then splice1 line (splice1 line (lines md))
                  else splice1 line (lines md))))).
  assert (Hend : ∀ s2, sameValues s s2 → scene s2 = scene s →
    (∀ k, k ≠ line → lineMeshes s2 !! k = lineMeshes s !! k) →
    (∀ P, f ≠ Some P → meshes s2 !! P = meshes s !! P) →
    (∀ P m md, f = Some P → meshes s !! P = Some m →
       metadata m = Some md →
       meshes s2 !! P
       = Some (withLines m (type md)
                 (if t is Some _
                  then splice1 line (splice1 line (lines md))
                  else splice1 line (lines md)))) →
    wp (dispose line;; sceneRemoveMesh line) (λ _, Q) (λ _ _, False) s2).
  { intros s2 [Hpos Hpt] Hsc Hk Hoth Hfrom.
    apply wp_bind, wp_modify, wp_modify. unfold Q. simpl.
    split_and!; [|done|done|by intros; apply Hpt|done|done].
    rewrite Hsc. apply leibniz_equiv. intros k.
    rewrite !elem_of_difference. tauto. }
  assert (wp (removeLine line) (λ _, Q) (λ _ _, False) s) as Hwp.
  { unfold removeLine. eapply wp_bind, wp_getLine_ok; [done|]. simpl.
    destruct f as [P|].
    - destruct Hf as (m&Hm&_).
      destruct (core_mesh _ Hc _ _ Hm) as (_&_&[md Hmd]).
      apply wp_bind.
      eapply wp_mono;
        [by apply (disconnectLine_full P line m md
                     (mkLinesMesh pts (Some P) t) s)| |done].
      intros ? s1 (Hs1&Hv1&Hms1&Hsc1&Hk1&l1&Hl1&Hf1&Ht1).
      destruct Hto as [->| ->].
      + apply wp_bind, wp_ret. apply Hend; [done..| |].
        * intros k Hk. rewrite Hms1, lookup_insert_ne; [done|congruence].
        * intros k m' md' [= <-] ? ?. simplify_eq.
          by rewrite Hms1, lookup_insert_eq.
      + apply wp_bind.
        eapply wp_mono;
          [apply (disconnectLine_full P line
                    (withLines m (type md) (splice1 line (lines md)))
                    (mkMetadata (type md) (splice1 line (lines md))) l1 s1);
           [done|by rewrite Hms1, lookup_insert_eq|done|done
           |by rewrite Hsc1]| |done].
        intros ? s2 (Hs2&Hv2&Hms2&Hsc2&Hk2&_). simpl in Hms2.
        apply Hend.
        * by eapply sameValues_trans.
        * congruence.
        * intros k Hk. by rewrite Hk2, Hk1.
        * intros k Hk. rewrite Hms2, Hms1, !lookup_insert_ne; [done|congruence..].
        * intros k m' md' [= <-] ? ?. simplify_eq.
          by rewrite Hms2, lookup_insert_eq.
    - assert (t = None) as -> by (by destruct Hto).
      apply wp_bind, wp_ret, wp_bind, wp_ret.
      apply Hend; [apply sameValues_refl|done..]. }
  apply wp_ok in Hwp as (s'&[]&Hrun&HQ). by exists s'.
Qed.

Lemma removeLine_clean_witness :
  reach selfLoop ∧
  lineMeshes selfLoop !! 1 = Some (mkLinesMesh [0; 0] (Some 0) (Some 0)) ∧
  1 ∈ scene selfLoop ∧
  (to (mkLinesMesh [0; 0] (Some 0) (Some 0)) = None ∨
   to (mkLinesMesh [0; 0] (Some 0) (Some 0))
   = from (mkLinesMesh [0; 0] (Some 0) (Some 0))) ∧
  ∃ s', removeLine 1 selfLoop = (s', Ok tt) ∧
        scene s' = scene selfLoop ∖ {[1]} ∧
        (∀ k, k ≠ 1 → lineMeshes s' !! k = lineMeshes selfLoop !! k) ∧
        (∀ k, positionOf s' k = positionOf selfLoop k) ∧
        (∀ k i, k ≠ 1 → pointAt s' k i = pointAt selfLoop k i) ∧
        (∀ P, Some 0 ≠ Some P → meshes s' !! P = meshes selfLoop !! P) ∧
        (∀ P m md, Some 0 = Some P → meshes selfLoop !! P = Some m →
           metadata m = Some md →
           meshes s' !! P
           = Some (withLines m (type md)
                     (splice1 1 (splice1 1 (lines md))))).
Proof.
  assert (reach selfLoop) as Hr by (by apply reach_runAll; [apply reach_init|]).
  assert (1 ∈ scene selfLoop) as Hin
    by (apply (bool_decide_unpack (1 ∈ scene selfLoop)); by vm_compute).
  split; [done|]. split; [by vm_compute|]. split; [done|]. split; [by right|].
  apply (removeLine_clean selfLoop 1 (mkLinesMesh [0; 0] (Some 0) (Some 0)));
    [done|by vm_compute|done|by right].
Defined.

(** ** X17: where [moveTo] ends *)

(** X17: in a state reached by the ten calls, [moveTo(mesh, point)]
    does what [move] does with the difference between the target and the
    position [v] of the mesh, and ends as it ends: it returns normally
    when every line listed on the mesh is in the scene and throws a
    [TypeError] otherwise, and in both cases the mesh ends at
    [v + (target - v)], in floating-point arithmetic, the absent components
    of the target being those of [v]; the points of the ends bound to the
    mesh read as that position, and every other position and point, every
    list and the scene are as before. *)
Theorem moveTo_ends_at (s : State) (mesh : Name) (point : Point.t) :
  reach s → isMesh s mesh →
  ∃ s' v, positionOf s mesh = Some v ∧
          moveTo mesh point s = (s', updated s (listOf s mesh)) ∧
          move mesh (diffTo v point) s = (s', updated s (listOf s mesh)) ∧
          positionOf s' mesh = Some (movedTo v point) ∧
          (∀ k, k ≠ mesh → positionOf s' k = positionOf s k) ∧
          (∀ line l, lineMeshes s !! line = Some l →
             pointAt s' line 0
             = (if bool_decide (from l = Some mesh)
                then Some (movedTo v point) else pointAt s line 0) ∧
             pointAt s' line 1
             = (if bool_decide (to l = Some mesh)
                then Some (movedTo v point) else pointAt s line 1)) ∧
          meshes s' = meshes s ∧ lineMeshes s' = lineMeshes s ∧
          scene s' = scene s.
Proof.
  intros Hs%reach_wf [m Hm]. pose proof Hs as [Hc _].
  destruct (core_mesh _ Hc _ _ Hm) as (_&[v Hv]&[md Hmd]).
  exists (putVector (position m) (movedTo v point) s), v.
  destruct (putVector_values s mesh m (movedTo v point) Hs Hm) as (Hp&Ho&Hl).
  rewrite (listOf_eq s mesh m md) by done.
  split_and!; [|by apply moveTo_run| |done..].
  - unfold positionOf. by rewrite Hm.
  - by rewrite (move_run s mesh (diffTo v point) m md v).
Qed.

Lemma moveTo_ends_at_witness :
  reach farBox ∧ isMesh farBox 0 ∧
  positionOf farBox 0 = Some (Vector3.mk 1e16 0 0) ∧
  movedTo (Vector3.mk 1e16 0 0) (Point.mk (Some 1%float) None None)
  = Vector3.mk 0 0 0 ∧
  updated farBox (listOf farBox 0) = Ok tt ∧
  ∃ s' v, positionOf farBox 0 = Some v ∧
          moveTo 0 (Point.mk (Some 1%float) None None) farBox
          = (s', updated farBox (listOf farBox 0)) ∧
          move 0 (diffTo v (Point.mk (Some 1%float) None None)) farBox
          = (s', updated farBox (listOf farBox 0)) ∧
          positionOf s' 0
          = Some (movedTo v (Point.mk (Some 1%float) None None)) ∧
          (∀ k, k ≠ 0 → positionOf s' k = positionOf farBox k) ∧
          (∀ line l, lineMeshes farBox !! line = Some l →
             pointAt s' line 0
             = (if bool_decide (from l = Some 0)
                then Some (movedTo v (Point.mk (Some 1%float) None None))
                else pointAt farBox line 0) ∧
             pointAt s' line 1
             = (if bool_decide (to l = Some 0)
                then Some (movedTo v (Point.mk (Some 1%float) None None))
                else pointAt farBox line 1)) ∧
          meshes s' = meshes farBox ∧ lineMeshes s' = lineMeshes farBox ∧
          scene s' = scene farBox.
Proof.
  assert (reach farBox) as Hr by (by apply reach_runAll; [apply reach_init|]).
  assert (isMesh farBox 0) as Hm by (by apply isMeshb_true).
  split; [done|]. split; [done|]. split; [by vm_compute|].
  split; [by vm_compute|]. split; [by vm_compute|].
  by apply (moveTo_ends_at farBox 0).
Defined.

(** ** X18: what [addLine] adds *)

Lemma pushed_other mesh1 mesh2 line k :
  k ≠ mesh1 → k ≠ mesh2 → pushed mesh1 mesh2 line k = [].
Proof. intros. unfold pushed. by rewrite !bool_decide_eq_false_2. Qed.

Lemma addLine_spec mesh1 mesh2 m1 m2 s :
  wf s → meshes s !! mesh1 = Some m1 → meshes s !! mesh2 = Some m2 →
  wp (addLine mesh1 mesh2)
     (λ r s', r = nextId s ∧
        lineMeshes s'
        = <[r := mkLinesMesh [position m1; position m2]
                             (Some mesh1) (Some mesh2)]> (lineMeshes s) ∧
        scene s' = {[r]} ∪ scene s ∧ vectors s' = vectors s ∧
        (∀ k, meshes s !! k = None → meshes s' !! k = None) ∧
        ∀ k m md, meshes s !! k = Some m → metadata m = Some md →
          meshes s' !! k
          = Some (withLines m (type md)
                    (lines md ++ pushed mesh1 mesh2 r k)))
     (λ _ _, False) s.
Proof.
  intros [Hc _] H1 H2.
  destruct (core_mesh _ Hc _ _ H1) as (_&_&[md1 Hmd1]).
  destruct (core_mesh _ Hc _ _ H2) as (_&_&[md2 Hmd2]).
  unfold addLine.
  eapply wp_bind, wp_getMesh_ok; [done|].
  eapply wp_bind, wp_getMesh_ok; [done|].
  apply wp_bind, wp_RandomId. unfold CreateLines.
  apply wp_bind, wp_bind, wp_modify, wp_bind, wp_modify, wp_ret.
  eapply wp_bind, (wp_push_ok mesh1 _ m1 md1); [done..|].
  destruct (decide (mesh1 = mesh2)) as [<-|Hne].
  - simplify_eq.
    eapply wp_bind, (wp_push_ok mesh1 _
                       (withLines m1 (type md1) (lines md1 ++ [nextId s]))
                       (mkMetadata (type md1) (lines md1 ++ [nextId s])));
      [simpl; by rewrite lookup_insert_eq|done|].
    apply wp_ret. split_and!; [done..| |].
    { intros k Hk. simpl. rewrite !lookup_insert_ne by congruence. done. }
    intros k m md Hk Hmd. simpl.
    rewrite insert_insert_eq. destruct (decide (k = mesh1)) as [->|Hk1].
    + simplify_eq. rewrite lookup_insert_eq. unfold pushed.
      rewrite !bool_decide_eq_true_2 by done.
      unfold withLines. simpl. by rewrite <- app_assoc.
    + rewrite lookup_insert_ne by done.
      rewrite pushed_other, app_nil_r by done.
      by rewrite (withLines_same m md Hmd).
  - eapply wp_bind, (wp_push_ok mesh2 _ m2 md2);
      [simpl; by rewrite lookup_insert_ne|done|].
    apply wp_ret. split_and!; [done..| |].
    { intros k Hk. simpl. rewrite !lookup_insert_ne by congruence. done. }
    intros k m md Hk Hmd. simpl.
    unfold pushed. destruct (decide (k = mesh2)) as [->|Hk2].
    + simplify_eq. rewrite lookup_insert_eq.
      rewrite bool_decide_eq_false_2, bool_decide_eq_true_2 by done. done.
    + rewrite lookup_insert_ne by done.
      rewrite (bool_decide_eq_false_2 (k = mesh2)) by done.
      destruct (decide (k = mesh1)) as [->|Hk1].
      * simplify_eq. rewrite lookup_insert_eq.
        by rewrite bool_decide_eq_true_2.
      * rewrite lookup_insert_ne by done.
        rewrite bool_decide_eq_false_2 by done. simpl.
        by rewrite app_nil_r, (withLines_same m md Hmd).
Qed.

(** X18: in a state reached by the ten calls, [addLine(mesh1, mesh2)]
    returns a line that is a new object, puts it into the scene, binds its
    [from] end to [mesh1] and its [to] end to [mesh2] with the two points
    reading as the positions of the two meshes, and pushes it onto the end
    of the list of [mesh1] and of the list of [mesh2] (twice onto the same
    list when the two are one mesh); the other lists, the other lines and
    every position are as before. *)
Theorem addLine_appends (s : State) (mesh1 mesh2 : Name) :
  reach s → isMesh s mesh1 → isMesh s mesh2 →
  ∃ s' line l,
    addLine mesh1 mesh2 s = (s', Ok line) ∧
    ¬ isMesh s line ∧ ¬ isLine s line ∧
    lineMeshes s' = <[line := l]> (lineMeshes s) ∧
    from l = Some mesh1 ∧ to l = Some mesh2 ∧
    pointAt s' line 0 = positionOf s mesh1 ∧
    pointAt s' line 1 = positionOf s mesh2 ∧
    scene s' = {[line]} ∪ scene s ∧
    (∀ k, positionOf s' k = positionOf s k) ∧
    (∀ k m md, meshes s !! k = Some m → metadata m = Some md →
       meshes s' !! k
       = Some (withLines m (type md)
                 (lines md ++ pushed mesh1 mesh2 line k))).
Proof.
  intros Hs%reach_wf [m1 H1] [m2 H2]. pose proof Hs as [Hc _].
  destruct (wp_ok _ _ _ (addLine_spec mesh1 mesh2 m1 m2 s Hs H1 H2))
    as (s'&r&Hrun&->&Hls&Hsc&Hvs&Hdom&Hms).
  exists s', (nextId s), (mkLinesMesh [position m1; position m2]
                            (Some mesh1) (Some mesh2)).
  split_and!; [done| | |done|done|done| | |done| |done].
  - intros [m Hm]. destruct (core_mesh _ Hc _ _ Hm). lia.
  - intros [l Hl]. destruct (core_line _ Hc _ _ Hl). lia.
  - unfold pointAt, positionOf. rewrite Hls, lookup_insert_eq, H1, Hvs. done.
  - unfold pointAt, positionOf. rewrite Hls, lookup_insert_eq, H2, Hvs. done.
  - intros k. unfold positionOf. rewrite Hvs.
    destruct (meshes s !! k) as [m|] eqn:Hm; simpl.
    + destruct (core_mesh _ Hc _ _ Hm) as (_&_&[md Hmd]).
      by rewrite (Hms k m md Hm Hmd).
    + by rewrite (Hdom k Hm).
Qed.

Lemma addLine_appends_witness :
  reach threeBoxes ∧ isMesh threeBoxes 0 ∧ isMesh threeBoxes 1 ∧
  ∃ s' line l,
    addLine 0 1 threeBoxes = (s', Ok line) ∧
    ¬ isMesh threeBoxes line ∧ ¬ isLine threeBoxes line ∧
    lineMeshes s' = <[line := l]> (lineMeshes threeBoxes) ∧
    from l = Some 0 ∧ to l = Some 1 ∧
    pointAt s' line 0 = positionOf threeBoxes 0 ∧
    pointAt s' line 1 = positionOf threeBoxes 1 ∧
    scene s' = {[line]} ∪ scene threeBoxes ∧
    (∀ k, positionOf s' k = positionOf threeBoxes k) ∧
    (∀ k m md, meshes threeBoxes !! k = Some m → metadata m = Some md →
       meshes s' !! k
       = Some (withLines m (type md) (lines md ++ pushed 0 1 line k))).
Proof.
  assert (reach threeBoxes) as Hr
    by (by apply reach_runAll; [apply reach_init|]).
  assert (isMesh threeBoxes 0) as H0 by (by apply isMeshb_true).
  assert (isMesh threeBoxes 1) as H1 by (by apply isMeshb_true).
  split_and!; [done..|].
  by apply (addLine_appends threeBoxes 0 1).
Defined.

(** ** X19: what [connectLine] binds, for either end *)

(** X19: in a state reached by the ten calls, [connectLine(mesh, line,
    type)] on a line of the scene returns normally; the end named by [type] is bound to [mesh]
    and its point reads as the position of [mesh], the other end and its
    point are as before; [line] is pushed onto the list of [mesh] unless
    the list holds it already; every other mesh (the one the end was bound
    to before among them), every other line, the scene and every position
    are as before. *)
Theorem connectLine_binds (s : State) (mesh line : Name) (ty : EndType)
    (l : LinesMesh) :
  reach s → isMesh s mesh → lineMeshes s !! line = Some l →
  line ∈ scene s →
  ∃ s' l',
    connectLine mesh line ty s = (s', Ok tt) ∧
    lineMeshes s' = <[line := l']> (lineMeshes s) ∧
    match ty with
    | TFrom => from l' = Some mesh ∧ to l' = to l ∧
               pointAt s' line 0 = positionOf s mesh ∧
               pointAt s' line 1 = pointAt s line 1
    | TTo => from l' = from l ∧ to l' = Some mesh ∧
             pointAt s' line 0 = pointAt s line 0 ∧
             pointAt s' line 1 = positionOf s mesh
    end ∧
    scene s' = scene s ∧
    (∀ k, positionOf s' k = positionOf s k) ∧
    (∀ k, k ≠ mesh → meshes s' !! k = meshes s !! k) ∧
    (∀ m md, meshes s !! mesh = Some m → metadata m = Some md →
       meshes s' !! mesh
       = Some (withLines m (type md)
                 (if find line (lines md) then lines md
                  else lines md ++ [line]))) ∧
    reach s'.
Proof.
  intros Hr [m Hm] Hl Hlive. pose proof (reach_wf _ Hr) as Hs.
  pose proof Hs as [Hc _].
  destruct (core_mesh _ Hc _ _ Hm) as (_&_&[md Hmd]).
  destruct (core_line _ Hc _ _ Hl) as (_&a&b&Hpts&_).
  pose proof (connectLine_run mesh line ty m md l s Hm Hmd Hl) as Hrun.
  rewrite (bool_decide_eq_true_2 (line ∈ scene s)) in Hrun by done.
  cbv zeta in Hrun.
  set (l1 := connected mesh (position m) ty l) in *.
  set (s' := if find line (lines md) then putLine line l1 s
             else putMesh mesh (withLines m (type md) (lines md ++ [line]))
                    (putLine line l1 s)) in *.
  assert (lineMeshes s' = <[line := l1]> (lineMeshes s)) as Hls
    by (unfold s'; by destruct (find line (lines md))).
  assert (vectors s' = vectors s) as Hvs
    by (unfold s'; by destruct (find line (lines md))).
  assert (∀ k, k ≠ mesh → meshes s' !! k = meshes s !! k) as Hoth.
  { intros k Hk. unfold s'. destruct (find line (lines md)); simpl; [done|].
    by rewrite lookup_insert_ne. }
  assert (meshes s' !! mesh
          = Some (withLines m (type md)
                    (if find line (lines md) then lines md
                     else lines md ++ [line]))) as Hmesh.
  { unfold s'. destruct (find line (lines md)); simpl.
    - by rewrite (withLines_same m md Hmd).
    - by rewrite lookup_insert_eq. }
  exists s', l1. split_and!; [done|done| |..].
  - unfold pointAt, positionOf. rewrite Hls, lookup_insert_eq, Hl, Hm, Hvs.
    unfold l1. destruct ty; simpl; by rewrite Hpts.
  - unfold s'. by destruct (find line (lines md)).
  - intros k. unfold positionOf. rewrite Hvs.
    destruct (decide (k = mesh)) as [->|Hk]; [|by rewrite Hoth].
    by rewrite Hmesh, Hm.
  - done.
  - intros m' md' ? ?. by simplify_eq.
  - replace s' with (run (OpConnectLine mesh line ty) s)
      by (simpl; unfold exec; by rewrite Hrun).
    apply reach_step; [done|]. split; [by exists m|by exists l].
Qed.

Lemma connectLine_binds_witness :
  reach twoBoxes ∧ isMesh twoBoxes 0 ∧
  lineMeshes twoBoxes !! 2 = Some (mkLinesMesh [0; 1] (Some 0) (Some 1)) ∧
  2 ∈ scene twoBoxes ∧
  ∃ s' l',
    connectLine 0 2 TTo twoBoxes = (s', Ok tt) ∧
    lineMeshes s' = <[2 := l']> (lineMeshes twoBoxes) ∧
    (from l' = from (mkLinesMesh [0; 1] (Some 0) (Some 1)) ∧
     to l' = Some 0 ∧
     pointAt s' 2 0 = pointAt twoBoxes 2 0 ∧
     pointAt s' 2 1 = positionOf twoBoxes 0) ∧
    scene s' = scene twoBoxes ∧
    (∀ k, positionOf s' k = positionOf twoBoxes k) ∧
    (∀ k, k ≠ 0 → meshes s' !! k = meshes twoBoxes !! k) ∧
    (∀ m md, meshes twoBoxes !! 0 = Some m → metadata m = Some md →
       meshes s' !! 0
       = Some (withLines m (type md)
                 (if find 2 (lines md) then lines md
                  else lines md ++ [2]))) ∧
    reach s'.
Proof.
  assert (reach twoBoxes) as Hr by (by apply reach_runAll; [apply reach_init|]).
  assert (isMesh twoBoxes 0) as Hm by (by apply isMeshb_true).
  assert (2 ∈ scene twoBoxes) as Hin
    by (apply (bool_decide_unpack (2 ∈ scene twoBoxes)); by vm_compute).
  split; [done|]. split; [done|]. split; [by vm_compute|]. split; [done|].
  apply (connectLine_binds twoBoxes 0 2 TTo
           (mkLinesMesh [0; 1] (Some 0) (Some 1)));
    [done|done|by vm_compute|done].
Defined.

(** ** X20: [removeLinesOnMesh] and the lines that come in *)

Lemma splice1_keeps_NoDup line ls : NoDup ls → NoDup (splice1 line ls).
Proof.
  induction ls as [|x ls IH]; simpl; [done|].
  intros [Hx Hnd]%NoDup_cons. destruct (Nat.eqb_spec x line); [done|].
  apply NoDup_cons. split; [|by apply IH]. intros Hin. apply Hx.
  by eapply splice1_sub.
Qed.

Lemma splice1_elem line ls k :
  NoDup ls → k ∈ splice1 line ls ↔ k ∈ ls ∧ k ≠ line.
Proof.
  intros Hnd. split.
  - intros Hk. split; [by eapply splice1_sub|]. intros ->.
    by apply (splice1_NoDup line ls).
  - intros [? ?]. by apply splice1_other.
Qed.

(** [removeLine] on a line of the scene whose [from] end is bound: both
    calls of [disconnectLine] act on the mesh at [from]. *)
Lemma removeLine_from line l P m md s :
  wf s → lineMeshes s !! line = Some l → from l = Some P →
  meshes s !! P = Some m → metadata m = Some md → line ∈ scene s →
  wp (removeLine line)
     (λ _ s', wf s' ∧ scene s' = scene s ∖ {[line]} ∧
        (∀ k, positionOf s' k = positionOf s k) ∧
        (∀ k, k ≠ line → lineMeshes s' !! k = lineMeshes s !! k) ∧
        meshes s'
        = <[P := withLines m (type md)
                   (if to l is Some _
                    then splice1 line (splice1 line (lines md))
                    else splice1 line (lines md))]> (meshes s))
     (λ _ _, False) s.
Proof.
  intros Hs Hl Hfrom Hm Hmd Hlive.
  assert (Hend : ∀ s2 ls, wf s2 → sameValues s s2 → scene s2 = scene s →
    (∀ k, k ≠ line → lineMeshes s2 !! k = lineMeshes s !! k) →
    meshes s2 = <[P := withLines m (type md) ls]> (meshes s) →
    wp (dispose line;; sceneRemoveMesh line)
       (λ _ s', wf s' ∧ scene s' = scene s ∖ {[line]} ∧
          (∀ k, positionOf s' k = positionOf s k) ∧
          (∀ k, k ≠ line → lineMeshes s' !! k = lineMeshes s !! k) ∧
          meshes s' = <[P := withLines m (type md) ls]> (meshes s))
       (λ _ _, False) s2).
  { intros s2 ls Hs2 [Hpos Hpt] Hsc Hk Hms.
    apply wp_bind, wp_modify, wp_modify. simpl.
    split_and!; [by do 2 apply wf_putScene| |done..].
    rewrite Hsc. apply leibniz_equiv. intros k.
    rewrite !elem_of_difference. tauto. }
  unfold removeLine. eapply wp_bind, wp_getLine_ok; [done|].
  destruct l as [pts f t]. simpl in Hfrom |- *. subst f.
  apply wp_bind.
  eapply wp_mono;
    [by apply (disconnectLine_full P line m md
                 (mkLinesMesh pts (Some P) t) s)| |done].
  intros ? s1 (Hs1&Hv1&Hms1&Hsc1&Hk1&l1&Hl1&_).
  destruct t as [Q|].
  - apply wp_bind.
    eapply wp_mono;
      [apply (disconnectLine_full P line
                (withLines m (type md) (splice1 line (lines md)))
                (mkMetadata (type md) (splice1 line (lines md))) l1 s1);
       [done|by rewrite Hms1, lookup_insert_eq|done|done
       |by rewrite Hsc1]| |done].
    intros ? s2 (Hs2&Hv2&Hms2&Hsc2&Hk2&_). simpl in Hms2.
    apply Hend; [done|by eapply sameValues_trans|congruence| |].
    + intros k Hk. by rewrite Hk2, Hk1.
    + by rewrite Hms2, Hms1, insert_insert_eq.
  - apply wp_bind, wp_ret. by apply Hend.
Qed.

(** The loop of [removeLinesOnMesh] over the snapshot [rest], [cur] being
    the list of [mesh] as it stands. *)
Lemma removeLines_loop mesh rest : ∀ s m md,
  wf s → meshes s !! mesh = Some m → metadata m = Some md →
  NoDup (lines md) → NoDup rest →
  (∀ x, x ∈ rest → is_Some (fromOf s x)) →
  (∀ x, x ∈ rest → x ∈ scene s) →
  wp (forEach removeLine rest)
     (λ _ s', wf s' ∧ scene s' = scene s ∖ list_to_set rest ∧
        (∀ k, positionOf s' k = positionOf s k) ∧
        (∀ k, k ∉ rest → lineMeshes s' !! k = lineMeshes s !! k) ∧
        ∃ m' md', meshes s' !! mesh = Some m' ∧ metadata m' = Some md' ∧
                  NoDup (lines md') ∧
                  ∀ y, y ∈ lines md' ↔
                       y ∈ lines md ∧ ¬ (y ∈ rest ∧ fromOf s y = Some mesh))
     (λ _ _, False) s.
Proof.
  induction rest as [|x rest IH];
    intros s m md Hs Hm Hmd Hnd Hndr Hfrom Hlive.
  - apply wp_ret. split_and!; [done| |done|done|].
    + simpl. apply leibniz_equiv. intros k.
      rewrite elem_of_difference, elem_of_empty. tauto.
    + exists m, md. split_and!; [done..|]. intros y. split; [|tauto].
      intros Hy. split; [done|]. intros [?%elem_of_nil _]. done.
  - apply NoDup_cons in Hndr as [Hx Hndr]. pose proof Hs as [Hc _].
    destruct (Hfrom x) as [P HP]; [apply elem_of_cons; by left|].
    unfold fromOf in HP.
    destruct (lineMeshes s !! x) as [l|] eqn:Hl; [|done]. simpl in HP.
    destruct (core_line _ Hc _ _ Hl) as (_&a&b&_&_&_&Hf&_).
    rewrite HP in Hf. destruct Hf as (mP&HmP&_).
    destruct (core_mesh _ Hc _ _ HmP) as (_&_&[mdP HmdP]).
    simpl. apply wp_bind.
    eapply wp_mono;
      [apply (removeLine_from x l P mP mdP s); [done..|];
       apply Hlive, elem_of_cons; by left| |done].
    intros ? s1 (Hs1&Hsc1&Hpos1&Hk1&Hms1).
    set (spl := if to l is Some _ then splice1 x (splice1 x (lines mdP))
                else splice1 x (lines mdP)) in Hms1.
    assert (∃ m1 md1, meshes s1 !! mesh = Some m1 ∧ metadata m1 = Some md1 ∧
              NoDup (lines md1) ∧
              ∀ y, y ∈ lines md1 ↔
                   y ∈ lines md ∧ ¬ (y = x ∧ P = mesh))
      as (m1&md1&Hm1&Hmd1&Hnd1&Hin1).
    { destruct (decide (P = mesh)) as [->|HneP].
      - simplify_eq. exists (withLines m (type md) spl), (mkMetadata (type md) spl).
        split_and!; [by rewrite Hms1, lookup_insert_eq|done|..]; simpl.
        + unfold spl. destruct (to l); by repeat apply splice1_keeps_NoDup.
        + intros y. unfold spl.
          destruct (to l);
            rewrite ?splice1_elem by (by repeat apply splice1_keeps_NoDup);
            tauto.
      - exists m, md. split_and!; [by rewrite Hms1, lookup_insert_ne|done..|].
        intros y. tauto. }
    assert (∀ y, y ∈ rest → fromOf s1 y = fromOf s y) as Hsame.
    { intros y Hy. unfold fromOf. rewrite Hk1; [done|]. by intros ->. }
    eapply wp_mono;
      [apply (IH s1 m1 md1); [done..| |]| |done].
    { intros y Hy. rewrite Hsame by done. apply Hfrom, elem_of_cons. by right. }
    { intros y Hy. rewrite Hsc1. apply elem_of_difference. split.
      - apply Hlive, elem_of_cons. by right.
      - rewrite elem_of_singleton. by intros ->. }
    intros ? s2 (Hs2&Hsc2&Hpos2&Hk2&m2&md2&Hm2&Hmd2&Hnd2&Hin2).
    split_and!; [done| | | |].
    + rewrite Hsc2, Hsc1. apply leibniz_equiv. intros k.
      rewrite !elem_of_difference, elem_of_list_to_set, elem_of_union,
        elem_of_singleton, elem_of_list_to_set. tauto.
    + intros k. by rewrite Hpos2.
    + intros k [Hkx Hkr]%not_elem_of_cons. by rewrite Hk2, Hk1.
    + exists m2, md2. split_and!; [done..|]. intros y.
      rewrite Hin2, Hin1, elem_of_cons. unfold fromOf at 2. split.
      * intros [[Hy Hnx] Hnr]. split; [done|]. intros [[->|Hyr] Hfy].
        -- apply Hnx. split; [done|]. rewrite Hl in Hfy. simpl in Hfy.
           congruence.
        -- apply Hnr. split; [done|]. by rewrite Hsame.
      * intros [Hy Hn]. split_and!; [done| |].
        -- intros [-> ->]. apply Hn. split; [by left|]. by rewrite Hl.
        -- intros [Hyr Hfy]. apply Hn. split; [by right|].
           rewrite Hsame in Hfy by done. done.
Qed.

(** X20: in a state reached by the ten calls, on a mesh whose list holds
    no line twice, no line with a free [from] end and no line that is out
    of the scene, [removeLinesOnMesh(mesh)] returns normally and takes every line of the
    list out of the scene, moving nothing.  The list of [mesh] is left
    with the lines that came in from elsewhere: a line stays listed on
    [mesh] exactly when its [from] end was not [mesh] (for each line
    [removeLine] disconnects the mesh at [from] only). *)
Theorem removeLinesOnMesh_keeps_incoming (s : State) (mesh : Name) (m : Mesh)
    (md : Metadata) :
  reach s → meshes s !! mesh = Some m → metadata m = Some md →
  NoDup (lines md) →
  (∀ line, line ∈ lines md → is_Some (fromOf s line)) →
  (∀ line, line ∈ lines md → line ∈ scene s) →
  ∃ s' m' md',
    removeLinesOnMesh mesh s = (s', Ok tt) ∧
    scene s' = scene s ∖ list_to_set (lines md) ∧
    (∀ k, positionOf s' k = positionOf s k) ∧
    (∀ k, k ∉ lines md → lineMeshes s' !! k = lineMeshes s !! k) ∧
    meshes s' !! mesh = Some m' ∧ metadata m' = Some md' ∧
    ∀ line, line ∈ lines md' ↔
            line ∈ lines md ∧ fromOf s line ≠ Some mesh.
Proof.
  intros Hs%reach_wf Hm Hmd Hnd Hfrom Hlive.
  assert (wp (removeLinesOnMesh mesh)
    (λ _ s', scene s' = scene s ∖ list_to_set (lines md) ∧
       (∀ k, positionOf s' k = positionOf s k) ∧
       (∀ k, k ∉ lines md → lineMeshes s' !! k = lineMeshes s !! k) ∧
       ∃ m' md', meshes s' !! mesh = Some m' ∧ metadata m' = Some md' ∧
         ∀ line, line ∈ lines md' ↔
                 line ∈ lines md ∧ fromOf s line ≠ Some mesh)
    (λ _ _, False) s) as Hwp.
  { unfold removeLinesOnMesh. eapply wp_bind, wp_getLines_ok; [done..|].
    eapply wp_mono;
      [by apply (removeLines_loop mesh (lines md) s m md)| |done].
    intros ? s' (_&Hsc&Hpos&Hk&m'&md'&Hm'&Hmd'&_&Hin).
    split_and!; [done..|]. exists m', md'. split_and!; [done..|].
    intros line. rewrite Hin. tauto. }
  apply wp_ok in Hwp as (s'&[]&Hrun&Hsc&Hpos&Hk&m'&md'&Hm'&Hmd'&Hin).
  by exists s', m', md'.
Qed.

Lemma removeLinesOnMesh_keeps_incoming_witness :
  reach relay ∧
  meshes relay !! 1 = Some (mkMesh 1 None (Some (mkMetadata "box" [3; 4]))) ∧
  metadata (mkMesh 1 None (Some (mkMetadata "box" [3; 4])))
  = Some (mkMetadata "box" [3; 4]) ∧
  NoDup (lines (mkMetadata "box" [3; 4])) ∧
  (∀ line, line ∈ lines (mkMetadata "box" [3; 4]) →
           is_Some (fromOf relay line)) ∧
  (∀ line, line ∈ lines (mkMetadata "box" [3; 4]) → line ∈ scene relay) ∧
  fromOf relay 3 = Some 0 ∧ fromOf relay 4 = Some 1 ∧
  ∃ s' m' md',
    removeLinesOnMesh 1 relay = (s', Ok tt) ∧
    scene s' = scene relay ∖ list_to_set (lines (mkMetadata "box" [3; 4])) ∧
    (∀ k, positionOf s' k = positionOf relay k) ∧
    (∀ k, k ∉ lines (mkMetadata "box" [3; 4]) →
          lineMeshes s' !! k = lineMeshes relay !! k) ∧
    meshes s' !! 1 = Some m' ∧ metadata m' = Some md' ∧
    ∀ line, line ∈ lines md' ↔
            line ∈ lines (mkMetadata "box" [3; 4]) ∧
            fromOf relay line ≠ Some 1.
Proof.
  assert (reach relay) as Hr by (by apply reach_runAll; [apply reach_init|]).
  assert (NoDup [3; 4]) as Hnd
    by (apply (bool_decide_unpack (NoDup [3; 4])); by vm_compute).
  assert (∀ line, line ∈ [3; 4] → is_Some (fromOf relay line)) as Hfrom.
  { intros line [->|[->|?%elem_of_nil]%elem_of_cons]%elem_of_cons;
      [by eexists; vm_compute..|done]. }
  assert (∀ line, line ∈ [3; 4] → line ∈ scene relay) as Hlive
    by (apply allLive_elem; by vm_compute).
  split; [done|]. split; [by vm_compute|]. split; [done|].
  split; [done|]. split; [done|]. split; [done|]. split; [by vm_compute|].
  split; [by vm_compute|].
  apply (removeLinesOnMesh_keeps_incoming relay 1
           (mkMesh 1 None (Some (mkMetadata "box" [3; 4])))
           (mkMetadata "box" [3; 4])); [done|by vm_compute|done..].
Defined.

(** ** X21: [importMesh] on a result without parentless mesh *)

(** X21: when every mesh of the loaded result has a parent (a transform
    node, say), [importMesh] raises its [TypeError] only after the load and
    the renaming: the meshes of the asset are in the heap and in the scene
    under their new names, each with the metadata the asset left on it
    and no other, and what was in the scene before is still there. *)
Theorem importMesh_rootless_keeps_load (rootPath name : string)
    (r : ImportResult) (s : State) :
  firstParentless (r_meshes r) = None →
  ∃ s', importMesh rootPath name (Some r) s = (s', Throw TypeError) ∧
        scene s ⊆ scene s' ∧
        nextId s' = nextId s + length (r_meshes r)
                    + length (r_transformNodes r) + r_geometries r ∧
        ∀ i n, r_meshes r !! i = Some n →
          nextId s + i ∈ scene s' ∧
          meshes s' !! (nextId s + i)
          = Some (mkMesh (nextVec s + i)
                    (renamed (nextId s) (length (r_meshes r))
                       <$> node_parent n) (node_metadata n)).
Proof.
  intros Hnone.
  set (nm := length (r_meshes r)).
  set (s1 := (ImportMeshAsync (Some r) s).1).
  assert (Hnew : ∀ i n, r_meshes r !! i = Some n →
    meshes s1 !! (nextId s + i)
    = Some (mkMesh (nextVec s + i)
                   (renamed (nextId s) nm <$> node_parent n)
                   (node_metadata n))).
  { intros i n Hi. subst s1. simpl.
    rewrite loadNodes_old by (apply lookup_lt_Some in Hi; lia).
    by apply loadNodes_new. }
  assert (Hfind : List.find (λ k, if parentOf s1 k is Some _ then false else true)
                    (seq (nextId s) nm)
                  = (λ i, nextId s + i) <$> firstParentless (r_meshes r)).
  { apply find_parentless. intros i n Hi. unfold parentOf.
    rewrite (Hnew _ _ Hi). simpl. by destruct (node_parent n). }
  assert (Hload : ImportMeshAsync (Some r) s = (s1, Ok (seq (nextId s) nm)))
    by done.
  assert (Hfound : findParentless (seq (nextId s) nm) s1
                   = (s1, Ok ((λ i, nextId s + i) <$> firstParentless (r_meshes r))))
    by (unfold findParentless, gets; by rewrite Hfind).
  exists s1. split_and!.
  - unfold importMesh.
    rewrite (bind_Ok _ _ _ _ _ Hload), (bind_Ok _ _ _ _ _ Hfound).
    by rewrite Hnone.
  - simpl. intros k Hk. apply elem_of_union. by right.
  - done.
  - intros i n Hi. split; [|by apply Hnew].
    simpl. apply elem_of_union. left. apply elem_of_list_to_set, elem_of_seq.
    apply lookup_lt_Some in Hi. lia.
Qed.

Lemma importMesh_rootless_keeps_load_witness :
  firstParentless (r_meshes grouped) = None ∧
  ∃ s', importMesh "assets/" "grouped.glb" (Some grouped) oneBox
        = (s', Throw TypeError) ∧
        scene oneBox ⊆ scene s' ∧
        nextId s' = nextId oneBox + length (r_meshes grouped)
                    + length (r_transformNodes grouped)
                    + r_geometries grouped ∧
        ∀ i n, r_meshes grouped !! i = Some n →
          nextId oneBox + i ∈ scene s' ∧
          meshes s' !! (nextId oneBox + i)
          = Some (mkMesh (nextVec oneBox + i)
                    (renamed (nextId oneBox) (length (r_meshes grouped))
                       <$> node_parent n) (node_metadata n)).
Proof.
  split; [done|].
  by apply (importMesh_rootless_keeps_load "assets/" "grouped.glb" grouped
              oneBox).
Defined.

(** ** X22: what [addMesh] creates *)

(** X22: in a state reached by the ten calls, [addMesh] with the type
    ['box'] or ['sphere'] returns a mesh that is a new object: it is in
    the scene, stands at the origin, has no parent, carries the type it
    was created with and an empty list; every mesh and line that was
    there, every position and every point are as before. *)
Theorem addMesh_creates (s : State) (ty : string) (opt : Options) :
  reach s → supported ty = true →
  ∃ s' mesh m,
    addMesh ty opt s = (s', Ok (Some mesh)) ∧
    ¬ isMesh s mesh ∧ ¬ isLine s mesh ∧
    meshes s' = <[mesh := m]> (meshes s) ∧
    parent m = None ∧ metadata m = Some (mkMetadata ty []) ∧
    positionOf s' mesh = Some Vector3.Zero ∧
    scene s' = {[mesh]} ∪ scene s ∧
    lineMeshes s' = lineMeshes s ∧
    (∀ k, isMesh s k → positionOf s' k = positionOf s k) ∧
    (∀ line i, pointAt s' line i = pointAt s line i) ∧
    reach s'.
Proof.
  intros Hr Hsup. pose proof (reach_wf _ Hr) as [Hc _].
  pose proof (addMesh_run ty opt s) as Hrun. rewrite Hsup in Hrun.
  exists (added ty s), (nextId s),
    (mkMesh (nextVec s) None (Some (mkMetadata ty []))).
  assert (¬ isMesh s (nextId s)) as Hfresh.
  { intros [m Hm]. destruct (core_mesh _ Hc _ _ Hm). lia. }
  split_and!; [done|done| |apply added_meshes|done|done| |done|done| | |].
  - intros [l Hl]. destruct (core_line _ Hc _ _ Hl). lia.
  - unfold positionOf. rewrite added_meshes, lookup_insert_eq. simpl.
    by rewrite lookup_insert_eq.
  - intros k [m Hm]. unfold positionOf.
    rewrite added_meshes, lookup_insert_ne, Hm; simpl.
    + destruct (core_mesh _ Hc _ _ Hm) as (_&[v Hv]&_).
      rewrite lookup_insert_ne; [done|]. apply (core_vec _ Hc) in Hv. lia.
    + intros <-. apply Hfresh. by exists m.
  - intros line i. unfold pointAt. simpl.
    destruct (lineMeshes s !! line) as [l|] eqn:Hl; simpl; [|done].
    by apply (alloc_points s Vector3.Zero l line i).
  - replace (added ty s) with (run (OpAddMesh ty opt) s)
      by (simpl; unfold exec; by rewrite Hrun).
    by apply reach_step.
Qed.

Lemma addMesh_creates_witness :
  reach twoBoxes ∧ supported "sphere" = true ∧
  ∃ s' mesh m,
    addMesh "sphere" [("diameter", 2%float)] twoBoxes = (s', Ok (Some mesh)) ∧
    ¬ isMesh twoBoxes mesh ∧ ¬ isLine twoBoxes mesh ∧
    meshes s' = <[mesh := m]> (meshes twoBoxes) ∧
    parent m = None ∧ metadata m = Some (mkMetadata "sphere" []) ∧
    positionOf s' mesh = Some Vector3.Zero ∧
    scene s' = {[mesh]} ∪ scene twoBoxes ∧
    lineMeshes s' = lineMeshes twoBoxes ∧
    (∀ k, isMesh twoBoxes k → positionOf s' k = positionOf twoBoxes k) ∧
    (∀ line i, pointAt s' line i = pointAt twoBoxes line i) ∧
    reach s'.
Proof.
  assert (reach twoBoxes) as Hr by (by apply reach_runAll; [apply reach_init|]).
  split; [done|]. split; [done|].
  by apply (addMesh_creates twoBoxes "sphere" [("diameter", 2%float)]).
Defined.
